(** * eslint-plugin-expect-type: the [expect] rule

    A shallow embedding of [src/rules/expect.ts]: the comment scanner and
    assertion builder ([parseAssertions], [parseTwoslashAssertion]), the
    equivalence matchers ([matchReadonlyArray], [matchModuloWhitespace]),
    the reconciliation pass ([getExpectTypeFailures]) and the report
    assembly of [validate], followed by the properties proved about them.

    Conventions.  A JavaScript string is a list of code units, here
    [list ascii] (source text within Latin-1).  Offsets and line numbers
    are [nat] where the program can only produce non-negative integers and
    [Z] where it subtracts; the one place where the program can compute
    [NaN] has its own [number] type.  A JS [Map] or [Set] is a list in
    insertion order.  Services of the TypeScript compiler (line table,
    checker, language service, syntax tree) are inputs. *)

From Stdlib Require Import String Ascii List Bool Arith ZArith Lia Sorted.
Import ListNotations.

Local Open Scope list_scope.

(** ** JavaScript strings *)

Definition jsstring : Type := list ascii.

(** A string literal of the source. *)
Definition lit (s : string) : jsstring := list_ascii_of_string s.

Definition LF : ascii := "010"%char.
Definition CR : ascii := "013"%char.
Definition TAB : ascii := "009"%char.
Definition SP : ascii := " "%char.

(** [a === b] on strings. *)
Definition jseq (a b : jsstring) : bool :=
  if list_eq_dec ascii_dec a b then true else false.

(** [s.charAt(i)] and [s[i]]: [None] stands for the empty string,
    respectively [undefined], that JavaScript gives out of range. *)
Definition charAt (s : jsstring) (i : nat) : option ascii := nth_error s i.

(** [c === 'x'] for a [charAt] result and a one-character literal. *)
Definition isChar (c : option ascii) (x : ascii) : bool :=
  match c with
  | Some c' => Ascii.eqb c' x
  | None => false
  end.

(** [a === b] for two [charAt] results. *)
Definition charEq (a b : option ascii) : bool :=
  match a, b with
  | Some x, Some y => Ascii.eqb x y
  | None, None => true
  | _, _ => false
  end.

(** [s.slice(a, b)] for non-negative [a] and [b]; both ends are clamped to
    the length and an empty string results when [b <= a]. *)
Definition slice (s : jsstring) (a b : nat) : jsstring :=
  firstn (b - a) (skipn a s).

(** [s.slice(a)]. *)
Definition sliceFrom (s : jsstring) (a : nat) : jsstring := skipn a s.

(** [s.startsWith(p)]. *)
Fixpoint startsWith (s p : jsstring) : bool :=
  match p, s with
  | [], _ => true
  | _ :: _, [] => false
  | x :: p', y :: s' => Ascii.eqb x y && startsWith s' p'
  end.

(** The literal [p] occurs in [s] at offset [i]. *)
Definition occursAt (p s : jsstring) (i : nat) : bool :=
  startsWith (skipn i s) p.

(** [s] contains the literal [p]. *)
Definition includes (s p : jsstring) : bool :=
  existsb (occursAt p s) (seq 0 (S (length s))).

(** *** The few regular-expression atoms the rule uses *)

(** [\w]: ASCII letters, digits and the underscore. *)
Definition isWordChar (c : ascii) : bool :=
  let n := nat_of_ascii c in
  ((48 <=? n) && (n <=? 57)) || ((65 <=? n) && (n <=? 90))
  || ((97 <=? n) && (n <=? 122)) || (n =? 95).

Definition isWordAt (s : jsstring) (i : nat) : bool :=
  match charAt s i with
  | Some c => isWordChar c
  | None => false
  end.

(** [\b] at offset [i]: exactly one of the characters before and after the
    offset is a word character. *)
Definition wordBoundary (s : jsstring) (i : nat) : bool :=
  let before := match i with 0 => false | S j => isWordAt s j end in
  xorb before (isWordAt s i).

(** Line terminators, the characters [.] does not match. *)
Definition isLineTerminator (c : ascii) : bool :=
  Ascii.eqb c LF || Ascii.eqb c CR.

(** The longest prefix matched by [.*]. *)
Fixpoint dotStar (s : jsstring) : jsstring :=
  match s with
  | [] => []
  | c :: s' => if isLineTerminator c then [] else c :: dotStar s'
  end.

(** ** The read-only array matcher *)

Definition readonlyWord : jsstring := lit "readonly".
Definition ReadonlyArrayWord : jsstring := lit "ReadonlyArray".

(** [/\bW\b/.test(s)] for a word [W]. *)
Definition testWord (w s : jsstring) : bool :=
  existsb (fun i => wordBoundary s i && occursAt w s i
                    && wordBoundary s (i + length w))
          (seq 0 (S (length s))).

(** The sticky [/\bReadonlyArray</y] tried at [lastIndex = pos]. *)
Definition readonlyArrayRegExp (expected : jsstring) (pos : nat) : bool :=
  wordBoundary expected pos && occursAt (lit "ReadonlyArray<") expected pos.

(** The sticky [/\breadonly /y] tried at [lastIndex = pos]. *)
Definition readonlyModifierRegExp (actual : jsstring) (pos : nat) : bool :=
  wordBoundary actual pos && occursAt (lit "readonly ") actual pos.

(** The [while] loop of [matchReadonlyArray].  Every round moves
    [expectedPos] forward, so [fuel] bounds the rounds; [None] is an
    exhausted bound, which [matchLoop_total] rules out. *)
Fixpoint matchLoop (fuel : nat) (actual expected : jsstring)
         (expectedPos actualPos depth : nat) : option bool :=
  match fuel with
  | 0 => None
  | S fuel' =>
    if (expectedPos <? length expected) && (actualPos <? length actual) then
      let expectedChar := charAt expected expectedPos in
      let actualChar := charAt actual actualPos in
      if charEq expectedChar actualChar then
        matchLoop fuel' actual expected (expectedPos + 1) (actualPos + 1) depth
      else if (0 <? depth)
              && isChar expectedChar ">"
              && isChar actualChar "["
              && (actualPos <? length actual - 1)
              && isChar (charAt actual (actualPos + 1)) "]" then
        (* end of a read-only array *)
        matchLoop fuel' actual expected (expectedPos + 1) (actualPos + 2) (depth - 1)
      else if readonlyArrayRegExp expected expectedPos
              && readonlyModifierRegExp actual actualPos then
        (* start of a read-only array *)
        matchLoop fuel' actual expected (expectedPos + 14) (actualPos + 9) (depth + 1)
      else Some false
    else Some true
  end.

Definition matchReadonlyArray (actual expected : jsstring) : bool :=
  if negb (testWord readonlyWord actual && testWord ReadonlyArrayWord expected)
  then false
  else match matchLoop (S (length expected)) actual expected 0 0 0 with
       | Some b => b
       | None => false
       end.

(** ** Whitespace-normalised comparison *)

(** [s.replace(/[\n ]+/g, ' ')]: [inRun] tells that the previous
    character already belonged to the run being replaced. *)
Fixpoint collapse (inRun : bool) (s : jsstring) : jsstring :=
  match s with
  | [] => []
  | c :: s' =>
    if Ascii.eqb c LF || Ascii.eqb c SP
    then if inRun then collapse true s' else SP :: collapse true s'
    else c :: collapse false s'
  end.

(** The characters of the runs that [collapse] replaces. *)
Definition isRunChar (c : ascii) : bool := Ascii.eqb c LF || Ascii.eqb c SP.

(** A text without line feed in which no space follows a space;
    [afterSpace] tells that a space stands just before the text. *)
Fixpoint singleSpaced (afterSpace : bool) (s : jsstring) : bool :=
  match s with
  | [] => true
  | c :: s' =>
    if Ascii.eqb c LF then false
    else if Ascii.eqb c SP then negb afterSpace && singleSpaced true s'
         else singleSpaced false s'
  end.

(** The characters [trim] removes, among the code units below 256. *)
Definition isTrimSpace (c : ascii) : bool :=
  let n := nat_of_ascii c in
  ((9 <=? n) && (n <=? 13)) || (n =? 32) || (n =? 160).

Fixpoint trimStart (s : jsstring) : jsstring :=
  match s with
  | [] => []
  | c :: s' => if isTrimSpace c then trimStart s' else s
  end.

Definition trimEnd (s : jsstring) : jsstring := rev (trimStart (rev s)).

Definition trim (s : jsstring) : jsstring := trimEnd (trimStart s).

Definition normalize (s : jsstring) : jsstring := trim (collapse false s).

Definition matchModuloWhitespace (actual expected : jsstring) : bool :=
  let normActual := normalize actual in
  let normExpected := normalize expected in
  jseq normActual normExpected.

(** *** The comparison of a caret assertion in the specification's words *)

Definition spaceOrNewline (c : ascii) : Prop := c = SP \/ c = LF.

(** The text does not start with a character of the class. *)
Definition startsOutside (class : ascii -> Prop) (s : jsstring) : Prop :=
  match s with
  | [] => True
  | c :: _ => ~ class c
  end.

(** [collapsedTo s t]: [t] is [s] with every run of spaces and newlines
    collapsed to a single space.  A run is taken whole: what follows it
    does not start with a space or a newline. *)
Inductive collapsedTo : jsstring -> jsstring -> Prop :=
| collapsed_end : collapsedTo [] []
| collapsed_char (c : ascii) (s t : jsstring) :
    ~ spaceOrNewline c -> collapsedTo s t -> collapsedTo (c :: s) (c :: t)
| collapsed_run (run s t : jsstring) :
    run <> [] -> Forall spaceOrNewline run -> startsOutside spaceOrNewline s ->
    collapsedTo s t -> collapsedTo (run ++ s) (SP :: t).

(** White space at the ends of a text: tab, line feed, vertical tab, form
    feed, carriage return, space and no-break space, by their codes. *)
Definition whiteSpace (c : ascii) : Prop :=
  In (nat_of_ascii c) [9; 10; 11; 12; 13; 32; 160].

(** [trimmedTo t u]: [u] is [t] trimmed at both ends, that is [t] without
    the white space it starts with and the white space it ends with. *)
Definition trimmedTo (t u : jsstring) : Prop :=
  exists l r,
    t = l ++ u ++ r
    /\ Forall whiteSpace l /\ Forall whiteSpace r
    /\ startsOutside whiteSpace u /\ startsOutside whiteSpace (rev u).

(** The two texts are equal after collapsing every run of spaces and
    newlines to a single space and trimming both ends. *)
Definition sameModuloWhitespace (actual expected : jsstring) : Prop :=
  exists ca ce u,
    collapsedTo actual ca /\ collapsedTo expected ce
    /\ trimmedTo ca u /\ trimmedTo ce u.


(** ** Data model of the rule *)

(** A JavaScript number that may be [NaN]: the caret position is the one
    value the parser computes from array entries that can be [undefined]. *)
Inductive number : Type :=
| Num (z : Z)
| NaN.

Definition number_eqb (a : number) (z : Z) : bool :=
  match a with
  | Num x => Z.eqb x z
  | NaN => false
  end.

Record TwoSlashAssertion : Type := mkTwoSlashAssertion {
  (** Position in the source file that the twoslash assertion points at *)
  position : number;
  (** The expected type in the twoslash comment *)
  expected : jsstring;
  (** Range of positions corresponding to the "expected" string *)
  expectedRange : Z * Z;
  (** Text before the "^?" *)
  expectedPrefix : jsstring;
  (** Does a space need to be added after "^?" when fixing? *)
  insertSpace : bool
}.

Inductive Assertion : Type :=
| twoslash (a : TwoSlashAssertion)
| manual (expected : jsstring)
| snapshot (expected : option jsstring) (snapshotName : jsstring).

(** [assertion.expected], [None] for [undefined]. *)
Definition assertionExpected (a : Assertion) : option jsstring :=
  match a with
  | twoslash t => Some (expected t)
  | manual e => Some e
  | snapshot e _ => e
  end.

Inductive SyntaxErrorType : Type :=
| MissingSnapshotName
| MissingExpectType
| InvalidTwoslash.

Record SyntaxError : Type := mkSyntaxError {
  type : SyntaxErrorType;
  line : Z
}.

(** *** [Map<number, V>] and [Set<number>], in insertion order *)

Definition Map (V : Type) : Type := list (nat * V).

Definition map_get {V : Type} (k : nat) (m : Map V) : option V :=
  match find (fun kv => Nat.eqb (fst kv) k) m with
  | Some kv => Some (snd kv)
  | None => None
  end.

Definition map_has {V : Type} (k : nat) (m : Map V) : bool :=
  existsb (fun kv => Nat.eqb (fst kv) k) m.

Definition map_remove {V : Type} (k : nat) (m : Map V) : Map V :=
  filter (fun kv => negb (Nat.eqb (fst kv) k)) m.

(** [m.delete(k)]: whether the key was present, and the map without it. *)
Definition map_delete {V : Type} (k : nat) (m : Map V) : bool * Map V :=
  (map_has k m, map_remove k m).

Fixpoint map_replace {V : Type} (k : nat) (v : V) (m : Map V) : Map V :=
  match m with
  | [] => []
  | (k', v') :: m' =>
    if Nat.eqb k' k then (k, v) :: m' else (k', v') :: map_replace k v m'
  end.

(** [m.set(k, v)]: a present key keeps its place, a new one goes last. *)
Definition map_set {V : Type} (k : nat) (v : V) (m : Map V) : Map V :=
  if map_has k m then map_replace k v m else m ++ [(k, v)].

Definition map_keys {V : Type} (m : Map V) : list nat := map fst m.

Definition set_has (k : nat) (s : list nat) : bool := existsb (Nat.eqb k) s.

Definition set_add (k : nat) (s : list nat) : list nat :=
  if set_has k s then s else s ++ [k].

Record Assertions : Type := mkAssertions {
  (** Lines with an $ExpectError. *)
  errorLines : list nat;
  (** Map from a line number to the expected type at that line. *)
  typeAssertions : Map Assertion;
  (** Lines with more than one assertion (these are errors). *)
  duplicates : list nat;
  (** Twoslash-style type assertions in the file *)
  twoSlashAssertions : list TwoSlashAssertion;
  (** Syntax Errors *)
  syntaxErrors : list SyntaxError
}.

(** ** Scanning comments *)

(** The successive matches of the global [commentRegexp] (two slashes, then
    a captured run of [.]) on the text: the offset of each match and its
    capture.  [idx] is the offset of the head of [s]; [skip]
    counts the characters of the current match that are still to be passed
    over before the regular expression resumes at its [lastIndex]. *)
Fixpoint scanComments (idx skip : nat) (s : jsstring) : list (nat * jsstring) :=
  match s with
  | [] => []
  | c :: rest =>
    match skip with
    | S k => scanComments (S idx) k rest
    | 0 =>
      if startsWith (c :: rest) (lit "//")
      then let comment := dotStar (skipn 1 rest) in
           (idx, comment) :: scanComments (S idx) (S (length comment)) rest
      else scanComments (S idx) 0 rest
    end
  end.

Definition isFirstOnLine (text : jsstring) (lineStart pos : nat) : bool :=
  forallb (fun i => isChar (charAt text i) SP) (seq lineStart (pos - lineStart)).

(** [while (lineStarts[curLine + 1] <= pos) curLine++]: the comparison is
    false once the entry is [undefined], so the loop makes fewer rounds
    than the table has entries. *)
Fixpoint advanceLine (fuel : nat) (lineStarts : list nat) (pos curLine : nat) : nat :=
  match fuel with
  | 0 => curLine
  | S fuel' =>
    match nth_error lineStarts (curLine + 1) with
    | Some start =>
      if start <=? pos then advanceLine fuel' lineStarts pos (curLine + 1) else curLine
    | None => curLine
    end
  end.

(** [getLine(pos)]: the attributed line and the new value of the shared
    [curLine].  With [lineStarts[curLine]] [undefined] the loop of
    [isFirstOnLine] does not run and it answers [true]. *)
Definition getLine (text : jsstring) (lineStarts : list nat) (curLine pos : nat)
  : nat * nat :=
  let curLine := advanceLine (length lineStarts) lineStarts pos curLine in
  let first := match nth_error lineStarts curLine with
               | Some lineStart => isFirstOnLine text lineStart pos
               | None => true
               end in
  (if first then curLine + 1 else curLine, curLine).

(** ** Recognising directives *)

Inductive Directive : Type :=
| TypeSnapshot
| Type_
| Error_.

Definition directiveWord (d : Directive) : jsstring :=
  match d with
  | TypeSnapshot => lit "TypeSnapshot"
  | Type_ => lit "Type"
  | Error_ => lit "Error"
  end.

(** What follows the keyword, up to the end [$]: nothing, or a space and a
    captured run of [.] (a payload free of line terminators). *)
Definition matchPayload (rest : jsstring) : option (option jsstring) :=
  match rest with
  | [] => Some None
  | c :: payload =>
    if Ascii.eqb c SP && forallb (fun x => negb (isLineTerminator x)) payload
    then Some (Some payload)
    else None
  end.

Fixpoint matchKeyword (ds : list Directive) (rest : jsstring)
  : option (Directive * option jsstring) :=
  match ds with
  | [] => None
  | d :: ds' =>
    if startsWith rest (directiveWord d)
    then match matchPayload (skipn (length (directiveWord d)) rest) with
         | Some payload => Some (d, payload)
         | None => matchKeyword ds' rest
         end
    else matchKeyword ds' rest
  end.

(** The regular expression [matchExpect] of [parseAssertions] run on a
    comment: an optional space, [$Expect], one of the three keywords tried
    in the order TypeSnapshot, Type, Error, and the optional payload.  The
    result is the directive (group 1) and the payload (group 3). *)
Definition matchExpect (comment : jsstring) : option (Directive * option jsstring) :=
  let body := match comment with
              | c :: r => if Ascii.eqb c SP then r else comment
              | [] => comment
              end in
  if startsWith body (lit "$Expect")
  then matchKeyword [TypeSnapshot; Type_; Error_] (skipn 7 body)
  else None.

(** A payload is used only when it is truthy: present and not empty. *)
Definition truthy (payload : option jsstring) : option jsstring :=
  match payload with
  | Some (c :: p) => Some (c :: p)
  | _ => None
  end.

(** The [switch (directive)] of [parseAssertions]. *)
Definition applyDirective (a : Assertions) (line : nat) (directive : Directive)
           (payload : option jsstring) : Assertions :=
  match directive with
  | TypeSnapshot =>
    match truthy payload with
    | Some snapshotName =>
      let (deleted, m) := map_delete line (typeAssertions a) in
      if deleted
      then mkAssertions (errorLines a) m (duplicates a ++ [line])
                        (twoSlashAssertions a) (syntaxErrors a)
      else mkAssertions (errorLines a) (map_set line (snapshot None snapshotName) m)
                        (duplicates a) (twoSlashAssertions a) (syntaxErrors a)
    | None =>
      mkAssertions (errorLines a) (typeAssertions a) (duplicates a)
                   (twoSlashAssertions a)
                   (syntaxErrors a ++ [mkSyntaxError MissingSnapshotName (Z.of_nat line)])
    end
  | Error_ =>
    let dups := if set_has line (errorLines a)
                then duplicates a ++ [line] else duplicates a in
    mkAssertions (set_add line (errorLines a)) (typeAssertions a) dups
                 (twoSlashAssertions a) (syntaxErrors a)
  | Type_ =>
    match truthy payload with
    | Some expected =>
      let (deleted, m) := map_delete line (typeAssertions a) in
      if deleted
      then mkAssertions (errorLines a) m (duplicates a ++ [line])
                        (twoSlashAssertions a) (syntaxErrors a)
      else mkAssertions (errorLines a) (map_set line (manual expected) m)
                        (duplicates a) (twoSlashAssertions a) (syntaxErrors a)
    | None =>
      mkAssertions (errorLines a) (typeAssertions a) (duplicates a)
                   (twoSlashAssertions a)
                   (syntaxErrors a ++ [mkSyntaxError MissingExpectType (Z.of_nat line)])
    end
  end.

(** ** Caret (twoslash) assertions *)

(** The leading run of spaces, group 1 of the twoslash expression. *)
Fixpoint leadingSpaces (s : jsstring) : jsstring :=
  match s with
  | [] => []
  | c :: s' => if Ascii.eqb c SP then c :: leadingSpaces s' else []
  end.

(** The twoslash expression of [parseTwoslashAssertion] run on a comment:
    spaces, a caret and a question mark, then a run of [.] up to the end.
    The result is the white space (group 1) and the raw payload (group 2). *)
Definition matchTwoslash (comment : jsstring) : option (jsstring * jsstring) :=
  let whitespace := leadingSpaces comment in
  let rest := skipn (length whitespace) comment in
  if startsWith rest (lit "^?")
     && forallb (fun x => negb (isLineTerminator x)) (skipn 2 rest)
  then Some (whitespace, skipn 2 rest)
  else None.

(** [lineStarts[i]] where [i] may be negative or past the end. *)
Definition lineStartAt (lineStarts : list nat) (i : Z) : option nat :=
  if (i <? 0)%Z then None else nth_error lineStarts (Z.to_nat i).

(** [thisLineEnd] of the look-ahead loop. *)
Definition lineEnd (sourceText : jsstring) (lineStarts : list nat) (nextLine : nat) : Z :=
  if nextLine + 1 <? length lineStarts
  then let next := nth (nextLine + 1) lineStarts 0 in (Z.of_nat next - 1)%Z
  else Z.of_nat (length sourceText).

(** [lineText] of the look-ahead loop. *)
Definition lineTextAt (sourceText : jsstring) (lineStarts : list nat) (nextLine : nat)
  : jsstring :=
  slice sourceText (nth nextLine lineStarts 0)
        (Z.to_nat (lineEnd sourceText lineStarts nextLine + 1)%Z).

(** The look-ahead [for] loop over the lines [nextLine], from [commentLine]
    to the end of the table, leaving at the first line that does not start
    with the prefix.  The state is [expected] and [expectedRange[1]]. *)
Fixpoint continuation (sourceText : jsstring) (lineStarts : list nat)
         (commentLine : nat) (expectedPrefix : jsstring)
         (lines : list nat) (st : jsstring * Z) : jsstring * Z :=
  match lines with
  | [] => st
  | nextLine :: lines' =>
    let thisLineEnd := lineEnd sourceText lineStarts nextLine in
    let lineText := lineTextAt sourceText lineStarts nextLine in
    if startsWith lineText expectedPrefix
    then
      let expected := fst st in
      let expected := if nextLine =? commentLine then expected ++ [LF] else expected in
      let expected := expected ++ sliceFrom lineText (length expectedPrefix) in
      continuation sourceText lineStarts commentLine expectedPrefix lines'
                   (expected, thisLineEnd)
    else st
  end.

(** [expectedPrefix]: the text of the comment line before the caret, and
    three spaces.  An [undefined] start of the slice counts as 0. *)
Definition continuationPrefix (sourceText : jsstring) (lineStarts : list nat)
           (commentIndex commentLine : nat) (whitespace : jsstring) : jsstring :=
  let prefixStart := match lineStartAt lineStarts (Z.of_nat commentLine - 1)%Z with
                     | Some a => a
                     | None => 0
                     end in
  slice sourceText prefixStart (commentIndex + 2 + length whitespace) ++ lit "   ".

Definition parseTwoslashAssertion (comment : jsstring) (commentIndex commentLine : nat)
           (sourceText : jsstring) (lineStarts : list nat)
  : option (SyntaxError + TwoSlashAssertion) :=
  match matchTwoslash comment with
  | None => None
  | Some (whitespace, rawPayload) =>
    if negb (length rawPayload =? 0) && negb (isChar (charAt rawPayload 0) SP)
    then Some (inl (mkSyntaxError InvalidTwoslash (Z.of_nat commentLine - 1)%Z))
    else
      let expected := sliceFrom rawPayload 1 in
      if commentLine =? 1
      then Some (inr (mkTwoSlashAssertion (Num (-1)%Z) expected (-1, -1)%Z [] false))
      else
        let caretIndex := commentIndex + length whitespace + 2 in
        let position :=
          match lineStartAt lineStarts (Z.of_nat commentLine - 1)%Z,
                lineStartAt lineStarts (Z.of_nat commentLine - 2)%Z with
          | Some a, Some b => Num (Z.of_nat caretIndex - (Z.of_nat a - Z.of_nat b))%Z
          | _, _ => NaN
          end in
        let range0 := Z.of_nat (commentIndex + length whitespace + 5) in
        let range1 := if commentLine <? length lineStarts
                      then let next := nth commentLine lineStarts 0 in (Z.of_nat next - 1)%Z
                      else Z.of_nat (length sourceText) in
        let expectedPrefix :=
          continuationPrefix sourceText lineStarts commentIndex commentLine whitespace in
        let '(expected, range1) :=
          continuation sourceText lineStarts commentLine expectedPrefix
                       (seq commentLine (length lineStarts - commentLine))
                       (expected, range1) in
        if (range1 <? range0)%Z
        then Some (inr (mkTwoSlashAssertion position expected (range1, range1)
                                            expectedPrefix true))
        else Some (inr (mkTwoSlashAssertion position expected (range0, range1)
                                            expectedPrefix false))
  end.

(** ** [parseAssertions] *)

Record ParseState : Type := mkParseState {
  assertions : Assertions;
  curLine : nat
}.

Definition pushSyntaxError (a : Assertions) (e : SyntaxError) : Assertions :=
  mkAssertions (errorLines a) (typeAssertions a) (duplicates a)
               (twoSlashAssertions a) (syntaxErrors a ++ [e]).

Definition pushTwoSlash (a : Assertions) (t : TwoSlashAssertion) : Assertions :=
  mkAssertions (errorLines a) (typeAssertions a) (duplicates a)
               (twoSlashAssertions a ++ [t]) (syntaxErrors a).

(** One round of the [while (true)] loop, for the match [cm]. *)
Definition processComment (text : jsstring) (lineStarts : list nat)
           (st : ParseState) (cm : nat * jsstring) : ParseState :=
  let '(commentIndex, comment) := cm in
  let '(line, curLine') := getLine text lineStarts (curLine st) commentIndex in
  let a := assertions st in
  let a' :=
    match matchExpect comment with
    | Some (directive, payload) => applyDirective a line directive payload
    | None =>
      (* Maybe it's a twoslash assertion *)
      match parseTwoslashAssertion comment commentIndex line text lineStarts with
      | Some (inl e) => pushSyntaxError a e
      | Some (inr t) => pushTwoSlash a t
      | None => a
      end
    end in
  mkParseState a' curLine'.

Definition emptyAssertions : Assertions := mkAssertions [] [] [] [] [].

Definition parseAssertions (text : jsstring) (lineStarts : list nat) : Assertions :=
  assertions (fold_left (processComment text lineStarts)
                        (scanComments 0 0 text)
                        (mkParseState emptyAssertions 0)).

(** *** The directives of a text, line by line *)

(** The directive comments of the text in scanning order, each with its
    attributed line, its keyword and its payload: the matches for which the
    loop of [parseAssertions] enters the [switch]. *)
Fixpoint directivesFrom (text : jsstring) (lineStarts : list nat) (curLine : nat)
         (cms : list (nat * jsstring)) : list (nat * Directive * option jsstring) :=
  match cms with
  | [] => []
  | (commentIndex, comment) :: cms' =>
    let '(line, curLine') := getLine text lineStarts curLine commentIndex in
    match matchExpect comment with
    | Some (directive, payload) =>
      (line, directive, payload) :: directivesFrom text lineStarts curLine' cms'
    | None => directivesFrom text lineStarts curLine' cms'
    end
  end.

Definition directivesOf (text : jsstring) (lineStarts : list nat)
  : list (nat * Directive * option jsstring) :=
  directivesFrom text lineStarts 0 (scanComments 0 0 text).

(** The [switch] run on a list of directives. *)
Definition runDirectives (a : Assertions) (ds : list (nat * Directive * option jsstring))
  : Assertions :=
  fold_left (fun a d => applyDirective a (fst (fst d)) (snd (fst d)) (snd d)) ds a.

(** A well-formed directive of the type family on line [l]: [$ExpectType]
    or [$ExpectTypeSnapshot] with a payload that is not empty. *)
Definition isTypeOn (l : nat) (d : nat * Directive * option jsstring) : bool :=
  Nat.eqb (fst (fst d)) l
  && match snd (fst d), truthy (snd d) with
     | Error_, _ => false
     | _, Some _ => true
     | _, None => false
     end.

(** An [$ExpectError] directive on line [l]. *)
Definition isErrorOn (l : nat) (d : nat * Directive * option jsstring) : bool :=
  Nat.eqb (fst (fst d)) l
  && match snd (fst d) with
     | Error_ => true
     | _ => false
     end.

Definition countTypeOn (l : nat) (ds : list (nat * Directive * option jsstring)) : nat :=
  length (filter (isTypeOn l) ds).

Definition countErrorOn (l : nat) (ds : list (nat * Directive * option jsstring)) : nat :=
  length (filter (isErrorOn l) ds).

(** The assertion a type directive with the payload [payload] sets. *)
Definition assertionOfDirective (d : Directive) (payload : jsstring) : Assertion :=
  match d with
  | TypeSnapshot => snapshot None payload
  | _ => manual payload
  end.

(** How often [n] successive type directives of one line push the line on
    [duplicates], [present] telling whether the line has an entry before
    the first of them: a directive that finds an entry deletes it and
    pushes the line, one that finds none sets the entry. *)
Fixpoint togglePushes (present : bool) (n : nat) : nat :=
  match n with
  | 0 => 0
  | S n' => (if present then 1 else 0) + togglePushes (negb present) n'
  end.

(** The line table TypeScript hands out as [sourceFile.getLineStarts()]:
    offset 0 and every offset that follows a line feed, a carriage return
    and line feed pair, or a lone carriage return. *)
Fixpoint lineStartsFrom (idx : nat) (s : jsstring) : list nat :=
  match s with
  | [] => []
  | c :: s' =>
    if Ascii.eqb c LF then S idx :: lineStartsFrom (S idx) s'
    else if Ascii.eqb c CR
         then match s' with
              | c' :: _ => if Ascii.eqb c' LF then lineStartsFrom (S idx) s'
                           else S idx :: lineStartsFrom (S idx) s'
              | [] => S idx :: lineStartsFrom (S idx) s'
              end
         else lineStartsFrom (S idx) s'
  end.

Definition computeLineStarts (text : jsstring) : list nat := 0 :: lineStartsFrom 0 text.

(** [parseAssertions(sourceFile)] with the line table of the text itself. *)
Definition parseSourceText (text : jsstring) : Assertions :=
  parseAssertions text (computeLineStarts text).

(** *** Comments and physical lines *)

Definition nonTerminator (c : ascii) : Prop := isLineTerminator c = false.

(** The value of [curLine] after each call of [getLine], in scanning order:
    the physical line of each comment. *)
Fixpoint physicalLines (text : jsstring) (lineStarts : list nat) (curLine : nat)
         (cms : list (nat * jsstring)) : list nat :=
  match cms with
  | [] => []
  | (commentIndex, _) :: cms' =>
    let curLine' := snd (getLine text lineStarts curLine commentIndex) in
    curLine' :: physicalLines text lineStarts curLine' cms'
  end.

(** Between the starts of two successive comments there is a line start. *)
Fixpoint separatedBy (starts : list nat) (cms : list (nat * jsstring)) : Prop :=
  match cms with
  | [] => True
  | (i1, _) :: tl =>
    match tl with
    | [] => True
    | (i2, _) :: _ => (exists x, In x starts /\ i1 < x <= i2) /\ separatedBy starts tl
    end
  end.

(** A comment of physical line [r] can be attributed to line [l]. *)
Definition near (l r : nat) : bool := Nat.eqb r l || Nat.eqb (r + 1) l.

(** ** The syntax tree *)

(** The nodes of the TypeScript tree, as far as the rule tells them apart.
    [start] and [end_] are what [getStart()] and [getEnd()] return.  The
    induction principle that reaches the nested children is [Node_rect']
    below. *)
#[local] Unset Elimination Schemes.
Inductive Node : Type :=
| ExpressionStatement (start end_ : Z) (expression : Node)
| VariableStatement (start end_ : Z) (modifiers : list Node) (declarationList : Node)
| VariableDeclarationList (start end_ : Z) (declarations : list Node)
| VariableDeclaration (start end_ : Z) (name : Node) (type_ : option Node)
                      (initializer : option Node)
| OtherNode (kind : nat) (start end_ : Z) (children : list Node).
#[local] Set Elimination Schemes.

Definition getStart (n : Node) : Z :=
  match n with
  | ExpressionStatement s _ _ => s
  | VariableStatement s _ _ _ => s
  | VariableDeclarationList s _ _ => s
  | VariableDeclaration s _ _ _ _ => s
  | OtherNode _ s _ _ => s
  end.

Definition getEnd (n : Node) : Z :=
  match n with
  | ExpressionStatement _ e _ => e
  | VariableStatement _ e _ _ => e
  | VariableDeclarationList _ e _ => e
  | VariableDeclaration _ e _ _ _ => e
  | OtherNode _ _ e _ => e
  end.

(** Induction on a node with the hypothesis for every child. *)
Fixpoint Node_rect' (P : Node -> Prop)
         (HE : forall s e x, P x -> P (ExpressionStatement s e x))
         (HS : forall s e mods dl, Forall P mods -> P dl -> P (VariableStatement s e mods dl))
         (HL : forall s e ds, Forall P ds -> P (VariableDeclarationList s e ds))
         (HD : forall s e nm ty init,
             P nm -> (forall x, ty = Some x -> P x) -> (forall x, init = Some x -> P x) ->
             P (VariableDeclaration s e nm ty init))
         (HO : forall k s e cs, Forall P cs -> P (OtherNode k s e cs))
         (n : Node) {struct n} : P n :=
  let rec := Node_rect' P HE HS HL HD HO in
  let all := fix all (l : list Node) : Forall P l :=
               match l with
               | [] => Forall_nil P
               | c :: l' => Forall_cons c (rec c) (all l')
               end in
  let opt := fun (o : option Node) =>
               match o return forall x, o = Some x -> P x with
               | Some c => fun x (H : Some c = Some x) =>
                             match H in (_ = y) return match y with Some z => P z | None => True end with
                             | eq_refl => rec c
                             end
               | None => fun x (H : None = Some x) =>
                           match H in (_ = y) return match y with Some z => P z | None => True end with
                           | eq_refl => I
                           end
               end in
  match n with
  | ExpressionStatement s e x => HE s e x (rec x)
  | VariableStatement s e mods dl => HS s e mods dl (all mods) (rec dl)
  | VariableDeclarationList s e ds => HL s e ds (all ds)
  | VariableDeclaration s e nm ty init => HD s e nm ty init (rec nm) (opt ty) (opt init)
  | OtherNode k s e cs => HO k s e cs (all cs)
  end.

Definition optNode (o : option Node) : list Node :=
  match o with
  | Some n => [n]
  | None => []
  end.

(** The children [ts.forEachChild] passes to its callback, in order. *)
Definition childrenOf (n : Node) : list Node :=
  match n with
  | ExpressionStatement _ _ e => [e]
  | VariableStatement _ _ mods dl => mods ++ [dl]
  | VariableDeclarationList _ _ ds => ds
  | VariableDeclaration _ _ nm ty init => nm :: optNode ty ++ optNode init
  | OtherNode _ _ _ cs => cs
  end.

Definition isVariableStatement (n : Node) : bool :=
  match n with
  | VariableStatement _ _ _ _ => true
  | _ => false
  end.

Definition getNodeForExpectType (node : Node) : Node :=
  match node with
  | VariableStatement _ _ _ (VariableDeclarationList _ _ [VariableDeclaration _ _ _ _ (Some initializer)]) =>
    initializer
  | _ => node
  end.

(** [if (node.kind === ts.SyntaxKind.ExpressionStatement) node = node.expression] *)
Definition unwrapExpressionStatement (node : Node) : Node :=
  match node with
  | ExpressionStatement _ _ expression => expression
  | _ => node
  end.

(** [position >= start && position <= end]; every comparison with [NaN]
    is false. *)
Definition positionWithin (position : number) (node : Node) : bool :=
  match position with
  | Num p => (getStart node <=? p)%Z && (p <=? getEnd node)%Z
  | NaN => false
  end.

(** The callback of [getNodeAtPosition], with [candidate] as state. *)
Fixpoint nodeAtPositionIter (position : number) (node : Node) (candidate : option Node)
  {struct node} : option Node :=
  let each := fix each (l : list Node) (candidate : option Node) : option Node :=
                match l with
                | [] => candidate
                | c :: l' => each l' (nodeAtPositionIter position c candidate)
                end in
  let eachOpt := fun (o : option Node) (candidate : option Node) =>
                   match o with
                   | Some c => nodeAtPositionIter position c candidate
                   | None => candidate
                   end in
  if positionWithin position node
  then
    let candidate := Some node in
    match node with
    | ExpressionStatement _ _ e => nodeAtPositionIter position e candidate
    | VariableStatement _ _ mods dl => nodeAtPositionIter position dl (each mods candidate)
    | VariableDeclarationList _ _ ds => each ds candidate
    | VariableDeclaration _ _ nm ty init =>
      eachOpt init (eachOpt ty (nodeAtPositionIter position nm candidate))
    | OtherNode _ _ _ cs => each cs candidate
    end
  else candidate.

Definition getNodeAtPosition (sourceFile : Node) (position : number) : option Node :=
  fold_left (fun candidate c => nodeAtPositionIter position c candidate)
            (childrenOf sourceFile) None.

(** ** Reconciliation: [getExpectTypeFailures] *)

Record UnmetExpectation : Type := mkUnmet {
  assertion : Assertion;
  node : Node;
  actual : jsstring
}.

(** What the pass does, in the order in which it happens: a run of the
    callback [iterate] on a node; the comparison made for the assertion of
    a line, with the node handed to [checker.getTypeAtLocation] and the
    record that is pushed when the comparison fails; a node lookup and a
    quick-info query for a twoslash assertion. *)
Inductive Event : Type :=
| Visit (node : Node)
| Compare (line : nat) (nodeToCheck : Node) (candidate : UnmetExpectation)
| NodeAtPosition (position : number)
| QuickInfoAtPosition (start : Z).

Record Pass : Type := mkPass {
  pending : Map Assertion;
  unmetExpectations : list UnmetExpectation;
  trace : list Event
}.

(** [!expected || (actual !== expected && !matchReadonlyArray(actual, expected))] *)
Definition typeMismatch (expected : option jsstring) (actual : jsstring) : bool :=
  match truthy expected with
  | None => true
  | Some e => negb (jseq actual e) && negb (matchReadonlyArray actual e)
  end.

Section Reconciliation.

(** [sourceFile.getLineAndCharacterOfPosition(pos).line] *)
Variable lineOfPosition : number -> nat.

(** The text [checker.typeToString] gives for the type at a node, the
    empty string where the checker has no type. *)
Variable typeToString : Node -> jsstring.

(** The texts of the display parts of the quick info at an offset, [None]
    where there is no quick info or it has no display parts. *)
Variable quickInfo : Z -> option (list jsstring).

(** The body of [iterate] for a node whose line has the pending assertion
    [a], up to the deletion of the entry. *)
Definition bindAssertion (line : nat) (a : Assertion) (node : Node) (st : Pass)
  : Pass :=
  let node := unwrapExpressionStatement node in
  let nodeToCheck := getNodeForExpectType node in
  let actual := typeToString nodeToCheck in
  let candidate := mkUnmet a node actual in
  let unmet := if typeMismatch (assertionExpected a) actual
               then unmetExpectations st ++ [candidate]
               else unmetExpectations st in
  mkPass (snd (map_delete line (pending st))) unmet
         (trace st ++ [Compare line nodeToCheck candidate]).

(** The callback [iterate] of the depth-first traversal. *)
Fixpoint iterate (node : Node) (st : Pass) {struct node} : Pass :=
  let each := fix each (l : list Node) (st : Pass) : Pass :=
                match l with
                | [] => st
                | c :: l' => each l' (iterate c st)
                end in
  let eachOpt := fun (o : option Node) (st : Pass) =>
                   match o with
                   | Some c => iterate c st
                   | None => st
                   end in
  let forEachChild := fun (n : Node) (st : Pass) =>
    match n with
    | ExpressionStatement _ _ e => iterate e st
    | VariableStatement _ _ mods dl => iterate dl (each mods st)
    | VariableDeclarationList _ _ ds => each ds st
    | VariableDeclaration _ _ nm ty init => eachOpt init (eachOpt ty (iterate nm st))
    | OtherNode _ _ _ cs => each cs st
    end in
  let st := mkPass (pending st) (unmetExpectations st) (trace st ++ [Visit node]) in
  let line := lineOfPosition (Num (getStart node)) in
  match map_get line (pending st) with
  | Some a =>
    forEachChild (unwrapExpressionStatement node) (bindAssertion line a node st)
  | None => forEachChild node st
  end.

Definition forEachChild (node : Node) (st : Pass) : Pass :=
  fold_left (fun st c => iterate c st) (childrenOf node) st.

(** [sourceFile.getLineAndCharacterOfPosition(position).line] for a position
    the rule has computed.  TypeScript asserts there that the position does
    not precede the beginning of the file; the assertion fails, and the call
    throws, for [NaN] and for a negative number.  [None] is that exception;
    [lineOfPosition] is the line where there is one. *)
Definition lineAndCharacterOfPosition (position : number) : option nat :=
  match position with
  | Num z => if (z <? 0)%Z then None else Some (lineOfPosition position)
  | NaN => None
  end.

(** One round of the loop over the twoslash assertions; the state is the
    failure lines, the unmet expectations and the trace.  [None] is an
    exception thrown in the round. *)
Definition checkTwoSlash (sourceFile : Node)
           (st : list nat * list UnmetExpectation * list Event)
           (a : TwoSlashAssertion)
  : option (list nat * list UnmetExpectation * list Event) :=
  let '(twoSlashFailureLines, unmet, tr) := st in
  if number_eqb (position a) (-1)
  then Some (twoSlashFailureLines ++ [0], unmet, tr)
  else
    let tr := tr ++ [NodeAtPosition (position a)] in
    match getNodeAtPosition sourceFile (position a) with
    | None =>
      match lineAndCharacterOfPosition (position a) with
      | Some line => Some (twoSlashFailureLines ++ [line], unmet, tr)
      | None => None
      end
    | Some node =>
      let tr := tr ++ [QuickInfoAtPosition (getStart node)] in
      match quickInfo (getStart node) with
      | None =>
        match lineAndCharacterOfPosition (position a) with
        | Some line => Some (twoSlashFailureLines ++ [line], unmet, tr)
        | None => None
        end
      | Some displayParts =>
        let actual := concat displayParts in
        if negb (matchModuloWhitespace actual (expected a))
        then Some (twoSlashFailureLines, unmet ++ [mkUnmet (twoslash a) node actual], tr)
        else Some (twoSlashFailureLines, unmet, tr)
      end
    end.

(** The loop over the twoslash assertions: an exception ends it, and the
    rounds that are left are not made. *)
Fixpoint checkTwoSlashes (sourceFile : Node) (assertions : list TwoSlashAssertion)
         (st : list nat * list UnmetExpectation * list Event)
  : option (list nat * list UnmetExpectation * list Event) :=
  match assertions with
  | [] => Some st
  | a :: rest =>
    match checkTwoSlash sourceFile st a with
    | Some st' => checkTwoSlashes sourceFile rest st'
    | None => None
    end
  end.

Record ExpectTypeFailures : Type := mkFailures {
  (** Lines with an $ExpectType, but a different type was there. *)
  failuresUnmet : list UnmetExpectation;
  (** Lines with an $ExpectType, but no node could be found. *)
  unusedAssertions : list nat;
  (** The calls made on the way. *)
  failuresTrace : list Event
}.

(** [getExpectTypeFailures]; [None] is an exception thrown in the loop over
    the twoslash assertions. *)
Definition getExpectTypeFailures (sourceFile : Node)
           (typeAssertions : Map Assertion)
           (twoSlashAssertions : list TwoSlashAssertion) : option ExpectTypeFailures :=
  let st := forEachChild sourceFile (mkPass typeAssertions [] []) in
  match checkTwoSlashes sourceFile twoSlashAssertions
                        ([], unmetExpectations st, trace st) with
  | Some (twoSlashFailureLines, unmet, tr) =>
    Some (mkFailures unmet (twoSlashFailureLines ++ map_keys (pending st)) tr)
  | None => None
  end.

End Reconciliation.

(** *** Reading a trace *)

(** The nodes the callback was run on, in order. *)
Definition visitsOf (tr : list Event) : list Node :=
  flat_map (fun e => match e with
                     | Visit n => [n]
                     | _ => []
                     end) tr.

(** The comparisons made for the assertion of line [l]. *)
Definition comparesFor (l : nat) (tr : list Event) : list Event :=
  filter (fun e => match e with
                   | Compare l' _ _ => Nat.eqb l' l
                   | _ => false
                   end) tr.

(** The binding rule in the words of the specification: the nodes are
    taken in the order of the visit; the first one whose start line has a
    pending assertion is compared with it, and the assertion leaves the
    pending map.  [specTrace], [specPending] and [specUnmet] give the
    trace, the pending map and the unmet expectations this rule produces
    for the visited nodes [vs]. *)
Section BindingRule.

Variable lineOfPosition : number -> nat.
Variable typeToString : Node -> jsstring.

Definition lineOfNode (n : Node) : nat := lineOfPosition (Num (getStart n)).

Definition candidateFor (a : Assertion) (n : Node) : UnmetExpectation :=
  let bound := unwrapExpressionStatement n in
  mkUnmet a bound (typeToString (getNodeForExpectType bound)).

Fixpoint specTrace (m : Map Assertion) (vs : list Node) : list Event :=
  match vs with
  | [] => []
  | n :: vs' =>
    match map_get (lineOfNode n) m with
    | Some a =>
      Visit n
      :: Compare (lineOfNode n) (getNodeForExpectType (unwrapExpressionStatement n))
                 (candidateFor a n)
      :: specTrace (map_remove (lineOfNode n) m) vs'
    | None => Visit n :: specTrace m vs'
    end
  end.

Fixpoint specPending (m : Map Assertion) (vs : list Node) : Map Assertion :=
  match vs with
  | [] => m
  | n :: vs' => specPending (map_remove (lineOfNode n) m) vs'
  end.

Fixpoint specUnmet (m : Map Assertion) (vs : list Node) : list UnmetExpectation :=
  match vs with
  | [] => []
  | n :: vs' =>
    match map_get (lineOfNode n) m with
    | Some a =>
      (if typeMismatch (assertionExpected a) (actual (candidateFor a n))
       then [candidateFor a n] else [])
      ++ specUnmet (map_remove (lineOfNode n) m) vs'
    | None => specUnmet m vs'
    end
  end.

(** A step of the pass that does what the rule says for some list of
    visited nodes. *)
Definition followsRule (f : Pass -> Pass) : Prop :=
  forall st, exists vs,
      trace (f st) = trace st ++ specTrace (pending st) vs
      /\ pending (f st) = specPending (pending st) vs
      /\ unmetExpectations (f st) = unmetExpectations st ++ specUnmet (pending st) vs.

End BindingRule.

(** ** The snapshot store and the fix of a snapshot report *)

(** Modelled from the spec: the snapshot store behind [getTypeSnapshot] and
    [updateTypeSnapshot] of [src/utils/snapshot], which is not part of the
    sources at hand.  The spec gives it as [read(fileName, name)] and
    [write(fileName, name, text)] on keys [(fileName, snapshotName)]; the
    store is kept as the log of its writes, the latest write of a key being
    its value. *)
Definition SnapshotStore : Type := list (jsstring * jsstring * jsstring).

Definition updateTypeSnapshot (fileName snapshotName actual : jsstring)
           (store : SnapshotStore) : SnapshotStore :=
  store ++ [(fileName, snapshotName, actual)].

Definition getTypeSnapshot (fileName snapshotName : jsstring) (store : SnapshotStore)
  : option jsstring :=
  match find (fun w => jseq (fst (fst w)) fileName && jseq (snd (fst w)) snapshotName)
             (rev store) with
  | Some w => Some (snd w)
  | None => None
  end.

Record Options : Type := mkOptions {
  disableExpectTypeSnapshotFix : bool
}.

Definition defaultOptions : Options := mkOptions false.

(** The object a call of the [fix] closure of a snapshot report returns:
    its [range], the [applied] flag its getter closes over, and the
    captured [snapshotName] and [actual]. *)
Record SnapshotFix : Type := mkSnapshotFix {
  fixRange : Z * Z;
  applied : bool;
  fixSnapshotName : jsstring;
  fixActual : jsstring
}.

(** A call of [fix]. *)
Definition snapshotFix (start : Z) (snapshotName actual : jsstring) : SnapshotFix :=
  mkSnapshotFix (start, start) false snapshotName actual.

(** A read of the [text] property: the text read, the object and the store
    afterwards. *)
Definition getText (fileName : jsstring) (options : Options) (fx : SnapshotFix)
           (store : SnapshotStore) : jsstring * SnapshotFix * SnapshotStore :=
  if negb (applied fx)
  then
    (* Make sure we update snapshot only on first read of this object *)
    let fx' := mkSnapshotFix (fixRange fx) true (fixSnapshotName fx) (fixActual fx) in
    if negb (disableExpectTypeSnapshotFix options)
    then ([], fx', updateTypeSnapshot fileName (fixSnapshotName fx) (fixActual fx) store)
    else ([], fx', store)
  else ([], fx, store).

(** [n] reads of [text] in a row: the texts read, the object and the store
    at the end. *)
Fixpoint readTexts (n : nat) (fileName : jsstring) (options : Options)
         (fx : SnapshotFix) (store : SnapshotStore)
  : list jsstring * SnapshotFix * SnapshotStore :=
  match n with
  | 0 => ([], fx, store)
  | S n' =>
    let '(text, fx', store') := getText fileName options fx store in
    let '(texts, fx'', store'') := readTexts n' fileName options fx' store' in
    (text :: texts, fx'', store'')
  end.

(** What a fix does to the source text: the range is replaced by the text. *)
Definition applyFix (source : jsstring) (range : Z * Z) (text : jsstring) : jsstring :=
  firstn (Z.to_nat (fst range)) source ++ text ++ skipn (Z.to_nat (snd range)) source.

(** The replacement text of the fix of a twoslash report: the lines of
    [actual] after the first get the prefix. *)
Definition twoslashFixText (a : TwoSlashAssertion) (actual : jsstring) : jsstring :=
  (if insertSpace a then [SP] else [])
  ++ flat_map (fun c => if Ascii.eqb c LF then c :: expectedPrefix a else [c]) actual.

(** ** [validate] *)

Inductive MessageId : Type :=
| FileIsNotIncludedInTsconfig
| TypesDoNotMatch
| OrphanAssertion
| Multiple_ExpectTypeAssertions
| ExpectedErrorNotFound
| TypeSnapshotNotFound
| TypeSnapshotDoNotMatch
| SyntaxErrorMessage.

Inductive Loc : Type :=
| LineColumn (line column : Z)
| NodeLoc (node : Node).

(** The fix a report carries: the arguments of a later [snapshotFix] call,
    or the range and text of a twoslash fix. *)
Inductive Fix : Type :=
| SnapshotFixOf (start : Z) (snapshotName actual : jsstring)
| TwoslashFixOf (range : Z * Z) (text : jsstring).

Record Report : Type := mkReport {
  messageId : MessageId;
  loc : Loc;
  dataExpected : option jsstring;
  dataActual : option jsstring;
  syntaxKind : option SyntaxErrorType;
  fix_ : option Fix
}.

Definition lineReport (m : MessageId) (line : Z) : Report :=
  mkReport m (LineColumn (line + 1) 0) None None None None.

(** What a run of [validate] leaves behind: the reports made through
    [context.report], in the order of the calls, and whether the run
    returned or ended with an exception. *)
Inductive Outcome : Type :=
| Returned (reports : list Report)
| Thrown (reports : list Report).

Definition reportsMade (o : Outcome) : list Report :=
  match o with
  | Returned reports => reports
  | Thrown reports => reports
  end.

(** The report of one unmet expectation. *)
Definition reportUnmet (u : UnmetExpectation) : Report :=
  let expected := assertionExpected (assertion u) in
  match assertion u with
  | snapshot e snapshotName =>
    mkReport (match e with
              | None => TypeSnapshotNotFound
              | Some _ => TypeSnapshotDoNotMatch
              end)
             (NodeLoc (node u)) expected (Some (actual u)) None
             (Some (SnapshotFixOf (getStart (node u)) snapshotName (actual u)))
  | twoslash t =>
    mkReport TypesDoNotMatch (NodeLoc (node u)) expected (Some (actual u)) None
             (Some (TwoslashFixOf (expectedRange t) (twoslashFixText t (actual u))))
  | manual _ =>
    mkReport TypesDoNotMatch (NodeLoc (node u)) expected (Some (actual u)) None None
  end.

(** The first test of [validate] on the text: it holds one of
    [$ExpectType], [$ExpectError] and the caret marker. *)
Definition mentionsDirective (text : jsstring) : bool :=
  includes text (lit "$ExpectType") || includes text (lit "$ExpectError")
  || includes text (lit "^?").

(** [assertion.expected = getTypeSnapshot(fileName, assertion.snapshotName)]
    for the snapshot assertions of the map. *)
Definition loadSnapshots (fileName : jsstring) (store : SnapshotStore)
           (m : Map Assertion) : Map Assertion :=
  map (fun kv => match snd kv with
                 | snapshot _ snapshotName =>
                   (fst kv, snapshot (getTypeSnapshot fileName snapshotName store) snapshotName)
                 | _ => kv
                 end) m.

Record SourceFile : Type := mkSourceFile {
  text : jsstring;
  lineStarts : list nat;
  root : Node
}.

(** [xs.filter(guard).map(f)] for a type guard given as a partial
    projection. *)
Definition filterMap {A B : Type} (guard : A -> option B) (xs : list A) : list B :=
  flat_map (fun x => match guard x with
                     | Some y => [y]
                     | None => []
                     end) xs.

Section Validate.

Variable lineOfPosition : number -> nat.
Variable typeToString : Node -> jsstring.
Variable quickInfo : Z -> option (list jsstring).

(** The diagnostics of [ts.getPreEmitDiagnostics]. *)
Variable Diagnostic : Type.

(** [isDiagnosticWithStart], imported from [src/utils/diagnostics], is taken
    as a parameter.  It is a type guard: a diagnostic it lets through has a
    [start] that is a number.  It is given here as that start, and [None]
    for a diagnostic it filters out. *)
Variable isDiagnosticWithStart : Diagnostic -> option Z.

(** The reports made once the assertions are parsed.  The reports of the
    duplicates, of the missing errors and of the syntax errors are made
    before [getExpectTypeFailures] is called: they are what is left when
    that call throws. *)
Definition reportAssertions (fileName : jsstring) (sourceFile : SourceFile)
           (diagnostics : list Diagnostic) (store : SnapshotStore) (a : Assertions)
  : Outcome :=
  let seenDiagnosticsOnLine :=
    map (fun start => lineOfPosition (Num start))
        (filterMap isDiagnosticWithStart diagnostics) in
  let typeAssertions := loadSnapshots fileName store (typeAssertions a) in
  match getExpectTypeFailures lineOfPosition typeToString quickInfo
                              (root sourceFile) typeAssertions (twoSlashAssertions a) with
  | None =>
    Thrown (map (fun line => lineReport Multiple_ExpectTypeAssertions (Z.of_nat line))
                (duplicates a)
            ++ map (fun line => lineReport ExpectedErrorNotFound (Z.of_nat line))
                   (filter (fun line => negb (set_has line seenDiagnosticsOnLine))
                           (errorLines a))
            ++ map (fun e => mkReport SyntaxErrorMessage (LineColumn (line e + 1) 0)
                                      None None (Some (type e)) None)
                   (syntaxErrors a))
  | Some failures =>
    Returned (map (fun line => lineReport Multiple_ExpectTypeAssertions (Z.of_nat line))
                  (duplicates a)
              ++ map (fun line => lineReport ExpectedErrorNotFound (Z.of_nat line))
                     (filter (fun line => negb (set_has line seenDiagnosticsOnLine))
                             (errorLines a))
              ++ map (fun e => mkReport SyntaxErrorMessage (LineColumn (line e + 1) 0)
                                        None None (Some (type e)) None)
                     (syntaxErrors a)
              ++ map reportUnmet (failuresUnmet failures)
              ++ map (fun line => lineReport OrphanAssertion (Z.of_nat line))
                     (unusedAssertions failures))
  end.

(** [validate]: [sourceFile] is [None] when the program does not know the
    file. *)
Definition validate (fileName : jsstring) (sourceFile : option SourceFile)
           (diagnostics : list Diagnostic) (store : SnapshotStore)
  : Outcome :=
  match sourceFile with
  | None =>
    Returned [mkReport FileIsNotIncludedInTsconfig (LineColumn 1 0) None None None None]
  | Some sf =>
    if negb (mentionsDirective (text sf)) then Returned []
    else reportAssertions fileName sf diagnostics store
                          (parseAssertions (text sf) (lineStarts sf))
  end.

End Validate.

(** ** Sample sources *)

(** A directive comment indented with a tab, above the statement it is
    meant for. *)
Definition tabIndentedSource : jsstring :=
  [TAB] ++ lit "// $ExpectType number" ++ [LF] ++ lit "foo;".

(** The same with two spaces in place of the tab. *)
Definition spaceIndentedSource : jsstring :=
  lit "  // $ExpectType number" ++ [LF] ++ lit "foo;".

(** Stand-ins for the compiler services on a file of twenty-column lines:
    every node has type [number], and the quick info is the same
    two-line text everywhere. *)
Definition sampleLineOfPosition (p : number) : nat :=
  match p with
  | Num z => Z.to_nat (z / 20)
  | NaN => 0
  end.

Definition sampleTypeToString (n : Node) : jsstring := lit "number".

Definition sampleQuickInfo (start : Z) : option (list jsstring) :=
  Some [lit "string |"; [LF]; lit "  number"].

(** The tree of a file whose first line is the statement [foo;]. *)
Definition sampleIdentifier : Node := OtherNode 80 0 3 [].
Definition sampleStatement : Node := ExpressionStatement 0 4 sampleIdentifier.
Definition sampleRoot : Node := OtherNode 312 0 40 [sampleStatement].

Definition sampleCaret : TwoSlashAssertion :=
  mkTwoSlashAssertion (Num 1) (lit "string | number") (27, 42)%Z (lit "//    ") false.

(** An unmet snapshot assertion on [sampleIdentifier], with no snapshot
    stored yet. *)
Definition sampleUnmetSnapshot : UnmetExpectation :=
  mkUnmet (snapshot None (lit "Foo")) sampleIdentifier (lit "number").

(** The tree of a file whose second line is [const x = f(1);], below the
    statement of [sampleRoot]: every node of the declaration starts on
    line 1. *)
Definition sampleInitializer : Node :=
  OtherNode 213 30 34 [OtherNode 80 30 31 []; OtherNode 9 32 33 []].
Definition sampleDeclaration : Node :=
  VariableDeclaration 26 34 (OtherNode 80 26 27 []) None (Some sampleInitializer).
Definition sampleDeclarationList : Node :=
  VariableDeclarationList 20 34 [sampleDeclaration].
Definition sampleVariableStatement : Node :=
  VariableStatement 20 35 [] sampleDeclarationList.
Definition sampleRoot2 : Node :=
  OtherNode 312 0 40 [sampleStatement; sampleVariableStatement].

(** A file that opens with a caret comment. *)
Definition caretFirstSource : jsstring :=
  lit "// ^? number" ++ [LF] ++ lit "foo;".

(** Two [$ExpectError] comments for the statement of line 1, one above it
    and one behind it. *)
Definition twoErrorsSource : jsstring :=
  lit "// $ExpectError" ++ [LF] ++ lit "foo; // $ExpectError".

(** An [$ExpectType] above and an [$ExpectTypeSnapshot] behind the
    statement of line 1. *)
Definition twoTypesSource : jsstring :=
  lit "// $ExpectType A" ++ [LF] ++ lit "foo; // $ExpectTypeSnapshot B".

(** An [$ExpectType] above and an [$ExpectError] behind the statement of
    line 1. *)
Definition typeAndErrorSource : jsstring :=
  lit "// $ExpectType A" ++ [LF] ++ lit "foo; // $ExpectError".

(** A caret comment behind the statement of the first line, and one behind
    the statement of the second line. *)
Definition caretBehindCodeSource : jsstring :=
  lit "foo; // ^? a" ++ [LF] ++ lit "bar; // ^? b".

(** A caret comment behind the statement of the first line, and below it a
    directive with no statement under it. *)
Definition caretAndOrphanSource : jsstring :=
  lit "foo; // ^? a" ++ [LF] ++ lit "// $ExpectType number".

(** The tree and the lines of [caretAndOrphanSource], a text of 34
    characters whose second line starts at 13: the statement [foo;] is all
    the source file holds. *)
Definition caretAndOrphanRoot : Node := OtherNode 312 0 34 [sampleStatement].

Definition caretAndOrphanLine (p : number) : nat :=
  match p with
  | Num z => if (z <? 13)%Z then 0 else 1
  | NaN => 0
  end.

(** A caret comment that opens the file, with a line that continues it. *)
Definition continuedFirstCaretSource : jsstring :=
  lit "// ^? number" ++ [LF] ++ lit "//    | string" ++ [LF] ++ lit "foo;".

(** An [$ExpectError] behind the statement of the first line. *)
Definition errorBehindCodeSource : jsstring := lit "foo; // $ExpectError".

(** A stand-in for the guard of the diagnostics, each given by its [start]:
    a test of [start] for truthiness, which lets through neither a missing
    start nor the start 0. *)
Definition sampleIsDiagnosticWithStart (start : option Z) : option Z :=
  match start with
  | Some z => if (z =? 0)%Z then None else Some z
  | None => None
  end.

(** A caret assertion whose expected type goes on for one more line. *)
Definition continuedCaretSource : jsstring :=
  lit "let a = 1;" ++ [LF] ++ lit "//  ^? number" ++ [LF]
  ++ lit "//     | string" ++ [LF] ++ lit "foo;".

(** ** Notions of the further properties *)

(** What follows the keyword of a directive comment with the payload [p]:
    nothing, or a space and the payload. *)
Definition payloadTail (p : option jsstring) : jsstring :=
  match p with
  | None => []
  | Some payload => SP :: payload
  end.

(** The candidate is a node that holds the position and has no child that
    does. *)
Definition innermost (position : number) (candidate : option Node) : Prop :=
  match candidate with
  | None => True
  | Some n => positionWithin position n = true
              /\ existsb (positionWithin position) (childrenOf n) = false
  end.

(** The invariant of the callback of [getNodeAtPosition] on a node [c]: a
    node that does not hold the position leaves the candidate as it is; one
    that holds it leaves an innermost node. *)
Definition visitGood (position : number) (c : Node) : Prop :=
  forall candidate,
    (positionWithin position c = false ->
     nodeAtPositionIter position c candidate = candidate)
    /\ (positionWithin position c = true ->
        innermost position (nodeAtPositionIter position c candidate)
        /\ nodeAtPositionIter position c candidate <> None).

(** The comparisons of a trace. *)
Definition comparisons (tr : list Event) : list Event :=
  filter (fun e => match e with
                   | Compare _ _ _ => true
                   | _ => false
                   end) tr.

(** The raw payload of a caret comment is in order: empty, or led by a
    space. *)
Definition payloadInOrder (rawPayload : jsstring) : bool :=
  negb (negb (length rawPayload =? 0) && negb (isChar (charAt rawPayload 0) SP)).

(** [s.split('\n')] *)
Fixpoint splitLF (s : jsstring) : list jsstring :=
  match s with
  | [] => [[]]
  | c :: s' =>
    if Ascii.eqb c LF then [] :: splitLF s'
    else match splitLF s' with
         | [] => [[c]]
         | l :: ls => (c :: l) :: ls
         end
  end.

(** [ls.join('\n')] *)
Fixpoint joinLF (ls : list jsstring) : jsstring :=
  match ls with
  | [] => []
  | l :: ls' =>
    match ls' with
    | [] => l
    | _ :: _ => l ++ LF :: joinLF ls'
    end
  end.

(** [ls.map((line, i) => (i > 0 ? expectedPrefix + line : line))] *)
Definition prefixRest (expectedPrefix : jsstring) (ls : list jsstring) : list jsstring :=
  match ls with
  | [] => []
  | l :: ls' => l :: map (fun line => expectedPrefix ++ line) ls'
  end.

(** The replacement text as the source writes it. *)
Definition twoslashFixLines (a : TwoSlashAssertion) (actual : jsstring) : jsstring :=
  (if insertSpace a then [SP] else [])
  ++ joinLF (prefixRest (expectedPrefix a) (splitLF actual)).

(** An unmet expectation that stands for a mismatch of an assertion of the
    map [m] or of the list [ts]. *)
Definition mismatchOf (m : Map Assertion) (ts : list TwoSlashAssertion)
           (u : UnmetExpectation) : Prop :=
  (exists l, In (l, assertion u) m
             /\ typeMismatch (assertionExpected (assertion u)) (actual u) = true)
  \/ (exists t, In t ts /\ assertion u = twoslash t
                /\ matchModuloWhitespace (actual u) (expected t) = false).

(** A line listed for a reason: a key of the map [m], line 0 for a caret
    on the first line, or the line of the position of a caret. *)
Definition unusedOf (lineOfPosition : number -> nat)
           (m : Map Assertion) (ts : list TwoSlashAssertion) (l : nat) : Prop :=
  In l (map_keys m)
  \/ (exists t, In t ts
                /\ (position t = Num (-1) /\ l = 0
                    \/ position t <> Num (-1) /\ l = lineOfPosition (position t))).

(** The nodes of the subtree of a node in the order of a depth-first
    traversal: the node, then the subtree of each of its children, in the
    order of [childrenOf]. *)
Fixpoint preorder (node : Node) {struct node} : list Node :=
  let each := fix each (l : list Node) : list Node :=
                match l with
                | [] => []
                | c :: l' => preorder c ++ each l'
                end in
  let eachOpt := fun (o : option Node) =>
                   match o with
                   | Some c => preorder c
                   | None => []
                   end in
  node :: match node with
          | ExpressionStatement _ _ e => preorder e
          | VariableStatement _ _ mods dl => each mods ++ preorder dl
          | VariableDeclarationList _ _ ds => each ds
          | VariableDeclaration _ _ nm ty init => preorder nm ++ eachOpt ty ++ eachOpt init
          | OtherNode _ _ _ cs => each cs
          end.

(** The nodes below the source file, in the order of the depth-first
    traversal of the tree. *)
Definition nodesInOrder (sourceFile : Node) : list Node :=
  flat_map preorder (childrenOf sourceFile).

(** In a tree of TypeScript an expression statement starts where its
    expression starts. *)
Definition startsWithExpression (n : Node) : Prop :=
  match n with
  | ExpressionStatement s _ e => getStart e = s
  | _ => True
  end.

(** A step of the pass that leaves the pending map, the unmet expectations
    and the comparisons the binding rule gives for the nodes [order]. *)
Definition followsOrder (lineOfPosition : number -> nat) (typeToString : Node -> jsstring)
           (f : Pass -> Pass) (order : list Node) : Prop :=
  forall st,
    pending (f st) = specPending lineOfPosition (pending st) order
    /\ unmetExpectations (f st)
       = unmetExpectations st ++ specUnmet lineOfPosition typeToString (pending st) order
    /\ comparisons (trace (f st))
       = comparisons (trace st)
         ++ comparisons (specTrace lineOfPosition typeToString (pending st) order).

(** An assertion as [parseAssertions] puts it in the map: a manual one with
    its expected text, or a snapshot one with its name and no expected text
    yet, neither text empty. *)
Definition parsedAssertion (a : Assertion) : Prop :=
  match a with
  | manual e => e <> []
  | snapshot e snapshotName => e = None /\ snapshotName <> []
  | twoslash _ => False
  end.

(** * Properties *)

(** ** Strings *)

Lemma jseq_true (a b : jsstring) : jseq a b = true <-> a = b.
Proof.
  unfold jseq. destruct (list_eq_dec ascii_dec a b); split; congruence.
Qed.

Lemma jseq_false (a b : jsstring) : jseq a b = false <-> a <> b.
Proof.
  unfold jseq. destruct (list_eq_dec ascii_dec a b); split; congruence.
Qed.

Lemma jseq_refl (a : jsstring) : jseq a a = true.
Proof. apply jseq_true. reflexivity. Qed.

(** ** The read-only array matcher *)

(** The bound given to the loop is never exhausted: each round moves
    [expectedPos] at least one step towards the length of [expected]. *)
Lemma matchLoop_total (fuel : nat) :
  forall actual expected expectedPos actualPos depth,
    length expected - expectedPos < fuel ->
    exists b, matchLoop fuel actual expected expectedPos actualPos depth = Some b.
Proof.
  induction fuel as [|fuel IH]; intros actual expected expectedPos actualPos depth Hfuel.
  - lia.
  - simpl.
    destruct (expectedPos <? length expected) eqn:He; simpl.
    2: { eexists; reflexivity. }
    apply Nat.ltb_lt in He.
    destruct (actualPos <? length actual); simpl.
    2: { eexists; reflexivity. }
    destruct (charEq _ _).
    { apply IH. lia. }
    destruct (_ && _ && _ && _ && _).
    { apply IH. lia. }
    destruct (_ && _).
    { apply IH. lia. }
    eexists; reflexivity.
Qed.

Lemma matchReadonlyArray_loop (actual expected : jsstring) :
  testWord readonlyWord actual = true ->
  testWord ReadonlyArrayWord expected = true ->
  matchLoop (S (length expected)) actual expected 0 0 0
  = Some (matchReadonlyArray actual expected).
Proof.
  intros Ha He. unfold matchReadonlyArray. rewrite Ha, He. simpl negb. cbv iota.
  destruct (matchLoop_total (S (length expected)) actual expected 0 0 0) as [b Hb].
  { lia. }
  rewrite Hb. reflexivity.
Qed.

Example matchReadonlyArray_number :
  matchReadonlyArray (lit "readonly number[]") (lit "ReadonlyArray<number>") = true.
Proof. vm_compute. reflexivity. Qed.

Example matchReadonlyArray_missing_qualifier :
  matchReadonlyArray (lit "number[]") (lit "ReadonlyArray<number>") = false.
Proof. vm_compute. reflexivity. Qed.

Example matchReadonlyArray_nested :
  matchReadonlyArray (lit "A<readonly B<readonly C[]>[]>")
                     (lit "A<ReadonlyArray<B<ReadonlyArray<C>>>>") = true.
Proof. vm_compute. reflexivity. Qed.

Example matchReadonlyArray_other_element :
  matchReadonlyArray (lit "readonly number[]") (lit "ReadonlyArray<string>") = false.
Proof. vm_compute. reflexivity. Qed.

(** A closing bracket of the generic spelling is not taken for [[]] outside
    a read-only array. *)
Example matchReadonlyArray_depth_zero :
  matchReadonlyArray (lit "readonly A[] | B[]") (lit "ReadonlyArray<A> | B>") = false.
Proof. vm_compute. reflexivity. Qed.

(** C1.  The matcher is meant to accept exactly the pairs that are equal up
    to the two spellings of a read-only array, so text left over in one
    string when the other is exhausted has to be a mismatch.  The loop of
    [matchReadonlyArray] stops as soon as either string is exhausted and
    answers [true] without looking at what is left: whatever follows
    [readonly number[]] in the actual text, the expected
    [ReadonlyArray<number>] is matched.  So the actual type
    [readonly number[] | undefined] is accepted, also with the roles of the
    two texts exchanged, and [typeMismatch] reports no failure for it. *)
Theorem matchReadonlyArray_ignores_rest :
  (forall rest : jsstring,
      matchReadonlyArray (lit "readonly number[]" ++ rest)
                         (lit "ReadonlyArray<number>") = true)
  /\ matchReadonlyArray (lit "readonly number[] | undefined")
                        (lit "ReadonlyArray<number>") = true
  /\ matchReadonlyArray (lit "readonly number[]")
                        (lit "ReadonlyArray<number> | undefined") = true
  /\ typeMismatch (Some (lit "ReadonlyArray<number>"))
                  (lit "readonly number[] | undefined") = false.
Proof.
  split; [intros rest; vm_compute; reflexivity|].
  vm_compute. repeat split.
Qed.

(** ** Attribution of comments to lines *)

(** The loop of [getLine] leaves [curLine] on the last line that starts at
    or before [pos]: the next entry of the table is missing or larger. *)
Lemma advanceLine_stops (fuel : nat) :
  forall lineStarts pos curLine,
    length lineStarts <= fuel + curLine ->
    match nth_error lineStarts (advanceLine fuel lineStarts pos curLine + 1) with
    | Some start => pos < start
    | None => True
    end.
Proof.
  induction fuel as [|fuel IH]; intros lineStarts pos curLine Hlen; simpl.
  - destruct (nth_error lineStarts (curLine + 1)) eqn:E; [|exact I].
    assert (curLine + 1 < length lineStarts) by (apply nth_error_Some; congruence).
    lia.
  - destruct (nth_error lineStarts (curLine + 1)) as [start|] eqn:E.
    + destruct (start <=? pos) eqn:Hle.
      * apply IH. lia.
      * rewrite E. apply Nat.leb_gt in Hle. exact Hle.
    + rewrite E. exact I.
Qed.

(** A comment preceded on its line by spaces only goes to the next line. *)
Lemma getLine_after_spaces (text : jsstring) (lineStarts : list nat)
      (curLine pos lineStart : nat) :
  let cur := advanceLine (length lineStarts) lineStarts pos curLine in
  nth_error lineStarts cur = Some lineStart ->
  Forall (fun i => charAt text i = Some SP) (seq lineStart (pos - lineStart)) ->
  getLine text lineStarts curLine pos = (cur + 1, cur).
Proof.
  intros cur Hstart Hspaces. unfold getLine. fold cur. rewrite Hstart.
  assert (H : isFirstOnLine text lineStart pos = true).
  { unfold isFirstOnLine. apply forallb_forall. intros i Hi.
    rewrite Forall_forall in Hspaces. rewrite (Hspaces i Hi). reflexivity. }
  rewrite H. reflexivity.
Qed.

(** A comment with anything but spaces before it on its line keeps the
    line. *)
Lemma getLine_after_other (text : jsstring) (lineStarts : list nat)
      (curLine pos lineStart i : nat) :
  let cur := advanceLine (length lineStarts) lineStarts pos curLine in
  nth_error lineStarts cur = Some lineStart ->
  lineStart <= i < pos ->
  charAt text i <> Some SP ->
  getLine text lineStarts curLine pos = (cur, cur).
Proof.
  intros cur Hstart Hi Hother. unfold getLine. fold cur. rewrite Hstart.
  assert (H : isFirstOnLine text lineStart pos = false).
  { unfold isFirstOnLine. apply not_true_is_false. intros Hall.
    rewrite forallb_forall in Hall. specialize (Hall i).
    assert (Hin : In i (seq lineStart (pos - lineStart))) by (apply in_seq; lia).
    specialize (Hall Hin). unfold isChar in Hall.
    destruct (charAt text i) as [c|]; [|discriminate].
    apply Ascii.eqb_eq in Hall. congruence. }
  rewrite H. reflexivity.
Qed.

Example space_indented_comment_goes_to_next_line :
  getLine spaceIndentedSource (computeLineStarts spaceIndentedSource) 0 2 = (1, 0)
  /\ typeAssertions (parseSourceText spaceIndentedSource) = [(1, manual (lit "number"))].
Proof. vm_compute. split; reflexivity. Qed.

(** C5.  A comment that is the first thing on its line apart from white
    space is to be attributed to the following line, tabs included;
    [getLine] itself says so ("if this is the first token on the line, it
    applies to the next line").  [isFirstOnLine] accepts spaces only: the
    comment of [tabIndentedSource] stands at offset 1 behind one tab, is
    not found first on its line, and its assertion is attributed to its own
    line 0 instead of line 1, where the statement is. *)
Theorem tab_indented_comment_keeps_own_line :
  scanComments 0 0 tabIndentedSource = [(1, lit " $ExpectType number")]
  /\ computeLineStarts tabIndentedSource = [0; 23]
  /\ isFirstOnLine tabIndentedSource 0 1 = false
  /\ getLine tabIndentedSource (computeLineStarts tabIndentedSource) 0 1 = (0, 0)
  /\ typeAssertions (parseSourceText tabIndentedSource) = [(0, manual (lit "number"))].
Proof. vm_compute. repeat split. Qed.

(** ** The fix of a snapshot report *)

Lemma readTexts_applied (n : nat) (fileName : jsstring) (options : Options)
      (fx : SnapshotFix) (store : SnapshotStore) :
  applied fx = true ->
  readTexts n fileName options fx store = (repeat [] n, fx, store).
Proof.
  intros Happlied. induction n as [|n IH]; simpl.
  - reflexivity.
  - unfold getText. rewrite Happlied. simpl. rewrite IH. reflexivity.
Qed.

Lemma readTexts_fresh (n : nat) (fileName : jsstring) (options : Options)
      (start : Z) (snapshotName actual : jsstring) (store : SnapshotStore) :
  readTexts (S n) fileName options (snapshotFix start snapshotName actual) store
  = (repeat [] (S n),
     mkSnapshotFix (start, start) true snapshotName actual,
     if disableExpectTypeSnapshotFix options then store
     else updateTypeSnapshot fileName snapshotName actual store).
Proof.
  simpl. unfold getText. simpl.
  destruct (disableExpectTypeSnapshotFix options); simpl;
    rewrite readTexts_applied by reflexivity; reflexivity.
Qed.

Lemma applyFix_empty_at (source : jsstring) (start : Z) :
  applyFix source (start, start) [] = source.
Proof. unfold applyFix. simpl. apply firstn_skipn. Qed.

(** [n] reads of the [text] of a fresh fix object: the texts, the store at
    the end, and what applying the fix does. *)
Lemma readTexts_snapshotFix (n : nat) (fileName : jsstring) (options : Options)
        (start : Z) (snapshotName actual : jsstring) (store : SnapshotStore) :
  let result := readTexts n fileName options (snapshotFix start snapshotName actual) store in
  let texts := fst (fst result) in
  let fx := snd (fst result) in
  let store' := snd result in
  texts = repeat [] n
  /\ store' = (if disableExpectTypeSnapshotFix options || (n =? 0) then store
               else store ++ [(fileName, snapshotName, actual)])
  /\ length store' <= length store + 1
  /\ (forall source text, In text texts -> applyFix source (fixRange fx) text = source).
Proof.
  destruct n as [|n].
  - simpl. rewrite orb_true_r. repeat split; try lia.
  - cbv zeta. rewrite readTexts_fresh. cbn [fst snd fixRange].
    replace (S n =? 0) with false by reflexivity. rewrite orb_false_r.
    split; [reflexivity|]. split; [reflexivity|]. split.
    + destruct (disableExpectTypeSnapshotFix options).
      * lia.
      * unfold updateTypeSnapshot. rewrite length_app. simpl. lia.
    + intros source text Hin. apply repeat_spec in Hin. subst text.
      apply applyFix_empty_at.
Qed.

(** C4.  For the report of an unmet snapshot assertion, the fix is built
    from the start of the reported node, the snapshot name and the actual
    type.  Reading the replacement text of the fix object any number [n]
    of times gives the empty string every time; the store is written once,
    by the first read, with the actual type under the file name and the
    snapshot name, and not at all when [disableExpectTypeSnapshotFix] is
    set (or nothing is read); applying the fix, a replacement by the empty
    string at an empty range, leaves any source text as it is. *)
Theorem snapshot_fix_writes_once (n : nat) (fileName : jsstring) (options : Options)
        (u : UnmetExpectation) (e : option jsstring) (snapshotName : jsstring)
        (store : SnapshotStore) :
  assertion u = snapshot e snapshotName ->
  fix_ (reportUnmet u) = Some (SnapshotFixOf (getStart (node u)) snapshotName (actual u))
  /\ let result := readTexts n fileName options
                             (snapshotFix (getStart (node u)) snapshotName (actual u))
                             store in
     fst (fst result) = repeat [] n
     /\ snd result = (if disableExpectTypeSnapshotFix options || (n =? 0) then store
                      else store ++ [(fileName, snapshotName, actual u)])
     /\ length (snd result) <= length store + 1
     /\ (forall source text,
            In text (fst (fst result)) ->
            applyFix source (fixRange (snd (fst result))) text = source).
Proof.
  intros Hsnap. split.
  - unfold reportUnmet. rewrite Hsnap. reflexivity.
  - apply readTexts_snapshotFix.
Qed.

(** ** Whitespace normalisation *)

(** [collapse] leaves no line feed and no two spaces in a row. *)
Lemma collapse_singleSpaced (s : jsstring) :
  forall inRun, singleSpaced inRun (collapse inRun s) = true.
Proof.
  induction s as [|c s IH]; intros inRun; simpl; [reflexivity|].
  destruct (Ascii.eqb c LF) eqn:ELF; simpl.
  - destruct inRun; [apply IH|]. simpl. apply IH.
  - destruct (Ascii.eqb c SP) eqn:ESP; simpl.
    + destruct inRun; [apply IH|]. simpl. apply IH.
    + rewrite ELF, ESP. apply IH.
Qed.

(** [collapse] keeps every other character, in order. *)
Lemma collapse_keeps_others (s : jsstring) :
  forall inRun,
    filter (fun c => negb (isRunChar c)) (collapse inRun s)
    = filter (fun c => negb (isRunChar c)) s.
Proof.
  induction s as [|c s IH]; intros inRun; simpl; [reflexivity|].
  unfold isRunChar at 2. destruct (Ascii.eqb c LF || Ascii.eqb c SP) eqn:E; simpl.
  - destruct inRun; [apply IH|]. simpl. apply IH.
  - unfold isRunChar at 1. rewrite E. simpl. f_equal. apply IH.
Qed.

(** A text that is single-spaced already is left as it is. *)
Lemma collapse_fixpoint (s : jsstring) :
  forall inRun, singleSpaced inRun s = true -> collapse inRun s = s.
Proof.
  induction s as [|c s IH]; intros inRun H; simpl in *; [reflexivity|].
  destruct (Ascii.eqb c LF); [discriminate|]. simpl.
  destruct (Ascii.eqb c SP) eqn:ESP.
  - apply andb_true_iff in H. destruct H as [Hrun H].
    destruct inRun; [discriminate|]. apply Ascii.eqb_eq in ESP. subst c.
    f_equal. apply IH. exact H.
  - f_equal. apply IH. exact H.
Qed.

Lemma trimStart_head (s : jsstring) :
  match trimStart s with
  | [] => True
  | c :: _ => isTrimSpace c = false
  end.
Proof.
  induction s as [|c s IH]; simpl; [exact I|].
  destruct (isTrimSpace c) eqn:E; [exact IH | exact E].
Qed.

(** The normal form does not begin with white space. *)
Lemma normalize_head (s : jsstring) :
  match normalize s with
  | [] => True
  | c :: _ => isTrimSpace c = false
  end.
Proof.
  unfold normalize, trim, trimEnd.
  pose proof (trimStart_head (collapse false s)) as Hhead.
  destruct (trimStart (collapse false s)) as [|c t]; [exact I|].
  pose proof (trimStart_head (rev (c :: t))) as Hlast.
  destruct (trimStart (rev (c :: t))) as [|d u] eqn:E; [exact I|].
  assert (Hsuffix : exists pre, rev (c :: t) = pre ++ d :: u).
  { clear Hhead Hlast. revert E. generalize (rev (c :: t)). intros l.
    induction l as [|x l IH]; simpl; [discriminate|].
    destruct (isTrimSpace x).
    - intros E. destruct (IH E) as [pre Hpre]. exists (x :: pre). rewrite Hpre. reflexivity.
    - intros E. exists []. exact E. }
  destruct Hsuffix as [pre Hpre].
  assert (Hrev : rev (d :: u) ++ rev pre = c :: t).
  { rewrite <- rev_app_distr, <- Hpre. apply rev_involutive. }
  destruct (rev (d :: u)) as [|y v] eqn:Ey.
  - apply (f_equal (@length ascii)) in Ey. rewrite length_rev in Ey. discriminate.
  - simpl in Hrev. injection Hrev as -> _. exact Hhead.
Qed.

(** ** Verdicts of the two comparison paths *)

Lemma app_single_neq {A : Type} (l : list A) (x : A) : l ++ [x] <> l.
Proof.
  intros H. apply (f_equal (@length A)) in H. rewrite length_app in H. simpl in H. lia.
Qed.

Lemma typeMismatch_false (expected : option jsstring) (actual : jsstring) :
  typeMismatch expected actual = false <->
  exists e, truthy expected = Some e
            /\ (actual = e \/ matchReadonlyArray actual e = true).
Proof.
  unfold typeMismatch. destruct (truthy expected) as [e|]; split.
  - intros H. exists e. split; [reflexivity|].
    apply andb_false_iff in H. destruct H as [H|H]; apply negb_false_iff in H.
    + left. apply jseq_true. exact H.
    + right. exact H.
  - intros [e' [He' H]]. injection He' as <-.
    apply andb_false_iff. destruct H as [H|H].
    + left. apply negb_false_iff. apply jseq_true. exact H.
    + right. apply negb_false_iff. exact H.
  - discriminate.
  - intros [e [He _]]. discriminate.
Qed.

(** *** Runs of spaces and newlines, white space at the ends *)

Lemma collapse_run (r : jsstring) :
  r <> [] -> forallb isRunChar r = true ->
  forall inRun s,
    collapse inRun (r ++ s) = (if inRun then [] else [SP]) ++ collapse true s.
Proof.
  induction r as [|c r IH]; [congruence|]. intros _ Hall inRun s.
  cbn [forallb] in Hall. apply andb_true_iff in Hall. destruct Hall as [Hc Hr].
  unfold isRunChar in Hc. cbn [app collapse]. rewrite Hc.
  destruct r as [|c' r'].
  - cbn [app]. destruct inRun; reflexivity.
  - rewrite (IH ltac:(discriminate) Hr true s). destruct inRun; reflexivity.
Qed.

Lemma collapse_runs_alike (a r1 r2 b : jsstring) :
  r1 <> [] -> r2 <> [] ->
  forallb isRunChar r1 = true -> forallb isRunChar r2 = true ->
  forall inRun, collapse inRun (a ++ r1 ++ b) = collapse inRun (a ++ r2 ++ b).
Proof.
  intros H1 H2 Ha1 Ha2. induction a as [|c a IH]; intros inRun; cbn [app].
  - rewrite (collapse_run r1 H1 Ha1), (collapse_run r2 H2 Ha2). reflexivity.
  - cbn [collapse]. destruct (Ascii.eqb c LF || Ascii.eqb c SP).
    + destruct inRun; rewrite IH; reflexivity.
    + rewrite IH. reflexivity.
Qed.

Lemma isRunChar_trim (c : ascii) : isRunChar c = true -> isTrimSpace c = true.
Proof.
  unfold isRunChar. intros H. apply orb_true_iff in H.
  destruct H as [H|H]; apply Ascii.eqb_eq in H; subst c; reflexivity.
Qed.

Lemma trimStart_collapse (s : jsstring) :
  trimStart (collapse true s) = trimStart (collapse false s).
Proof.
  destruct s as [|c s]; [reflexivity|]. cbn [collapse].
  destruct (Ascii.eqb c LF || Ascii.eqb c SP); reflexivity.
Qed.

Lemma trimStart_run (r s : jsstring) :
  forallb isTrimSpace r = true -> trimStart (r ++ s) = trimStart s.
Proof.
  induction r as [|c r IH]; [reflexivity|]. cbn [forallb app trimStart].
  intros H. apply andb_true_iff in H. destruct H as [Hc Hr]. rewrite Hc. exact (IH Hr).
Qed.

Lemma trimStart_snoc (x : jsstring) (c : ascii) :
  isTrimSpace c = true ->
  trimStart (x ++ [c]) = [] /\ trimStart x = []
  \/ trimStart (x ++ [c]) = trimStart x ++ [c].
Proof.
  intros Hc. induction x as [|y x IH]; cbn [app trimStart].
  - rewrite Hc. left. split; reflexivity.
  - destruct (isTrimSpace y); [exact IH|]. right. reflexivity.
Qed.

Lemma trimEnd_snoc (x : jsstring) (c : ascii) :
  isTrimSpace c = true -> trimEnd (x ++ [c]) = trimEnd x.
Proof.
  intros Hc. unfold trimEnd. rewrite rev_app_distr. cbn [rev app trimStart].
  rewrite Hc. reflexivity.
Qed.

Lemma trim_snoc (x : jsstring) (c : ascii) :
  isTrimSpace c = true -> trim (x ++ [c]) = trim x.
Proof.
  intros Hc. unfold trim. destruct (trimStart_snoc x c Hc) as [[H1 H2]|H].
  - rewrite H1, H2. reflexivity.
  - rewrite H. apply trimEnd_snoc. exact Hc.
Qed.

Lemma collapse_app_run (s r : jsstring) :
  forallb isRunChar r = true ->
  forall inRun,
    collapse inRun (s ++ r) = collapse inRun s
    \/ collapse inRun (s ++ r) = collapse inRun s ++ [SP].
Proof.
  intros Hr. induction s as [|c s IH]; intros inRun; cbn [app].
  - destruct r as [|c r]; [left; reflexivity|].
    rewrite <- (app_nil_r (c :: r)).
    rewrite (collapse_run (c :: r) ltac:(discriminate) Hr inRun []).
    destruct inRun; [left; reflexivity | right; reflexivity].
  - cbn [collapse]. destruct (Ascii.eqb c LF || Ascii.eqb c SP).
    + destruct inRun.
      * apply IH.
      * destruct (IH true) as [H|H]; rewrite H; [left | right]; reflexivity.
    + destruct (IH false) as [H|H]; rewrite H; [left | right]; reflexivity.
Qed.

Lemma normalize_lead (r s : jsstring) :
  forallb isRunChar r = true -> normalize (r ++ s) = normalize s.
Proof.
  intros Hr. destruct r as [|c r]; [reflexivity|].
  unfold normalize, trim.
  rewrite (collapse_run (c :: r) ltac:(discriminate) Hr false s).
  cbn [app trimStart]. change (isTrimSpace SP) with true. cbv iota.
  rewrite trimStart_collapse. reflexivity.
Qed.

Lemma normalize_trail (s r : jsstring) :
  forallb isRunChar r = true -> normalize (s ++ r) = normalize s.
Proof.
  intros Hr. unfold normalize.
  destruct (collapse_app_run s r Hr false) as [H|H]; rewrite H; [reflexivity|].
  apply trim_snoc. reflexivity.
Qed.

Lemma isRunChar_spec (c : ascii) : isRunChar c = true <-> spaceOrNewline c.
Proof.
  unfold isRunChar, spaceOrNewline. rewrite orb_true_iff, !Ascii.eqb_eq. tauto.
Qed.

Lemma isRunChar_not (c : ascii) : isRunChar c = false <-> ~ spaceOrNewline c.
Proof.
  rewrite <- isRunChar_spec. destruct (isRunChar c); split; congruence.
Qed.

Lemma forallb_isRunChar (r : jsstring) :
  forallb isRunChar r = true <-> Forall spaceOrNewline r.
Proof.
  rewrite forallb_forall, Forall_forall. split; intros H x Hx.
  - apply isRunChar_spec. exact (H x Hx).
  - apply isRunChar_spec. exact (H x Hx).
Qed.

Lemma collapse_outside (s : jsstring) :
  startsOutside spaceOrNewline s -> collapse true s = collapse false s.
Proof.
  destruct s as [|c s]; [reflexivity|]. cbn [startsOutside collapse]. intros H.
  apply isRunChar_not in H. unfold isRunChar in H. rewrite H. reflexivity.
Qed.

(** A text that starts with a space or a newline starts with a whole run. *)
Lemma leading_run (c : ascii) (s : jsstring) :
  spaceOrNewline c ->
  exists run rest,
    c :: s = run ++ rest /\ run <> [] /\ Forall spaceOrNewline run
    /\ startsOutside spaceOrNewline rest /\ length rest <= length s.
Proof.
  revert c. induction s as [|d s IH]; intros c Hc.
  - exists [c], []. split; [reflexivity|]. split; [discriminate|].
    split; [constructor; [exact Hc | constructor]|]. split; [exact I | apply Nat.le_refl].
  - destruct (isRunChar d) eqn:E.
    + apply isRunChar_spec in E.
      destruct (IH d E) as (run & rest & Heq & _ & Hrun & Hout & Hlen).
      exists (c :: run), rest. split; [rewrite Heq; reflexivity|].
      split; [discriminate|]. split; [constructor; assumption|].
      split; [exact Hout|]. cbn [length]. lia.
    + apply isRunChar_not in E. exists [c], (d :: s). split; [reflexivity|].
      split; [discriminate|]. split; [constructor; [exact Hc | constructor]|].
      split; [exact E | apply Nat.le_refl].
Qed.

Lemma collapse_is_collapsed (n : nat) :
  forall s, length s <= n -> collapsedTo s (collapse false s).
Proof.
  induction n as [|n IH]; intros s Hlen.
  - destruct s; [constructor | cbn [length] in Hlen; lia].
  - destruct s as [|c s]; [constructor|]. cbn [length] in Hlen.
    destruct (isRunChar c) eqn:E.
    + apply isRunChar_spec in E.
      destruct (leading_run c s E) as (run & rest & Heq & Hne & Hrun & Hout & Hrest).
      rewrite Heq.
      rewrite (collapse_run run Hne (proj2 (forallb_isRunChar run) Hrun) false rest).
      cbn [app]. rewrite (collapse_outside rest Hout).
      apply collapsed_run; try assumption. apply IH. lia.
    + cbn [collapse]. unfold isRunChar in E. rewrite E.
      apply collapsed_char; [apply isRunChar_not; exact E|]. apply IH. lia.
Qed.

Lemma collapsedTo_collapse (s t : jsstring) :
  collapsedTo s t <-> t = collapse false s.
Proof.
  split.
  - induction 1 as [|c s t Hc _ IH|run s t Hne Hrun Hout _ IH].
    + reflexivity.
    + cbn [collapse]. apply isRunChar_not in Hc. unfold isRunChar in Hc. rewrite Hc.
      f_equal. exact IH.
    + rewrite (collapse_run run Hne (proj2 (forallb_isRunChar run) Hrun) false s).
      cbn [app]. rewrite (collapse_outside s Hout). f_equal. exact IH.
  - intros ->. apply (collapse_is_collapsed (length s)). apply Nat.le_refl.
Qed.

Lemma isTrimSpace_spec (c : ascii) : isTrimSpace c = true <-> whiteSpace c.
Proof.
  unfold isTrimSpace, whiteSpace. cbv zeta. cbn [In].
  rewrite !orb_true_iff, andb_true_iff, !Nat.leb_le, !Nat.eqb_eq. lia.
Qed.

Lemma forallb_isTrimSpace (l : jsstring) :
  forallb isTrimSpace l = true <-> Forall whiteSpace l.
Proof.
  rewrite forallb_forall, Forall_forall.
  split; intros H x Hx; apply isTrimSpace_spec, H, Hx.
Qed.

Lemma trimStart_split (t : jsstring) :
  exists l, t = l ++ trimStart t /\ Forall whiteSpace l
            /\ startsOutside whiteSpace (trimStart t).
Proof.
  induction t as [|c t (l & Heq & Hl & Hout)]; cbn [trimStart].
  - exists []. split; [reflexivity|]. split; [constructor | exact I].
  - destruct (isTrimSpace c) eqn:E.
    + exists (c :: l). cbn [app]. rewrite <- Heq. split; [reflexivity|].
      split; [constructor; [apply isTrimSpace_spec; exact E | exact Hl] | exact Hout].
    + exists []. split; [reflexivity|]. split; [constructor|].
      cbn [startsOutside]. intros Hw. apply isTrimSpace_spec in Hw. congruence.
Qed.

Lemma trimStart_outside (u : jsstring) :
  startsOutside whiteSpace u -> trimStart u = u.
Proof.
  destruct u as [|c u]; [reflexivity|]. cbn [startsOutside trimStart].
  intros H. destruct (isTrimSpace c) eqn:E; [|reflexivity].
  contradiction H. apply isTrimSpace_spec. exact E.
Qed.

Lemma trimStart_white (l u : jsstring) :
  Forall whiteSpace l -> trimStart (l ++ u) = trimStart u.
Proof.
  intros H. apply trimStart_run. apply forallb_isTrimSpace. exact H.
Qed.

Lemma trimmedTo_trim (t u : jsstring) : trimmedTo t u <-> u = trim t.
Proof.
  split.
  - intros (l & r & -> & Hl & Hr & Hout & Hend). unfold trim, trimEnd.
    rewrite (trimStart_white l _ Hl).
    destruct u as [|c u].
    + cbn [app]. rewrite <- (app_nil_r r), (trimStart_white r [] Hr). reflexivity.
    + rewrite (trimStart_outside ((c :: u) ++ r)) by exact Hout.
      rewrite rev_app_distr.
      rewrite (trimStart_white (rev r)) by (apply Forall_rev; exact Hr).
      rewrite (trimStart_outside _ Hend). symmetry. apply rev_involutive.
  - intros ->. unfold trim, trimEnd.
    destruct (trimStart_split t) as (l & Ht & Hl & Hout).
    destruct (trimStart_split (rev (trimStart t))) as (r & Hr & Hrw & Hend).
    exists l, (rev r). split; [|split; [exact Hl | split; [apply Forall_rev; exact Hrw|split]]].
    + rewrite Ht at 1. f_equal.
      rewrite <- (rev_involutive (trimStart t)) at 1. rewrite Hr at 1.
      apply rev_app_distr.
    + (* the trimmed text does not start with white space *)
      destruct (rev (trimStart (rev (trimStart t)))) as [|c u] eqn:Eu; [exact I|].
      cbn [startsOutside].
      assert (Hhead : exists rest, trimStart t = c :: rest).
      { apply (f_equal (@rev ascii)) in Hr. rewrite rev_involutive, rev_app_distr, Eu in Hr.
        cbn [app] in Hr. eexists. exact Hr. }
      destruct Hhead as [rest Hrest]. rewrite Hrest in Hout. exact Hout.
    + rewrite rev_involutive. exact Hend.
Qed.

Lemma matchModuloWhitespace_spec (actual expected : jsstring) :
  matchModuloWhitespace actual expected = true <-> sameModuloWhitespace actual expected.
Proof.
  unfold matchModuloWhitespace, sameModuloWhitespace. cbv zeta. rewrite jseq_true.
  unfold normalize. split.
  - intros H. exists (collapse false actual), (collapse false expected),
                    (trim (collapse false actual)).
    split; [apply collapsedTo_collapse; reflexivity|].
    split; [apply collapsedTo_collapse; reflexivity|].
    split; apply trimmedTo_trim; [reflexivity | exact H].
  - intros (ca & ce & u & Ha & He & Hta & Hte).
    apply collapsedTo_collapse in Ha, He. subst ca ce.
    apply trimmedTo_trim in Hta, Hte. congruence.
Qed.

(** C6.  A caret assertion whose position has a node with quick info is
    satisfied (the round ends without an exception, and adds no failure
    line and no unmet expectation) exactly when the quick-info text and the
    expected text are the same modulo white space: equal once every run of
    spaces and newlines is collapsed to a single space and both ends are
    trimmed, as [sameModuloWhitespace] spells it out without the program's
    functions; [matchModuloWhitespace] decides just that, for all texts.
    A manual or snapshot assertion is satisfied exactly when its expected
    text is present and not empty and the actual type text is equal to it
    or matches it in [matchReadonlyArray].  The two-line text [string |],
    [  number] matches [string | number] in the first way and is a mismatch
    in the second; white space is collapsed, not removed: [string|number]
    does not match [string | number]. *)
Theorem caret_compares_modulo_whitespace
        (lineOfPosition : number -> nat) (typeToString : Node -> jsstring)
        (quickInfo : Z -> option (list jsstring))
        (sourceFile : Node) (t : TwoSlashAssertion)
        (lines : list nat) (unmet : list UnmetExpectation) (tr : list Event)
        (found : Node) (parts : list jsstring)
        (line : nat) (a : Assertion) (bound : Node) (st : Pass) :
  number_eqb (position t) (-1) = false ->
  getNodeAtPosition sourceFile (position t) = Some found ->
  quickInfo (getStart found) = Some parts ->
  let typeActual := typeToString (getNodeForExpectType (unwrapExpressionStatement bound)) in
  (exists result,
      checkTwoSlash lineOfPosition quickInfo sourceFile (lines, unmet, tr) t = Some result
      /\ fst (fst result) = lines
      /\ (snd (fst result) = unmet
          <-> sameModuloWhitespace (concat parts) (expected t))
      /\ (snd (fst result) <> unmet ->
          snd (fst result) = unmet ++ [mkUnmet (twoslash t) found (concat parts)]))
  /\ (forall actual expected,
         matchModuloWhitespace actual expected = true
         <-> sameModuloWhitespace actual expected)
  /\ (unmetExpectations (bindAssertion typeToString line a bound st) = unmetExpectations st
      <-> exists e, truthy (assertionExpected a) = Some e
                    /\ (typeActual = e \/ matchReadonlyArray typeActual e = true))
  /\ matchModuloWhitespace (lit "string |" ++ [LF] ++ lit "  number")
                           (lit "string | number") = true
  /\ typeMismatch (Some (lit "string | number"))
                  (lit "string |" ++ [LF] ++ lit "  number") = true
  /\ matchModuloWhitespace (lit "string|number") (lit "string | number") = false.
Proof.
  intros Hpos Hnode Hqi typeActual.
  assert (Hres : checkTwoSlash lineOfPosition quickInfo sourceFile (lines, unmet, tr) t
                 = Some (lines,
                         if matchModuloWhitespace (concat parts) (expected t)
                         then unmet
                         else unmet ++ [mkUnmet (twoslash t) found (concat parts)],
                         tr ++ [NodeAtPosition (position t)]
                            ++ [QuickInfoAtPosition (getStart found)])).
  { unfold checkTwoSlash. rewrite Hpos, Hnode, Hqi.
    destruct (matchModuloWhitespace _ _); simpl; rewrite <- app_assoc; reflexivity. }
  split; [|split; [|split; [|split; [|split]]]].
  - eexists. split; [exact Hres|]. cbn [fst snd]. split; [reflexivity|].
    rewrite <- matchModuloWhitespace_spec.
    destruct (matchModuloWhitespace _ _); split.
    + split; reflexivity.
    + congruence.
    + split; [intros H; exfalso; eapply app_single_neq; eauto | discriminate].
    + reflexivity.
  - apply matchModuloWhitespace_spec.
  - unfold bindAssertion. cbn [unmetExpectations]. fold typeActual.
    rewrite <- typeMismatch_false.
    destruct (typeMismatch _ _); split; try congruence; try reflexivity.
    intros H. exfalso. eapply app_single_neq; eauto.
  - vm_compute. reflexivity.
  - vm_compute. reflexivity.
  - vm_compute. reflexivity.
Qed.

Lemma caret_compares_modulo_whitespace_witness :
  number_eqb (position sampleCaret) (-1) = false
  /\ getNodeAtPosition sampleRoot (position sampleCaret) = Some sampleIdentifier
  /\ sampleQuickInfo (getStart sampleIdentifier)
     = Some [lit "string |"; [LF]; lit "  number"]
  /\ exists result,
      checkTwoSlash sampleLineOfPosition sampleQuickInfo sampleRoot
                    ([], [], []) sampleCaret = Some result
      /\ snd (fst result) = [].
Proof.
  split; [reflexivity|]. split; [reflexivity|]. split; [reflexivity|].
  destruct (caret_compares_modulo_whitespace
              sampleLineOfPosition sampleTypeToString sampleQuickInfo
              sampleRoot sampleCaret [] [] [] sampleIdentifier
              [lit "string |"; [LF]; lit "  number"]
              0 (manual (lit "number")) sampleStatement (mkPass [] [] [])
              eq_refl eq_refl eq_refl) as ((result & Hres & _ & Hiff & _) & Hspec & _).
  exists result. split; [exact Hres|].
  apply Hiff. apply Hspec. vm_compute. reflexivity.
Defined.

Lemma snapshot_fix_writes_once_witness :
  assertion sampleUnmetSnapshot = snapshot None (lit "Foo")
  /\ snd (readTexts 2 (lit "file.ts") defaultOptions
                    (snapshotFix 0 (lit "Foo") (lit "number")) [])
     = [(lit "file.ts", lit "Foo", lit "number")].
Proof.
  split; [reflexivity|].
  destruct (snapshot_fix_writes_once 2 (lit "file.ts") defaultOptions
                                     sampleUnmetSnapshot None (lit "Foo") []
                                     eq_refl) as (_ & _ & Hstore & _).
  exact Hstore.
Defined.

(** ** The traversal *)

Lemma Node_children_ind (P : Node -> Prop) :
  (forall n, Forall P (childrenOf n) -> P n) -> forall n, P n.
Proof.
  intros H. induction n using Node_rect'; apply H; simpl.
  - constructor; [assumption | constructor].
  - apply Forall_app. split; [assumption | constructor; [assumption | constructor]].
  - assumption.
  - constructor; [assumption|]. apply Forall_app. split.
    + destruct ty; simpl; [constructor; [auto | constructor] | constructor].
    + destruct init; simpl; [constructor; [auto | constructor] | constructor].
  - assumption.
Qed.

Section TraversalFacts.

Variable lineOfPosition : number -> nat.
Variable typeToString : Node -> jsstring.

Local Abbreviation iterate' := (iterate lineOfPosition typeToString).
Local Abbreviation forEachChild' := (forEachChild lineOfPosition typeToString).

(** [forEachChild] as the rounds of [iterate] over the children. *)
Lemma forEachChild_unfold (n : Node) (st : Pass) :
  forEachChild' n st
  = match n with
    | ExpressionStatement _ _ e => iterate' e st
    | VariableStatement _ _ mods dl =>
      iterate' dl (fold_left (fun st c => iterate' c st) mods st)
    | VariableDeclarationList _ _ ds => fold_left (fun st c => iterate' c st) ds st
    | VariableDeclaration _ _ nm ty init =>
      fold_left (fun st c => iterate' c st) (optNode init)
                (fold_left (fun st c => iterate' c st) (optNode ty) (iterate' nm st))
    | OtherNode _ _ _ cs => fold_left (fun st c => iterate' c st) cs st
    end.
Proof.
  unfold forEachChild. destruct n; simpl; try reflexivity.
  - rewrite fold_left_app. reflexivity.
  - rewrite fold_left_app. reflexivity.
Qed.

Lemma each_fold (l : list Node) (st : Pass) :
  (fix each (l : list Node) (st : Pass) {struct l} : Pass :=
     match l with
     | [] => st
     | c :: l' => each l' (iterate' c st)
     end) l st
  = fold_left (fun st c => iterate' c st) l st.
Proof.
  revert st. induction l as [|c l IH]; intros st; simpl; [reflexivity | apply IH].
Qed.

(** The defining equation of [iterate]. *)
Lemma iterate_eq (n : Node) (st : Pass) :
  iterate' n st
  = let st1 := mkPass (pending st) (unmetExpectations st) (trace st ++ [Visit n]) in
    let line := lineOfPosition (Num (getStart n)) in
    match map_get line (pending st) with
    | Some a =>
      forEachChild' (unwrapExpressionStatement n) (bindAssertion typeToString line a n st1)
    | None => forEachChild' n st1
    end.
Proof.
  cbv zeta.
  destruct n; cbn [iterate pending getStart unwrapExpressionStatement];
    destruct (map_get _ (pending st)); rewrite forEachChild_unfold;
    rewrite ?each_fold; try reflexivity;
    try (destruct n; rewrite ?each_fold; try reflexivity);
    repeat match goal with
           | o : option Node |- _ => destruct o
           end; reflexivity.
Qed.

End TraversalFacts.

(** ** Maps in insertion order *)

Section MapFacts.

Context {V : Type}.

Lemma map_get_remove_same (l : nat) (m : Map V) : map_get l (map_remove l m) = None.
Proof.
  unfold map_get, map_remove. induction m as [|[k v] m IH]; simpl; [reflexivity|].
  destruct (Nat.eqb k l) eqn:E; simpl; [exact IH|]. rewrite E. exact IH.
Qed.

Lemma map_get_remove_other (l l' : nat) (m : Map V) :
  l <> l' -> map_get l (map_remove l' m) = map_get l m.
Proof.
  intros Hne. unfold map_get, map_remove.
  induction m as [|[k v] m IH]; simpl; [reflexivity|].
  destruct (Nat.eqb k l') eqn:E; simpl.
  - apply Nat.eqb_eq in E. subst k.
    destruct (Nat.eqb l' l) eqn:E'; [apply Nat.eqb_eq in E'; congruence | exact IH].
  - destruct (Nat.eqb k l); [reflexivity | exact IH].
Qed.

Lemma map_remove_absent (l : nat) (m : Map V) :
  map_get l m = None -> map_remove l m = m.
Proof.
  unfold map_get, map_remove. induction m as [|[k v] m IH]; simpl; [reflexivity|].
  destruct (Nat.eqb k l) eqn:E; simpl; [discriminate|].
  intros H. rewrite IH by exact H. reflexivity.
Qed.

Lemma map_has_get (l : nat) (m : Map V) :
  map_has l m = true <-> map_get l m <> None.
Proof.
  unfold map_has, map_get. induction m as [|[k v] m IH]; simpl.
  - split; [discriminate | congruence].
  - destruct (Nat.eqb k l); simpl; [split; [discriminate | reflexivity] | exact IH].
Qed.

Lemma map_has_false (l : nat) (m : Map V) :
  map_has l m = false <-> map_get l m = None.
Proof.
  pose proof (map_has_get l m) as H.
  destruct (map_has l m), (map_get l m); split; intros; try congruence; try reflexivity.
  - exfalso. apply (proj1 H); [reflexivity | assumption].
  - assert (false = true) by (apply H; discriminate). discriminate.
Qed.

Lemma map_keys_get (l : nat) (m : Map V) :
  In l (map_keys m) <-> map_get l m <> None.
Proof.
  unfold map_keys, map_get. induction m as [|[k v] m IH]; simpl.
  - split; [tauto | congruence].
  - destruct (Nat.eqb k l) eqn:E.
    + apply Nat.eqb_eq in E. split; [discriminate | auto].
    + apply Nat.eqb_neq in E. rewrite <- IH. split; [intros [H|H]; [congruence | exact H] | auto].
Qed.

Lemma map_get_set_same (l : nat) (v : V) (m : Map V) :
  map_get l (map_set l v m) = Some v.
Proof.
  unfold map_set. destruct (map_has l m) eqn:Hhas.
  - unfold map_has, map_get in *. induction m as [|[k w] m IH]; simpl in *; [discriminate|].
    destruct (Nat.eqb k l) eqn:E; simpl.
    + rewrite Nat.eqb_refl. reflexivity.
    + rewrite E. apply IH. exact Hhas.
  - apply map_has_false in Hhas. unfold map_get in *.
    induction m as [|[k w] m IH]; simpl in *.
    + rewrite Nat.eqb_refl. reflexivity.
    + destruct (Nat.eqb k l); [discriminate | apply IH; exact Hhas].
Qed.

Lemma map_get_set_other (l l' : nat) (v : V) (m : Map V) :
  l <> l' -> map_get l (map_set l' v m) = map_get l m.
Proof.
  intros Hne. unfold map_set. destruct (map_has l' m).
  - unfold map_get. induction m as [|[k w] m IH]; simpl; [reflexivity|].
    destruct (Nat.eqb k l') eqn:E; simpl.
    + apply Nat.eqb_eq in E. subst k.
      destruct (Nat.eqb l' l) eqn:E'; [apply Nat.eqb_eq in E'; congruence | reflexivity].
    + destruct (Nat.eqb k l); [reflexivity | exact IH].
  - unfold map_get. induction m as [|[k w] m IH]; simpl.
    + destruct (Nat.eqb l' l) eqn:E'; [apply Nat.eqb_eq in E'; congruence | reflexivity].
    + destruct (Nat.eqb k l); [reflexivity | exact IH].
Qed.

End MapFacts.

(** ** The binding rule on a list of visited nodes *)

Section BindingRuleFacts.

Variable lineOfPosition : number -> nat.
Variable typeToString : Node -> jsstring.

Local Abbreviation lineOf := (lineOfNode lineOfPosition).
Local Abbreviation sTrace := (specTrace lineOfPosition typeToString).
Local Abbreviation sPending := (specPending lineOfPosition).
Local Abbreviation sUnmet := (specUnmet lineOfPosition typeToString).

Lemma specTrace_app (vs ws : list Node) :
  forall m, sTrace m (vs ++ ws) = sTrace m vs ++ sTrace (sPending m vs) ws.
Proof.
  induction vs as [|n vs IH]; intros m; simpl; [reflexivity|].
  destruct (map_get (lineOf n) m) eqn:E; simpl; rewrite IH.
  - reflexivity.
  - rewrite (map_remove_absent _ _ E). reflexivity.
Qed.

Lemma specPending_app (vs ws : list Node) :
  forall m, sPending m (vs ++ ws) = sPending (sPending m vs) ws.
Proof.
  induction vs as [|n vs IH]; intros m; simpl; [reflexivity | apply IH].
Qed.

Lemma specUnmet_app (vs ws : list Node) :
  forall m, sUnmet m (vs ++ ws) = sUnmet m vs ++ sUnmet (sPending m vs) ws.
Proof.
  induction vs as [|n vs IH]; intros m; simpl; [reflexivity|].
  destruct (map_get (lineOf n) m) eqn:E; simpl; rewrite IH.
  - rewrite app_assoc. reflexivity.
  - rewrite (map_remove_absent _ _ E). reflexivity.
Qed.

Lemma visitsOf_app (t1 t2 : list Event) :
  visitsOf (t1 ++ t2) = visitsOf t1 ++ visitsOf t2.
Proof. unfold visitsOf. apply flat_map_app. Qed.

Lemma comparesFor_app (l : nat) (t1 t2 : list Event) :
  comparesFor l (t1 ++ t2) = comparesFor l t1 ++ comparesFor l t2.
Proof. unfold comparesFor. apply filter_app. Qed.

Lemma visitsOf_specTrace (vs : list Node) :
  forall m, visitsOf (sTrace m vs) = vs.
Proof.
  induction vs as [|n vs IH]; intros m; simpl; [reflexivity|].
  destruct (map_get (lineOf n) m); simpl; rewrite IH; reflexivity.
Qed.

(** No node of the line among the visited ones: nothing is compared for the
    line and its entry stays as it is. *)
Lemma spec_line_not_visited (l : nat) (vs : list Node) :
  forall m,
    (forall x, In x vs -> lineOf x <> l) ->
    comparesFor l (sTrace m vs) = [] /\ map_get l (sPending m vs) = map_get l m.
Proof.
  induction vs as [|n vs IH]; intros m Hnot; simpl; [split; reflexivity|].
  assert (Hn : lineOf n <> l) by (apply Hnot; left; reflexivity).
  assert (Hvs : forall x, In x vs -> lineOf x <> l) by (intros x Hx; apply Hnot; right; exact Hx).
  destruct (IH (map_remove (lineOf n) m) Hvs) as [Hc Hp].
  rewrite Hp, map_get_remove_other by congruence.
  split; [|reflexivity].
  destruct (map_get (lineOf n) m) eqn:E; simpl.
  - apply Nat.eqb_neq in Hn. rewrite Hn. exact Hc.
  - rewrite <- (map_remove_absent _ _ E) at 1. exact Hc.
Qed.

(** A line without a pending entry is never compared and gets no entry. *)
Lemma spec_line_not_pending (l : nat) (vs : list Node) :
  forall m,
    map_get l m = None ->
    comparesFor l (sTrace m vs) = [] /\ map_get l (sPending m vs) = None.
Proof.
  induction vs as [|n vs IH]; intros m Hnone; simpl; [split; [reflexivity | exact Hnone]|].
  assert (Hrem : map_get l (map_remove (lineOf n) m) = None).
  { destruct (Nat.eq_dec l (lineOf n)) as [->|Hne].
    - apply map_get_remove_same.
    - rewrite map_get_remove_other by exact Hne. exact Hnone. }
  destruct (IH _ Hrem) as [Hc Hp]. split; [|exact Hp].
  destruct (map_get (lineOf n) m) eqn:E; simpl.
  - destruct (Nat.eqb (lineOf n) l) eqn:El; [|exact Hc].
    apply Nat.eqb_eq in El. congruence.
  - rewrite <- (map_remove_absent _ _ E) at 1. exact Hc.
Qed.

(** The first visited node of a line with a pending entry is the one, and
    the only one, compared for the line, and the entry is gone afterwards. *)
Lemma spec_first_visited (l : nat) (a : Assertion) (v1 v2 : list Node) (n : Node)
      (m : Map Assertion) :
  map_get l m = Some a ->
  lineOf n = l ->
  (forall x, In x v1 -> lineOf x <> l) ->
  comparesFor l (sTrace m (v1 ++ n :: v2))
  = [Compare l (getNodeForExpectType (unwrapExpressionStatement n))
             (candidateFor typeToString a n)]
  /\ map_get l (sPending m (v1 ++ n :: v2)) = None.
Proof.
  intros Hget Hline Hbefore.
  destruct (spec_line_not_visited l v1 m Hbefore) as [Hc1 Hp1].
  rewrite specTrace_app, specPending_app, comparesFor_app, Hc1. simpl.
  rewrite Hline, Hp1, Hget. simpl. rewrite Nat.eqb_refl.
  destruct (spec_line_not_pending l v2 (map_remove l (sPending m v1))
                                  (map_get_remove_same l _)) as [Hc2 Hp2].
  rewrite Hc2, Hp2. split; reflexivity.
Qed.

End BindingRuleFacts.

(** ** The traversal follows the binding rule *)

Section TraversalFollowsRule.

Variable lineOfPosition : number -> nat.
Variable typeToString : Node -> jsstring.

Local Abbreviation iterate' := (iterate lineOfPosition typeToString).
Local Abbreviation forEachChild' := (forEachChild lineOfPosition typeToString).
Local Abbreviation sTrace := (specTrace lineOfPosition typeToString).
Local Abbreviation sPending := (specPending lineOfPosition).
Local Abbreviation sUnmet := (specUnmet lineOfPosition typeToString).

Local Abbreviation followsRule := (followsRule lineOfPosition typeToString).

Lemma followsRule_compose (f g : Pass -> Pass) :
  followsRule f -> followsRule g -> followsRule (fun st => g (f st)).
Proof.
  intros Hf Hg st.
  destruct (Hf st) as (vs & Ht & Hp & Hu).
  destruct (Hg (f st)) as (ws & Ht' & Hp' & Hu').
  exists (vs ++ ws).
  rewrite Ht', Hp', Hu', Ht, Hp, Hu.
  rewrite specTrace_app, specPending_app, specUnmet_app, <- !app_assoc.
  repeat split.
Qed.

Lemma followsRule_fold (l : list Node) :
  Forall (fun c => followsRule (iterate' c)) l ->
  followsRule (fold_left (fun st c => iterate' c st) l).
Proof.
  induction 1 as [|c l Hc Hl IH].
  - intros st. exists []. simpl. rewrite !app_nil_r. repeat split.
  - simpl. apply (followsRule_compose (iterate' c) _ Hc IH).
Qed.

Lemma followsRule_iterate (n : Node) :
  followsRule (forEachChild' n) ->
  followsRule (forEachChild' (unwrapExpressionStatement n)) ->
  followsRule (iterate' n).
Proof.
  intros Hn Hun st. rewrite iterate_eq. cbv zeta.
  fold (lineOfNode lineOfPosition n).
  destruct (map_get (lineOfNode lineOfPosition n) (pending st)) as [a|] eqn:E.
  - destruct (Hun (bindAssertion typeToString (lineOfNode lineOfPosition n) a n
                                 (mkPass (pending st) (unmetExpectations st)
                                         (trace st ++ [Visit n]))))
      as (vs & Ht & Hp & Hu).
    exists (n :: vs). rewrite Ht, Hp, Hu. simpl. rewrite E.
    unfold candidateFor. simpl.
    destruct (typeMismatch _ _); rewrite <- !app_assoc; repeat split.
  - destruct (Hn (mkPass (pending st) (unmetExpectations st) (trace st ++ [Visit n])))
      as (vs & Ht & Hp & Hu).
    exists (n :: vs). rewrite Ht, Hp, Hu. simpl. rewrite E.
    rewrite (map_remove_absent _ _ E), <- !app_assoc. repeat split.
Qed.

Lemma traversal_follows_rule (n : Node) :
  followsRule (iterate' n) /\ followsRule (forEachChild' n).
Proof.
  induction n as [n IH] using Node_children_ind.
  assert (Hfe : followsRule (forEachChild' n)).
  { unfold forEachChild. apply followsRule_fold.
    eapply Forall_impl; [|exact IH]. intros c [Hc _]. exact Hc. }
  split; [|exact Hfe].
  apply followsRule_iterate; [exact Hfe|].
  destruct n; try exact Hfe.
  simpl in IH. inversion IH as [|x l [_ Hx] _]. exact Hx.
Qed.

End TraversalFollowsRule.

(** ** [getNodeAtPosition] *)

Section NodeAtPosition.

Variable position : number.

Local Abbreviation visit := (fun candidate c => nodeAtPositionIter position c candidate).

Lemma nodeAtPosition_each (l : list Node) (candidate : option Node) :
  (fix each (l : list Node) (candidate : option Node) {struct l} : option Node :=
     match l with
     | [] => candidate
     | c :: l' => each l' (nodeAtPositionIter position c candidate)
     end) l candidate
  = fold_left visit l candidate.
Proof.
  revert candidate. induction l as [|c l IH]; intros candidate; simpl; [reflexivity | apply IH].
Qed.

(** The defining equation of the callback of [getNodeAtPosition]. *)
Lemma nodeAtPositionIter_eq (n : Node) (candidate : option Node) :
  nodeAtPositionIter position n candidate
  = if positionWithin position n
    then fold_left visit (childrenOf n) (Some n)
    else candidate.
Proof.
  destruct n; cbn [nodeAtPositionIter childrenOf];
    destruct (positionWithin position _); try reflexivity;
    rewrite ?nodeAtPosition_each, ?fold_left_app; try reflexivity.
  destruct type_, initializer; reflexivity.
Qed.

Lemma fold_visit_good (l : list Node) :
  Forall (visitGood position) l ->
  forall candidate,
    (existsb (positionWithin position) l = false -> fold_left visit l candidate = candidate)
    /\ (existsb (positionWithin position) l = true ->
        innermost position (fold_left visit l candidate)
        /\ fold_left visit l candidate <> None).
Proof.
  induction 1 as [|c l Hc Hl IH]; intros candidate; simpl.
  - split; [reflexivity | discriminate].
  - destruct (Hc candidate) as [Hout Hin].
    destruct (positionWithin position c) eqn:E; simpl.
    + split; [discriminate|]. intros _.
      destruct (Hin eq_refl) as [Hinner Hsome].
      destruct (IH (nodeAtPositionIter position c candidate)) as [IHout IHin].
      destruct (existsb (positionWithin position) l) eqn:El.
      * apply IHin. reflexivity.
      * rewrite (IHout eq_refl). auto.
    + rewrite (Hout eq_refl). apply IH.
Qed.

Lemma visit_good (n : Node) : visitGood position n.
Proof.
  induction n as [n IH] using Node_children_ind.
  intros candidate. rewrite nodeAtPositionIter_eq.
  destruct (positionWithin position n) eqn:E.
  - split; [discriminate|]. intros _.
    destruct (fold_visit_good (childrenOf n) IH (Some n)) as [Hout Hin].
    destruct (existsb (positionWithin position) (childrenOf n)) eqn:Ec.
    + apply Hin. reflexivity.
    + rewrite (Hout eq_refl). split; [split; assumption | discriminate].
  - split; [reflexivity | discriminate].
Qed.

End NodeAtPosition.

Lemma getNodeAtPosition_NaN (sourceFile : Node) : getNodeAtPosition sourceFile NaN = None.
Proof.
  unfold getNodeAtPosition.
  assert (Hgood : Forall (visitGood NaN) (childrenOf sourceFile)).
  { apply Forall_forall. intros c _. apply visit_good. }
  destruct (fold_visit_good NaN (childrenOf sourceFile) Hgood None) as [Hout _].
  apply Hout.
  assert (Hnan : forall l, existsb (positionWithin NaN) l = false).
  { intros l. induction l as [|c l IHl]; [reflexivity | exact IHl]. }
  apply Hnan.
Qed.

(** X8.  [getNodeAtPosition] finds a node exactly when a child of the source
    file holds the position; the node it finds holds the position, and none
    of its children does.  For a position that is [NaN] it finds none. *)
Theorem getNodeAtPosition_innermost (sourceFile : Node) (position : number) :
  (getNodeAtPosition sourceFile position = None
   <-> existsb (positionWithin position) (childrenOf sourceFile) = false)
  /\ (forall n,
         getNodeAtPosition sourceFile position = Some n ->
         positionWithin position n = true
         /\ existsb (positionWithin position) (childrenOf n) = false)
  /\ getNodeAtPosition sourceFile NaN = None.
Proof.
  assert (Hgood : forall p, Forall (visitGood p) (childrenOf sourceFile)).
  { intros p. apply Forall_forall. intros c _. apply visit_good. }
  unfold getNodeAtPosition.
  destruct (fold_visit_good position (childrenOf sourceFile) (Hgood position) None)
    as [Hout Hin].
  split; [|split].
  - destruct (existsb (positionWithin position) (childrenOf sourceFile)).
    + destruct (Hin eq_refl) as [_ Hsome]. split; [contradiction | discriminate].
    + split; [reflexivity | intros _; apply Hout; reflexivity].
  - intros n Hn.
    destruct (existsb (positionWithin position) (childrenOf sourceFile)).
    + destruct (Hin eq_refl) as [Hinner _]. rewrite Hn in Hinner. exact Hinner.
    + rewrite (Hout eq_refl) in Hn. discriminate.
  - change (fold_left (fun candidate c => nodeAtPositionIter NaN c candidate)
                      (childrenOf sourceFile) None)
      with (getNodeAtPosition sourceFile NaN).
    apply getNodeAtPosition_NaN.
Qed.

(** ** The loop over the caret assertions *)

Section OrphanFacts.

Variable lineOfPosition : number -> nat.
Variable typeToString : Node -> jsstring.
Variable quickInfo : Z -> option (list jsstring).

(** What [getExpectTypeFailures] returns when the loop ends without an
    exception. *)
Lemma getExpectTypeFailures_returns (sourceFile : Node) (m : Map Assertion)
      (ts : list TwoSlashAssertion) (failures : ExpectTypeFailures) :
  getExpectTypeFailures lineOfPosition typeToString quickInfo sourceFile m ts
  = Some failures ->
  let st := forEachChild lineOfPosition typeToString sourceFile (mkPass m [] []) in
  exists lines unmet tr,
    checkTwoSlashes lineOfPosition quickInfo sourceFile ts
                    ([], unmetExpectations st, trace st)
    = Some (lines, unmet, tr)
    /\ failures = mkFailures unmet (lines ++ map_keys (pending st)) tr.
Proof.
  unfold getExpectTypeFailures. cbv zeta.
  destruct (checkTwoSlashes _ _ _ ts _) as [[[lines unmet] tr]|]; [|discriminate].
  intros H. injection H as <-. exists lines, unmet, tr. split; reflexivity.
Qed.

Lemma checkTwoSlash_lines_kept (sourceFile : Node)
      (st st' : list nat * list UnmetExpectation * list Event) (t : TwoSlashAssertion)
      (l : nat) :
  checkTwoSlash lineOfPosition quickInfo sourceFile st t = Some st' ->
  In l (fst (fst st)) ->
  In l (fst (fst st')).
Proof.
  destruct st as [[lines unmet] tr]. unfold checkTwoSlash. cbn [fst]. intros H Hin.
  destruct (number_eqb _ _);
    [injection H as <-; cbn [fst]; apply in_or_app; left; exact Hin|].
  destruct (getNodeAtPosition _ _).
  - destruct (quickInfo _).
    + destruct (negb _); injection H as <-; exact Hin.
    + destruct (lineAndCharacterOfPosition _ _); [|discriminate].
      injection H as <-. cbn [fst]. apply in_or_app. left. exact Hin.
  - destruct (lineAndCharacterOfPosition _ _); [|discriminate].
    injection H as <-. cbn [fst]. apply in_or_app. left. exact Hin.
Qed.

Lemma checkTwoSlashes_lines_kept (sourceFile : Node) (ts : list TwoSlashAssertion) :
  forall st st' l,
    checkTwoSlashes lineOfPosition quickInfo sourceFile ts st = Some st' ->
    In l (fst (fst st)) ->
    In l (fst (fst st')).
Proof.
  induction ts as [|t ts IH]; intros st st' l H Hin; cbn [checkTwoSlashes] in H.
  - injection H as <-. exact Hin.
  - destruct (checkTwoSlash _ _ _ st t) as [st1|] eqn:E; [|discriminate].
    apply (IH st1 st' l H). apply (checkTwoSlash_lines_kept sourceFile st st1 t l E Hin).
Qed.

(** The round of a caret assertion with the position -1. *)
Lemma checkTwoSlash_sentinel (sourceFile : Node) (lines : list nat)
      (unmet : list UnmetExpectation) (tr : list Event) (t : TwoSlashAssertion) :
  position t = Num (-1) ->
  checkTwoSlash lineOfPosition quickInfo sourceFile (lines, unmet, tr) t
  = Some (lines ++ [0], unmet, tr).
Proof. intros Hpos. unfold checkTwoSlash. rewrite Hpos. reflexivity. Qed.

Lemma checkTwoSlashes_sentinel (sourceFile : Node) (ts : list TwoSlashAssertion)
      (t : TwoSlashAssertion) :
  In t ts ->
  position t = Num (-1) ->
  forall st st',
    checkTwoSlashes lineOfPosition quickInfo sourceFile ts st = Some st' ->
    In 0 (fst (fst st')).
Proof.
  intros Hin Hpos. induction ts as [|t' ts IH]; intros st st' H; [destruct Hin|].
  cbn [checkTwoSlashes] in H.
  destruct (checkTwoSlash _ _ _ st t') as [st1|] eqn:E; [|discriminate].
  destruct Hin as [->|Hin].
  - apply (checkTwoSlashes_lines_kept sourceFile ts st1 st' 0 H).
    destruct st as [[lines unmet] tr].
    rewrite checkTwoSlash_sentinel in E by exact Hpos. injection E as <-.
    cbn [fst]. apply in_or_app. right. left. reflexivity.
  - apply (IH Hin st1 st' H).
Qed.

(** The round of a caret assertion whose position is [NaN]: no node is
    found, and the lookup of the line throws. *)
Lemma checkTwoSlash_NaN (sourceFile : Node)
      (st : list nat * list UnmetExpectation * list Event) (t : TwoSlashAssertion) :
  position t = NaN ->
  checkTwoSlash lineOfPosition quickInfo sourceFile st t = None.
Proof.
  intros Hpos. destruct st as [[lines unmet] tr]. unfold checkTwoSlash.
  rewrite Hpos. cbn [number_eqb]. rewrite getNodeAtPosition_NaN. reflexivity.
Qed.

Lemma checkTwoSlashes_NaN (sourceFile : Node) (ts : list TwoSlashAssertion)
      (t : TwoSlashAssertion) :
  In t ts ->
  position t = NaN ->
  forall st, checkTwoSlashes lineOfPosition quickInfo sourceFile ts st = None.
Proof.
  intros Hin Hpos. induction ts as [|t' ts IH]; intros st; [destruct Hin|].
  cbn [checkTwoSlashes]. destruct Hin as [->|Hin].
  - rewrite (checkTwoSlash_NaN sourceFile st t Hpos). reflexivity.
  - destruct (checkTwoSlash _ _ _ st t'); [apply (IH Hin) | reflexivity].
Qed.

Lemma getExpectTypeFailures_NaN (sourceFile : Node) (m : Map Assertion)
      (ts : list TwoSlashAssertion) (t : TwoSlashAssertion) :
  In t ts ->
  position t = NaN ->
  getExpectTypeFailures lineOfPosition typeToString quickInfo sourceFile m ts = None.
Proof.
  intros Hin Hpos. unfold getExpectTypeFailures.
  rewrite (checkTwoSlashes_NaN sourceFile ts t Hin Hpos). reflexivity.
Qed.

Section Reports.

Variable Diagnostic : Type.
Variable isDiagnosticWithStart : Diagnostic -> option Z.

(** The reports when no exception is thrown. *)
Lemma reportAssertions_returns (fileName : jsstring) (sf : SourceFile)
      (diagnostics : list Diagnostic) (store : SnapshotStore) (a : Assertions)
      (reports : list Report) :
  reportAssertions lineOfPosition typeToString quickInfo Diagnostic isDiagnosticWithStart
                   fileName sf diagnostics store a = Returned reports ->
  exists failures,
    getExpectTypeFailures lineOfPosition typeToString quickInfo (root sf)
                          (loadSnapshots fileName store (typeAssertions a))
                          (twoSlashAssertions a) = Some failures
    /\ reports
       = map (fun line => lineReport Multiple_ExpectTypeAssertions (Z.of_nat line))
             (duplicates a)
         ++ map (fun line => lineReport ExpectedErrorNotFound (Z.of_nat line))
                (filter (fun line =>
                           negb (set_has line
                                   (map (fun start => lineOfPosition (Num start))
                                        (filterMap isDiagnosticWithStart diagnostics))))
                        (errorLines a))
         ++ map (fun e => mkReport SyntaxErrorMessage (LineColumn (line e + 1) 0)
                                   None None (Some (type e)) None)
                (syntaxErrors a)
         ++ map reportUnmet (failuresUnmet failures)
         ++ map (fun line => lineReport OrphanAssertion (Z.of_nat line))
                (unusedAssertions failures).
Proof.
  unfold reportAssertions. cbv zeta.
  destruct (getExpectTypeFailures _ _ _ _ _ _) as [failures|]; [|discriminate].
  intros H. injection H as <-. exists failures. split; reflexivity.
Qed.

(** The reports when an exception is thrown. *)
Lemma reportAssertions_throws (fileName : jsstring) (sf : SourceFile)
      (diagnostics : list Diagnostic) (store : SnapshotStore) (a : Assertions)
      (reports : list Report) :
  reportAssertions lineOfPosition typeToString quickInfo Diagnostic isDiagnosticWithStart
                   fileName sf diagnostics store a = Thrown reports ->
  reports
  = map (fun line => lineReport Multiple_ExpectTypeAssertions (Z.of_nat line))
        (duplicates a)
    ++ map (fun line => lineReport ExpectedErrorNotFound (Z.of_nat line))
           (filter (fun line =>
                      negb (set_has line
                              (map (fun start => lineOfPosition (Num start))
                                   (filterMap isDiagnosticWithStart diagnostics))))
                   (errorLines a))
    ++ map (fun e => mkReport SyntaxErrorMessage (LineColumn (line e + 1) 0)
                              None None (Some (type e)) None)
           (syntaxErrors a).
Proof.
  unfold reportAssertions. cbv zeta.
  destruct (getExpectTypeFailures _ _ _ _ _ _) as [failures|]; [discriminate|].
  intros H. injection H as <-. reflexivity.
Qed.

(** With a caret assertion of position [NaN] the run ends with the
    exception, after the reports of the duplicates, of the missing errors
    and of the syntax errors. *)
Lemma reportAssertions_NaN (fileName : jsstring) (sf : SourceFile)
      (diagnostics : list Diagnostic) (store : SnapshotStore) (a : Assertions)
      (t : TwoSlashAssertion) :
  In t (twoSlashAssertions a) ->
  position t = NaN ->
  reportAssertions lineOfPosition typeToString quickInfo Diagnostic isDiagnosticWithStart
                   fileName sf diagnostics store a
  = Thrown (map (fun line => lineReport Multiple_ExpectTypeAssertions (Z.of_nat line))
                (duplicates a)
            ++ map (fun line => lineReport ExpectedErrorNotFound (Z.of_nat line))
                   (filter (fun line =>
                              negb (set_has line
                                      (map (fun start => lineOfPosition (Num start))
                                           (filterMap isDiagnosticWithStart diagnostics))))
                           (errorLines a))
            ++ map (fun e => mkReport SyntaxErrorMessage (LineColumn (line e + 1) 0)
                                      None None (Some (type e)) None)
                   (syntaxErrors a)).
Proof.
  intros Hin Hpos. unfold reportAssertions. cbv zeta.
  rewrite (getExpectTypeFailures_NaN (root sf) _ _ t Hin Hpos). reflexivity.
Qed.

(** The same for a file that has no duplicate, no [$ExpectError] and no
    syntax error: no report at all is made. *)
Lemma validate_NaN (fileName : jsstring) (sf : SourceFile)
      (diagnostics : list Diagnostic) (store : SnapshotStore) (t : TwoSlashAssertion) :
  mentionsDirective (text sf) = true ->
  In t (twoSlashAssertions (parseAssertions (text sf) (lineStarts sf))) ->
  position t = NaN ->
  duplicates (parseAssertions (text sf) (lineStarts sf)) = [] ->
  errorLines (parseAssertions (text sf) (lineStarts sf)) = [] ->
  syntaxErrors (parseAssertions (text sf) (lineStarts sf)) = [] ->
  validate lineOfPosition typeToString quickInfo Diagnostic isDiagnosticWithStart
           fileName (Some sf) diagnostics store = Thrown [].
Proof.
  intros Hmentions Hin Hpos Hduplicates Herrors Hsyntax.
  unfold validate. rewrite Hmentions. cbn [negb].
  rewrite (reportAssertions_NaN fileName sf diagnostics store _ t Hin Hpos).
  rewrite Hduplicates, Herrors, Hsyntax. reflexivity.
Qed.

End Reports.

End OrphanFacts.

(** ** A pending line when the loop over the caret assertions throws *)

(** C7.  The specification has every line that is still pending when the
    traversal ends reported as an orphan.  On [caretAndOrphanSource] the
    directive of the second line is attributed to line 2, where no node
    starts: its entry is still pending when the traversal of the tree of
    the file, [caretAndOrphanRoot], ends.  The caret comment of the first line stands behind code,
    so that its position is [NaN]; the loop over the caret assertions, which
    comes before the unused lines are handed back, throws at the lookup of
    the line of that position, and [validate] ends with the exception,
    whatever the tree and the services, having made no report: line 2 is
    not reported. *)
Theorem pending_line_is_not_reported :
  typeAssertions (parseSourceText caretAndOrphanSource) = [(2, manual (lit "number"))]
  /\ map position (twoSlashAssertions (parseSourceText caretAndOrphanSource)) = [NaN]
  /\ (forall typeToString : Node -> jsstring,
         pending (forEachChild caretAndOrphanLine typeToString caretAndOrphanRoot
                               (mkPass [(2, manual (lit "number"))] [] []))
         = [(2, manual (lit "number"))])
  /\ forall (lineOfPosition : number -> nat) (typeToString : Node -> jsstring)
            (quickInfo : Z -> option (list jsstring))
            (Diagnostic : Type) (isDiagnosticWithStart : Diagnostic -> option Z)
            (fileName : jsstring) (tree : Node) (diagnostics : list Diagnostic)
            (store : SnapshotStore),
      validate lineOfPosition typeToString quickInfo Diagnostic isDiagnosticWithStart
               fileName
               (Some (mkSourceFile caretAndOrphanSource
                                   (computeLineStarts caretAndOrphanSource) tree))
               diagnostics store
      = Thrown [].
Proof.
  assert (Hcarets : map position (twoSlashAssertions (parseSourceText caretAndOrphanSource))
                    = [NaN]) by (vm_compute; reflexivity).
  split; [vm_compute; reflexivity|]. split; [exact Hcarets|].
  split; [intros typeToString; vm_compute; reflexivity|].
  intros lineOfPosition typeToString quickInfo Diagnostic isDiagnosticWithStart
         fileName tree diagnostics store.
  apply (validate_NaN lineOfPosition typeToString quickInfo Diagnostic
                      isDiagnosticWithStart fileName _ diagnostics store
                      (mkTwoSlashAssertion NaN (lit "a") (-1, -1)%Z
                                           (lit "foo; //    ") true)).
  - vm_compute. reflexivity.
  - vm_compute. left. reflexivity.
  - reflexivity.
  - vm_compute. reflexivity.
  - vm_compute. reflexivity.
  - vm_compute. reflexivity.
Qed.

(** ** Expression statements *)

Lemma getNodeForExpectType_other (n : Node) :
  isVariableStatement n = false -> getNodeForExpectType n = n.
Proof. destruct n; simpl; [reflexivity | discriminate | reflexivity ..]. Qed.

Lemma reportUnmet_loc (u : UnmetExpectation) : loc (reportUnmet u) = NodeLoc (node u).
Proof. unfold reportUnmet. destruct (assertion u); reflexivity. Qed.

(** C10.  When the callback runs on an expression statement whose line has
    a pending assertion, the node handed to the checker and the node of
    the record that is pushed on a mismatch, hence the node of the report's
    location, are the statement's expression; the traversal goes on with
    the children of the expression.  This is so for every expression
    statement (an expression is never a variable statement). *)
Theorem expression_statement_is_unwrapped
        (lineOfPosition : number -> nat) (typeToString : Node -> jsstring)
        (s e : Z) (expression : Node) (st : Pass) (a : Assertion) :
  map_get (lineOfPosition (Num s)) (pending st) = Some a ->
  isVariableStatement expression = false ->
  let stmt := ExpressionStatement s e expression in
  let l := lineOfPosition (Num s) in
  let candidate := mkUnmet a expression (typeToString expression) in
  iterate lineOfPosition typeToString stmt st
  = forEachChild lineOfPosition typeToString expression
                 (mkPass (map_remove l (pending st))
                         (if typeMismatch (assertionExpected a) (typeToString expression)
                          then unmetExpectations st ++ [candidate]
                          else unmetExpectations st)
                         (trace st ++ [Visit stmt; Compare l expression candidate]))
  /\ node candidate = expression
  /\ loc (reportUnmet candidate) = NodeLoc expression.
Proof.
  intros Hget Hexpr stmt l candidate.
  split; [|split; [reflexivity | apply reportUnmet_loc]].
  subst stmt l candidate.
  rewrite iterate_eq. cbv zeta. cbn [getStart pending]. rewrite Hget.
  unfold bindAssertion. cbn [unwrapExpressionStatement pending unmetExpectations trace].
  rewrite (getNodeForExpectType_other expression Hexpr).
  cbn [map_delete snd]. rewrite <- app_assoc. reflexivity.
Qed.

Lemma expression_statement_is_unwrapped_witness :
  map_get (sampleLineOfPosition (Num 0)) [(0, manual (lit "string"))]
  = Some (manual (lit "string"))
  /\ isVariableStatement sampleIdentifier = false
  /\ unmetExpectations (iterate sampleLineOfPosition sampleTypeToString sampleStatement
                                (mkPass [(0, manual (lit "string"))] [] []))
     = [mkUnmet (manual (lit "string")) sampleIdentifier (lit "number")].
Proof.
  split; [reflexivity|]. split; [reflexivity|].
  destruct (expression_statement_is_unwrapped
              sampleLineOfPosition sampleTypeToString 0 4 sampleIdentifier
              (mkPass [(0, manual (lit "string"))] [] []) (manual (lit "string"))
              eq_refl eq_refl) as (Hiter & _).
  fold sampleStatement in Hiter. rewrite Hiter. vm_compute. reflexivity.
Defined.

(** ** Caret comments attributed to line 1 *)

Example caret_first_source_parsed :
  twoSlashAssertions (parseSourceText caretFirstSource)
  = [mkTwoSlashAssertion (Num (-1)) (lit "number") (-1, -1)%Z [] false].
Proof. vm_compute. reflexivity. Qed.

Example caret_first_source_reported :
  validate sampleLineOfPosition sampleTypeToString sampleQuickInfo
           (option Z) sampleIsDiagnosticWithStart (lit "file.ts")
           (Some (mkSourceFile caretFirstSource (computeLineStarts caretFirstSource)
                               sampleRoot))
           [] []
  = Returned [mkReport OrphanAssertion (LineColumn 1 0) None None None None].
Proof. vm_compute. reflexivity. Qed.

(** C8.  The specification has a caret assertion of the first line
    reported as an orphan whatever else the file holds.  On
    [caretBehindCodeSource] the caret comment of the second line is
    attributed to line 1 and is built with the position -1, the range
    (-1, -1) and the empty prefix.  The caret comment of the first line
    stands behind code and is attributed to line 0, so that its position is
    [NaN]; it comes first in the loop over the caret assertions, which
    throws at the lookup of the line of that position before the assertion
    of line 1 is reached.  [validate] ends with the exception, whatever the
    tree and the services, having made no report: no orphan is reported. *)
Theorem caret_on_line_one_is_not_reported :
  twoSlashAssertions (parseSourceText caretBehindCodeSource)
  = [mkTwoSlashAssertion NaN (lit "a") (-1, -1)%Z (lit "foo; //    ") true;
     mkTwoSlashAssertion (Num (-1)) (lit "b") (-1, -1)%Z [] false]
  /\ forall (lineOfPosition : number -> nat) (typeToString : Node -> jsstring)
            (quickInfo : Z -> option (list jsstring))
            (Diagnostic : Type) (isDiagnosticWithStart : Diagnostic -> option Z)
            (fileName : jsstring) (tree : Node) (diagnostics : list Diagnostic)
            (store : SnapshotStore),
      validate lineOfPosition typeToString quickInfo Diagnostic isDiagnosticWithStart
               fileName
               (Some (mkSourceFile caretBehindCodeSource
                                   (computeLineStarts caretBehindCodeSource) tree))
               diagnostics store
      = Thrown [].
Proof.
  assert (Hcarets : twoSlashAssertions (parseSourceText caretBehindCodeSource)
                    = [mkTwoSlashAssertion NaN (lit "a") (-1, -1)%Z (lit "foo; //    ") true;
                       mkTwoSlashAssertion (Num (-1)) (lit "b") (-1, -1)%Z [] false])
    by (vm_compute; reflexivity).
  split; [exact Hcarets|].
  intros lineOfPosition typeToString quickInfo Diagnostic isDiagnosticWithStart
         fileName tree diagnostics store.
  apply (validate_NaN lineOfPosition typeToString quickInfo Diagnostic
                      isDiagnosticWithStart fileName _ diagnostics store
                      (mkTwoSlashAssertion NaN (lit "a") (-1, -1)%Z
                                           (lit "foo; //    ") true)).
  - vm_compute. reflexivity.
  - vm_compute. left. reflexivity.
  - reflexivity.
  - vm_compute. reflexivity.
  - vm_compute. reflexivity.
  - vm_compute. reflexivity.
Qed.

(** ** Directives and duplicates *)

(** The three collections the directives work on. *)
Lemma applyDirective_core (a b : Assertions) (l : nat) (d : Directive)
      (p : option jsstring) :
  errorLines a = errorLines b ->
  typeAssertions a = typeAssertions b ->
  duplicates a = duplicates b ->
  errorLines (applyDirective a l d p) = errorLines (applyDirective b l d p)
  /\ typeAssertions (applyDirective a l d p) = typeAssertions (applyDirective b l d p)
  /\ duplicates (applyDirective a l d p) = duplicates (applyDirective b l d p).
Proof.
  intros He Ht Hd. unfold applyDirective.
  destruct d; rewrite ?He, ?Ht, ?Hd.
  - destruct (truthy p); [|simpl; auto].
    unfold map_delete. destruct (map_has l (typeAssertions b)); simpl; auto.
  - destruct (truthy p); [|simpl; auto].
    unfold map_delete. destruct (map_has l (typeAssertions b)); simpl; auto.
  - simpl. auto.
Qed.

(** One round of the loop of [parseAssertions], seen from the three
    collections. *)
Lemma processComment_step (text : jsstring) (lineStarts : list nat) (st : ParseState)
      (commentIndex : nat) (comment : jsstring) :
  let st' := processComment text lineStarts st (commentIndex, comment) in
  let line := fst (getLine text lineStarts (curLine st) commentIndex) in
  curLine st' = snd (getLine text lineStarts (curLine st) commentIndex)
  /\ match matchExpect comment with
     | Some (d, p) => assertions st' = applyDirective (assertions st) line d p
     | None => errorLines (assertions st') = errorLines (assertions st)
               /\ typeAssertions (assertions st') = typeAssertions (assertions st)
               /\ duplicates (assertions st') = duplicates (assertions st)
     end.
Proof.
  cbv zeta. unfold processComment.
  destruct (getLine text lineStarts (curLine st) commentIndex) as [line cur'].
  cbn [fst snd curLine assertions]. split; [reflexivity|].
  destruct (matchExpect comment) as [[d p]|]; [reflexivity|].
  destruct (parseTwoslashAssertion _ _ _ _ _) as [[e|t]|]; simpl; auto.
Qed.

(** [parseAssertions] treats the error lines, the type assertions and the
    duplicates as [runDirectives] does on the directives of the text. *)
Lemma parse_directives_from (text : jsstring) (lineStarts : list nat)
      (cms : list (nat * jsstring)) :
  forall st a,
    errorLines (assertions st) = errorLines a ->
    typeAssertions (assertions st) = typeAssertions a ->
    duplicates (assertions st) = duplicates a ->
    let r := assertions (fold_left (processComment text lineStarts) cms st) in
    let r' := runDirectives a (directivesFrom text lineStarts (curLine st) cms) in
    errorLines r = errorLines r'
    /\ typeAssertions r = typeAssertions r'
    /\ duplicates r = duplicates r'.
Proof.
  induction cms as [|[commentIndex comment] cms IH]; intros st a He Ht Hd.
  - simpl. auto.
  - cbv zeta. cbn [fold_left directivesFrom].
    destruct (processComment_step text lineStarts st commentIndex comment) as [Hcur Hstep].
    cbv zeta in Hstep.
    destruct (getLine text lineStarts (curLine st) commentIndex) as [line cur'].
    cbn [fst snd] in Hcur, Hstep.
    destruct (matchExpect comment) as [[d p]|].
    + destruct (applyDirective_core (assertions st) a line d p He Ht Hd) as (He' & Ht' & Hd').
      rewrite <- Hstep in He', Ht', Hd'.
      unfold runDirectives. cbn [fold_left fst snd]. rewrite <- Hcur.
      apply IH; assumption.
    + destruct Hstep as (He' & Ht' & Hd'). rewrite <- Hcur.
      apply IH; congruence.
Qed.

Lemma parse_directives (text : jsstring) (lineStarts : list nat) :
  let r := parseAssertions text lineStarts in
  let r' := runDirectives emptyAssertions (directivesOf text lineStarts) in
  errorLines r = errorLines r'
  /\ typeAssertions r = typeAssertions r'
  /\ duplicates r = duplicates r'.
Proof.
  apply (parse_directives_from text lineStarts (scanComments 0 0 text)
                               (mkParseState emptyAssertions 0) emptyAssertions);
    reflexivity.
Qed.

(** *** What the directives of one line do *)

Lemma map_has_as_get {V : Type} (l : nat) (m : Map V) :
  map_has l m = match map_get l m with Some _ => true | None => false end.
Proof.
  destruct (map_get l m) eqn:E.
  - apply map_has_get. congruence.
  - apply map_has_false. exact E.
Qed.

Lemma map_has_remove {V : Type} (l l' : nat) (m : Map V) :
  map_has l (map_remove l' m) = negb (Nat.eqb l l') && map_has l m.
Proof.
  rewrite !map_has_as_get. destruct (Nat.eqb l l') eqn:E; simpl.
  - apply Nat.eqb_eq in E. subst l'. rewrite map_get_remove_same. reflexivity.
  - apply Nat.eqb_neq in E. rewrite map_get_remove_other by exact E. reflexivity.
Qed.

Lemma map_has_set {V : Type} (l l' : nat) (v : V) (m : Map V) :
  map_has l (map_set l' v m) = Nat.eqb l l' || map_has l m.
Proof.
  rewrite !map_has_as_get. destruct (Nat.eqb l l') eqn:E; simpl.
  - apply Nat.eqb_eq in E. subst l'. rewrite map_get_set_same. reflexivity.
  - apply Nat.eqb_neq in E. rewrite map_get_set_other by exact E. reflexivity.
Qed.

Lemma set_has_app (l : nat) (s1 s2 : list nat) :
  set_has l (s1 ++ s2) = set_has l s1 || set_has l s2.
Proof. unfold set_has. apply existsb_app. Qed.

Lemma set_has_add (l l' : nat) (s : list nat) :
  set_has l (set_add l' s) = Nat.eqb l l' || set_has l s.
Proof.
  unfold set_add. destruct (set_has l' s) eqn:E.
  - destruct (Nat.eqb l l') eqn:El; [|reflexivity].
    apply Nat.eqb_eq in El. subst l'. rewrite E. reflexivity.
  - rewrite set_has_app. simpl. rewrite orb_false_r. apply orb_comm.
Qed.

Lemma count_occ_push (l x : nat) (s : list nat) :
  count_occ Nat.eq_dec (s ++ [x]) l
  = count_occ Nat.eq_dec s l + (if Nat.eqb x l then 1 else 0).
Proof.
  rewrite count_occ_app. simpl.
  destruct (Nat.eq_dec x l) as [->|Hne].
  - rewrite Nat.eqb_refl. reflexivity.
  - apply Nat.eqb_neq in Hne. rewrite Hne. reflexivity.
Qed.

(** The effect of one directive on what is known of line [l]. *)
Lemma applyDirective_line (l : nat) (a : Assertions) (d : nat * Directive * option jsstring) :
  let a' := applyDirective a (fst (fst d)) (snd (fst d)) (snd d) in
  map_has l (typeAssertions a')
  = xorb (map_has l (typeAssertions a)) (isTypeOn l d)
  /\ set_has l (errorLines a') = set_has l (errorLines a) || isErrorOn l d
  /\ count_occ Nat.eq_dec (duplicates a') l
     = count_occ Nat.eq_dec (duplicates a) l
       + (if isTypeOn l d && map_has l (typeAssertions a) then 1 else 0)
       + (if isErrorOn l d && set_has l (errorLines a) then 1 else 0).
Proof.
  destruct d as [[l' k] p]. cbv zeta. unfold isTypeOn, isErrorOn, applyDirective.
  cbn [fst snd]. rewrite (Nat.eqb_sym l' l).
  destruct k.
  - (* $ExpectTypeSnapshot *)
    rewrite andb_false_r, orb_false_r, Nat.add_0_r.
    destruct (truthy p) as [name|].
    2: { cbn [typeAssertions errorLines duplicates].
         rewrite andb_false_r, xorb_false_r. simpl. auto with arith. }
    rewrite andb_true_r. unfold map_delete.
    destruct (map_has l' (typeAssertions a)) eqn:Hhas;
      cbn [typeAssertions errorLines duplicates].
    + rewrite map_has_remove, count_occ_push, (Nat.eqb_sym l' l).
      destruct (Nat.eqb l l') eqn:E; simpl.
      * apply Nat.eqb_eq in E. subst l'. rewrite Hhas. auto.
      * rewrite xorb_false_r. auto with arith.
    + rewrite map_has_set, map_has_remove.
      destruct (Nat.eqb l l') eqn:E; simpl.
      * apply Nat.eqb_eq in E. subst l'. rewrite Hhas. auto with arith.
      * rewrite xorb_false_r. auto with arith.
  - (* $ExpectType *)
    rewrite andb_false_r, orb_false_r, Nat.add_0_r.
    destruct (truthy p) as [expectedText|].
    2: { cbn [typeAssertions errorLines duplicates].
         rewrite andb_false_r, xorb_false_r. simpl. auto with arith. }
    rewrite andb_true_r. unfold map_delete.
    destruct (map_has l' (typeAssertions a)) eqn:Hhas;
      cbn [typeAssertions errorLines duplicates].
    + rewrite map_has_remove, count_occ_push, (Nat.eqb_sym l' l).
      destruct (Nat.eqb l l') eqn:E; simpl.
      * apply Nat.eqb_eq in E. subst l'. rewrite Hhas. auto.
      * rewrite xorb_false_r. auto with arith.
    + rewrite map_has_set, map_has_remove.
      destruct (Nat.eqb l l') eqn:E; simpl.
      * apply Nat.eqb_eq in E. subst l'. rewrite Hhas. auto with arith.
      * rewrite xorb_false_r. auto with arith.
  - (* $ExpectError *)
    cbn [typeAssertions errorLines duplicates].
    rewrite andb_false_r, xorb_false_r, andb_true_r, set_has_add, Nat.add_0_r.
    split; [reflexivity|]. split; [apply orb_comm|].
    destruct (set_has l' (errorLines a)) eqn:Hhas.
    + rewrite count_occ_push, (Nat.eqb_sym l' l).
      destruct (Nat.eqb l l') eqn:E; simpl; [|auto with arith].
      apply Nat.eqb_eq in E. subst l'. rewrite Hhas. reflexivity.
    + destruct (Nat.eqb l l') eqn:E; simpl; [|auto with arith].
      apply Nat.eqb_eq in E. subst l'. rewrite Hhas. auto with arith.
Qed.

Lemma countTypeOn_cons (l : nat) (d : nat * Directive * option jsstring)
      (ds : list (nat * Directive * option jsstring)) :
  countTypeOn l (d :: ds) = (if isTypeOn l d then 1 else 0) + countTypeOn l ds.
Proof. unfold countTypeOn. simpl. destruct (isTypeOn l d); reflexivity. Qed.

Lemma countErrorOn_cons (l : nat) (d : nat * Directive * option jsstring)
      (ds : list (nat * Directive * option jsstring)) :
  countErrorOn l (d :: ds) = (if isErrorOn l d then 1 else 0) + countErrorOn l ds.
Proof. unfold countErrorOn. simpl. destruct (isErrorOn l d); reflexivity. Qed.

(** What a run of directives leaves for line [l], from the numbers of type
    directives and of error directives of the line: the entry of the line
    is toggled by every type directive; the line is an error line once it
    has an error directive; [duplicates] gets the line from every type
    directive that finds an entry and from every error directive but the
    first. *)
Lemma runDirectives_line (l : nat) (ds : list (nat * Directive * option jsstring)) :
  forall a,
    let r := runDirectives a ds in
    map_has l (typeAssertions r)
    = xorb (map_has l (typeAssertions a)) (Nat.odd (countTypeOn l ds))
    /\ set_has l (errorLines r) = set_has l (errorLines a) || (0 <? countErrorOn l ds)
    /\ count_occ Nat.eq_dec (duplicates r) l
       = count_occ Nat.eq_dec (duplicates a) l
         + togglePushes (map_has l (typeAssertions a)) (countTypeOn l ds)
         + (countErrorOn l ds - (if set_has l (errorLines a) then 0 else 1)).
Proof.
  induction ds as [|d ds IH]; intros a.
  - cbv zeta. simpl. rewrite xorb_false_r, orb_false_r. repeat split. lia.
  - cbv zeta. unfold runDirectives. cbn [fold_left].
    fold (runDirectives (applyDirective a (fst (fst d)) (snd (fst d)) (snd d)) ds).
    destruct (IH (applyDirective a (fst (fst d)) (snd (fst d)) (snd d))) as (Ht & He & Hd).
    destruct (applyDirective_line l a d) as (Ht1 & He1 & Hd1).
    rewrite Ht, He, Hd, Ht1, He1, Hd1, countTypeOn_cons, countErrorOn_cons.
    clear Ht He Hd Ht1 He1 Hd1 IH.
    destruct (isTypeOn l d), (isErrorOn l d),
      (map_has l (typeAssertions a)), (set_has l (errorLines a));
      cbn [xorb orb andb negb Nat.add togglePushes];
      rewrite ?Nat.odd_succ, <- ?Nat.negb_odd;
      (split; [destruct (Nat.odd (countTypeOn l ds)); reflexivity|]);
      (split; [destruct (countErrorOn l ds); reflexivity|]); lia.
Qed.

(** The same for [parseAssertions], which starts from empty collections. *)
Lemma parseAssertions_line (text : jsstring) (lineStarts : list nat) (l : nat) :
  let r := parseAssertions text lineStarts in
  let ds := directivesOf text lineStarts in
  map_has l (typeAssertions r) = Nat.odd (countTypeOn l ds)
  /\ set_has l (errorLines r) = (0 <? countErrorOn l ds)
  /\ count_occ Nat.eq_dec (duplicates r) l
     = togglePushes false (countTypeOn l ds) + (countErrorOn l ds - 1).
Proof.
  cbv zeta.
  destruct (parse_directives text lineStarts) as (He & Ht & Hd). cbv zeta in He, Ht, Hd.
  rewrite He, Ht, Hd.
  destruct (runDirectives_line l (directivesOf text lineStarts) emptyAssertions)
    as (Ht' & He' & Hd').
  rewrite Ht', He', Hd'. simpl. repeat split.
Qed.

Lemma set_has_In (l : nat) (s : list nat) : set_has l s = true <-> In l s.
Proof.
  unfold set_has. rewrite existsb_exists. split.
  - intros [x [Hin Heq]]. apply Nat.eqb_eq in Heq. subst x. exact Hin.
  - intros Hin. exists l. split; [exact Hin | apply Nat.eqb_refl].
Qed.

(** A directive that is not a type directive of line [l] leaves the entry
    of [l] alone. *)
Lemma applyDirective_entry_kept (l : nat) (a : Assertions)
      (d : nat * Directive * option jsstring) :
  isTypeOn l d = false ->
  map_get l (typeAssertions (applyDirective a (fst (fst d)) (snd (fst d)) (snd d)))
  = map_get l (typeAssertions a).
Proof.
  destruct d as [[l' k] p]. unfold isTypeOn, applyDirective. cbn [fst snd].
  intros Hnot.
  destruct k; try reflexivity;
    (destruct (truthy p) as [payload|]; [|reflexivity]);
    rewrite andb_true_r in Hnot; apply Nat.eqb_neq in Hnot;
    unfold map_delete; destruct (map_has l' (typeAssertions a));
    cbn [typeAssertions];
    rewrite ?map_get_set_other, ?map_get_remove_other by congruence; reflexivity.
Qed.

Lemma runDirectives_entry_kept (l : nat) (ds : list (nat * Directive * option jsstring)) :
  forall a,
    countTypeOn l ds = 0 ->
    map_get l (typeAssertions (runDirectives a ds)) = map_get l (typeAssertions a).
Proof.
  induction ds as [|d ds IH]; intros a Hcount; [reflexivity|].
  rewrite countTypeOn_cons in Hcount.
  destruct (isTypeOn l d) eqn:E; [discriminate|].
  unfold runDirectives. cbn [fold_left].
  fold (runDirectives (applyDirective a (fst (fst d)) (snd (fst d)) (snd d)) ds).
  rewrite IH by exact Hcount. apply applyDirective_entry_kept. exact E.
Qed.

(** A type directive of line [l] that finds no entry sets its assertion. *)
Lemma applyDirective_entry_set (l : nat) (a : Assertions)
      (d : nat * Directive * option jsstring) (payload : jsstring) :
  isTypeOn l d = true ->
  truthy (snd d) = Some payload ->
  map_get l (typeAssertions a) = None ->
  map_get l (typeAssertions (applyDirective a (fst (fst d)) (snd (fst d)) (snd d)))
  = Some (assertionOfDirective (snd (fst d)) payload).
Proof.
  destruct d as [[l' k] p]. unfold isTypeOn, applyDirective. cbn [fst snd].
  intros Hon Hpayload Hnone. apply andb_true_iff in Hon. destruct Hon as [Hl Hk].
  apply Nat.eqb_eq in Hl. subst l'. apply map_has_false in Hnone.
  destruct k; try discriminate; rewrite Hpayload; unfold map_delete; rewrite Hnone;
    cbn [typeAssertions]; apply map_get_set_same.
Qed.

Lemma countTypeOn_app (l : nat) (ds1 ds2 : list (nat * Directive * option jsstring)) :
  countTypeOn l (ds1 ++ ds2) = countTypeOn l ds1 + countTypeOn l ds2.
Proof. unfold countTypeOn. rewrite filter_app, length_app. reflexivity. Qed.

Lemma runDirectives_app (a : Assertions) (ds1 ds2 : list (nat * Directive * option jsstring)) :
  runDirectives a (ds1 ++ ds2) = runDirectives (runDirectives a ds1) ds2.
Proof. unfold runDirectives. apply fold_left_app. Qed.

(** The assertion of the only type directive of a line is the entry of the
    line. *)
Lemma runDirectives_single_type (l : nat) (ds : list (nat * Directive * option jsstring))
      (d : nat * Directive * option jsstring) (payload : jsstring) :
  In d ds ->
  isTypeOn l d = true ->
  truthy (snd d) = Some payload ->
  countTypeOn l ds = 1 ->
  map_get l (typeAssertions (runDirectives emptyAssertions ds))
  = Some (assertionOfDirective (snd (fst d)) payload).
Proof.
  intros Hin Hon Hpayload Hcount.
  destruct (in_split d ds Hin) as (ds1 & ds2 & ->).
  rewrite countTypeOn_app, countTypeOn_cons, Hon in Hcount.
  rewrite runDirectives_app. unfold runDirectives at 1. cbn [fold_left].
  fold (runDirectives (applyDirective (runDirectives emptyAssertions ds1)
                                      (fst (fst d)) (snd (fst d)) (snd d)) ds2).
  rewrite runDirectives_entry_kept by lia.
  apply applyDirective_entry_set; [exact Hon | exact Hpayload |].
  rewrite runDirectives_entry_kept by lia. reflexivity.
Qed.

(** C9.  A line with one [$ExpectError] directive and one well-formed
    [$ExpectType] or [$ExpectTypeSnapshot] directive: after parsing, the
    line is in the error-line set, the type-assertion map has the assertion
    of the type directive for it, and the line is not among the
    duplicates. *)
Theorem error_and_type_share_a_line (text : jsstring) (lineStarts : list nat) (l : nat)
        (d : nat * Directive * option jsstring) (payload : jsstring) :
  let ds := directivesOf text lineStarts in
  let r := parseAssertions text lineStarts in
  In d ds ->
  isTypeOn l d = true ->
  truthy (snd d) = Some payload ->
  countTypeOn l ds = 1 ->
  countErrorOn l ds = 1 ->
  In l (errorLines r)
  /\ map_get l (typeAssertions r) = Some (assertionOfDirective (snd (fst d)) payload)
  /\ ~ In l (duplicates r).
Proof.
  intros ds r Hin Hon Hpayload HnT HnE.
  destruct (parseAssertions_line text lineStarts l) as (_ & He & Hd).
  cbv zeta in He, Hd. fold ds r in He, Hd.
  destruct (parse_directives text lineStarts) as (_ & Ht & _).
  cbv zeta in Ht. fold ds r in Ht.
  rewrite HnE in He, Hd. rewrite HnT in Hd. simpl in He, Hd.
  split; [apply set_has_In; exact He|]. split.
  - rewrite Ht. apply (runDirectives_single_type l ds d payload Hin Hon Hpayload HnT).
  - apply (count_occ_not_In Nat.eq_dec). exact Hd.
Qed.

Lemma error_and_type_share_a_line_witness :
  In (1, Type_, Some (lit "A"))
     (directivesOf typeAndErrorSource (computeLineStarts typeAndErrorSource))
  /\ map_get 1 (typeAssertions (parseSourceText typeAndErrorSource))
     = Some (manual (lit "A"))
  /\ In 1 (errorLines (parseSourceText typeAndErrorSource)).
Proof.
  assert (Hin : In (1, Type_, Some (lit "A"))
                   (directivesOf typeAndErrorSource (computeLineStarts typeAndErrorSource))).
  { vm_compute. left. reflexivity. }
  destruct (error_and_type_share_a_line
              typeAndErrorSource (computeLineStarts typeAndErrorSource) 1
              (1, Type_, Some (lit "A")) (lit "A")
              Hin eq_refl eq_refl eq_refl eq_refl) as (Herr & Hget & _).
  split; [exact Hin|]. split; [exact Hget | exact Herr].
Defined.

(** ** At most two directives for a line *)

(** *** The line table is sorted *)
Lemma lineStartsFrom_sorted (s : jsstring) :
  forall idx, StronglySorted lt (lineStartsFrom idx s)
              /\ Forall (fun x => idx < x) (lineStartsFrom idx s).
Proof.
  induction s as [|c s IH]; intros idx; simpl.
  - split; constructor.
  - destruct (IH (S idx)) as [Hs Hf].
    assert (Hf' : Forall (fun x => idx < x) (lineStartsFrom (S idx) s)).
    { eapply Forall_impl; [|exact Hf]. simpl. intros; lia. }
    assert (Hcons : StronglySorted lt (S idx :: lineStartsFrom (S idx) s)
                    /\ Forall (fun x => idx < x) (S idx :: lineStartsFrom (S idx) s)).
    { split; constructor; auto. }
    destruct (Ascii.eqb c LF); [exact Hcons|].
    destruct (Ascii.eqb c CR); [|split; assumption].
    destruct s as [|c' s']; [exact Hcons|].
    destruct (Ascii.eqb c' LF); [split; assumption | exact Hcons].
Qed.

Lemma computeLineStarts_sorted (text : jsstring) :
  StronglySorted lt (computeLineStarts text).
Proof.
  unfold computeLineStarts. destruct (lineStartsFrom_sorted text 0) as [Hs Hf].
  constructor; assumption.
Qed.

Lemma lineStartsFrom_tail (c : ascii) (s : jsstring) (idx x : nat) :
  In x (lineStartsFrom (S idx) s) -> In x (lineStartsFrom idx (c :: s)).
Proof.
  intros Hin. simpl.
  destruct (Ascii.eqb c LF); [right; exact Hin|].
  destruct (Ascii.eqb c CR); [|exact Hin].
  destruct s as [|c' s']; [right; exact Hin|].
  destruct (Ascii.eqb c' LF); [exact Hin | right; exact Hin].
Qed.

Lemma sorted_nth_lt (l : list nat) :
  StronglySorted lt l ->
  forall i j a b, i < j -> nth_error l i = Some a -> nth_error l j = Some b -> a < b.
Proof.
  induction 1 as [|x l Hs IH Hf]; intros i j a b Hij Ha Hb.
  - destruct i; discriminate.
  - destruct j as [|j]; [lia|]. simpl in Hb. destruct i as [|i]; simpl in Ha.
    + injection Ha as <-. rewrite Forall_forall in Hf. apply Hf.
      eapply nth_error_In; eauto.
    + eapply IH; [|eauto|eauto]. lia.
Qed.

Lemma advanceLine_ge (fuel : nat) :
  forall lineStarts pos curLine, curLine <= advanceLine fuel lineStarts pos curLine.
Proof.
  induction fuel as [|fuel IH]; intros lineStarts pos curLine; simpl; [lia|].
  destruct (nth_error lineStarts (curLine + 1)) as [start|]; [|lia].
  destruct (start <=? pos); [|lia].
  specialize (IH lineStarts pos (curLine + 1)). lia.
Qed.

Lemma advanceLine_lower (fuel : nat) :
  forall lineStarts pos curLine a,
    nth_error lineStarts curLine = Some a ->
    a <= pos ->
    exists b, nth_error lineStarts (advanceLine fuel lineStarts pos curLine) = Some b
              /\ b <= pos.
Proof.
  induction fuel as [|fuel IH]; intros lineStarts pos curLine a Ha Hle; simpl.
  - exists a. auto.
  - destruct (nth_error lineStarts (curLine + 1)) as [start|] eqn:E; [|exists a; auto].
    destruct (start <=? pos) eqn:Hs; [|exists a; auto].
    apply Nat.leb_le in Hs. apply (IH lineStarts pos (curLine + 1) start E Hs).
Qed.

Lemma advanceLine_strict (lineStarts : list nat) (pos curLine a x : nat) :
  StronglySorted lt lineStarts ->
  nth_error lineStarts curLine = Some a ->
  In x lineStarts ->
  a < x ->
  x <= pos ->
  curLine < advanceLine (length lineStarts) lineStarts pos curLine.
Proof.
  intros Hsorted Ha Hin Hax Hx.
  destruct (In_nth_error _ _ Hin) as [j Hj].
  assert (Hcj : curLine < j).
  { destruct (Nat.lt_ge_cases curLine j) as [|Hge]; [assumption|].
    destruct (Nat.eq_dec j curLine) as [->|Hne]; [rewrite Hj in Ha; injection Ha; lia|].
    assert (x < a) by (eapply (sorted_nth_lt _ Hsorted j curLine); eauto; lia). lia. }
  assert (Hlen : j < length lineStarts) by (apply nth_error_Some; congruence).
  destruct (nth_error lineStarts (curLine + 1)) as [y|] eqn:Ey.
  2: { apply nth_error_None in Ey. lia. }
  assert (Hy : y <= x).
  { destruct (Nat.eq_dec j (curLine + 1)) as [->|Hne]; [rewrite Hj in Ey; injection Ey; lia|].
    assert (y < x) by (eapply (sorted_nth_lt _ Hsorted (curLine + 1) j); eauto; lia). lia. }
  destruct (length lineStarts) as [|fuel] eqn:El; [lia|].
  simpl. rewrite Ey.
  assert (Hle : (y <=? pos) = true) by (apply Nat.leb_le; lia).
  rewrite Hle. pose proof (advanceLine_ge fuel lineStarts pos (curLine + 1)). lia.
Qed.

Section Physical.

Variable text : jsstring.
Variable lineStarts : list nat.
Hypothesis Hsorted : StronglySorted lt lineStarts.

Lemma physicalLines_ge (cms : list (nat * jsstring)) :
  forall cur, Forall (fun r => cur <= r) (physicalLines text lineStarts cur cms).
Proof.
  induction cms as [|[idx c] cms IH]; intros cur; simpl; constructor.
  - unfold getLine. simpl. apply advanceLine_ge.
  - eapply Forall_impl; [|apply IH]. simpl. intros r Hr.
    pose proof (advanceLine_ge (length lineStarts) lineStarts idx cur).
    unfold getLine in Hr. simpl in Hr. lia.
Qed.

Lemma physicalLines_sorted (cms : list (nat * jsstring)) :
  forall cur a,
    nth_error lineStarts cur = Some a ->
    (forall idx c tl, cms = (idx, c) :: tl -> a <= idx) ->
    separatedBy lineStarts cms ->
    StronglySorted lt (physicalLines text lineStarts cur cms).
Proof.
  induction cms as [|[idx1 c1] cms IH]; intros cur a Ha Hfirst Hsep; simpl.
  - constructor.
  - assert (Hle : a <= idx1) by (eapply Hfirst; reflexivity).
    destruct (advanceLine_lower (length lineStarts) lineStarts idx1 cur a Ha Hle)
      as (b & Hb & Hb').
    change (snd (getLine text lineStarts cur idx1))
      with (advanceLine (length lineStarts) lineStarts idx1 cur).
    set (r1 := advanceLine (length lineStarts) lineStarts idx1 cur) in *.
    destruct cms as [|[idx2 c2] cms'].
    + simpl. constructor; constructor.
    + destruct Hsep as [(x & Hx & Hlo & Hhi) Hsep'].
      constructor.
      * apply (IH r1 b Hb); [|exact Hsep'].
        intros idx c tl Heq. injection Heq as <- _ _. lia.
      * cbn [physicalLines].
        change (snd (getLine text lineStarts r1 idx2))
          with (advanceLine (length lineStarts) lineStarts idx2 r1).
        assert (Hstrict : r1 < advanceLine (length lineStarts) lineStarts idx2 r1).
        { apply (advanceLine_strict lineStarts idx2 r1 b x Hsorted Hb Hx); lia. }
        constructor; [exact Hstrict|].
        eapply Forall_impl; [|apply physicalLines_ge]. simpl. intros r Hr. lia.
Qed.

End Physical.

(** *** Counting on a sorted list *)
Lemma sorted_interval_count (P : list nat) :
  StronglySorted lt P ->
  forall lo hi, length (filter (fun r => (lo <=? r) && (r <=? hi)) P) <= hi + 1 - lo.
Proof.
  induction 1 as [|r P Hs IH Hf]; intros lo hi; simpl; [lia|].
  destruct ((lo <=? r) && (r <=? hi)) eqn:E; [|apply IH].
  apply andb_true_iff in E. destruct E as [Hlo Hhi].
  apply Nat.leb_le in Hlo. apply Nat.leb_le in Hhi. simpl.
  rewrite (filter_ext_in _ (fun x => (S r <=? x) && (x <=? hi))).
  - specialize (IH (S r) hi). lia.
  - intros x Hx. rewrite Forall_forall in Hf. specialize (Hf x Hx).
    replace (lo <=? x) with true by (symmetry; apply Nat.leb_le; lia).
    replace (S r <=? x) with true by (symmetry; apply Nat.leb_le; lia).
    reflexivity.
Qed.

Lemma filter_length_le {A : Type} (f g : A -> bool) (l : list A) :
  (forall x, f x = true -> g x = true) ->
  length (filter f l) <= length (filter g l).
Proof.
  intros Hfg. induction l as [|x l IH]; simpl; [lia|].
  destruct (f x) eqn:E.
  - rewrite (Hfg x E). simpl. lia.
  - destruct (g x); simpl; lia.
Qed.

Lemma sorted_near_count (P : list nat) :
  StronglySorted lt P -> forall l, length (filter (near l) P) <= 2.
Proof.
  intros Hs l.
  pose proof (sorted_interval_count P Hs (l - 1) l) as Hint.
  pose proof (filter_length_le (near l) (fun r => (l - 1 <=? r) && (r <=? l)) P) as Hle.
  assert (length (filter (near l) P)
          <= length (filter (fun r => (l - 1 <=? r) && (r <=? l)) P)).
  { apply Hle. intros x Hx. unfold near in Hx. apply orb_true_iff in Hx.
    apply andb_true_iff. split; apply Nat.leb_le;
      destruct Hx as [Hx|Hx]; apply Nat.eqb_eq in Hx; lia. }
  lia.
Qed.

(** The directives of a line are comments of that line or of the line
    before. *)
Lemma directives_count_bound (text : jsstring) (lineStarts : list nat)
      (cms : list (nat * jsstring)) (l : nat) :
  forall cur,
    countTypeOn l (directivesFrom text lineStarts cur cms)
    + countErrorOn l (directivesFrom text lineStarts cur cms)
    <= length (filter (near l) (physicalLines text lineStarts cur cms)).
Proof.
  induction cms as [|[idx c] cms IH]; intros cur; [reflexivity|].
  cbn [directivesFrom physicalLines filter].
  specialize (IH (snd (getLine text lineStarts cur idx))).
  assert (Hline : fst (getLine text lineStarts cur idx) = snd (getLine text lineStarts cur idx)
                  \/ fst (getLine text lineStarts cur idx)
                     = snd (getLine text lineStarts cur idx) + 1).
  { unfold getLine. cbn [fst snd].
    destruct (nth_error _ _); [destruct (isFirstOnLine _ _ _)|]; auto. }
  destruct (getLine text lineStarts cur idx) as [line cur'] eqn:Eg. cbn [fst snd] in *.
  assert (Hnear : forall d p,
             (if isTypeOn l (line, d, p) then 1 else 0)
             + (if isErrorOn l (line, d, p) then 1 else 0)
             <= if near l cur' then 1 else 0).
  { intros d p. unfold isTypeOn, isErrorOn, near. cbn [fst snd].
    destruct (Nat.eqb line l) eqn:El.
    - apply Nat.eqb_eq in El.
      assert (Hn : Nat.eqb cur' l || Nat.eqb (cur' + 1) l = true).
      { apply orb_true_iff. destruct Hline; [left | right]; apply Nat.eqb_eq; lia. }
      rewrite Hn. destruct d, (truthy p); simpl; lia.
    - simpl. lia. }
  destruct (matchExpect c) as [[d p]|].
  - cbn [directivesFrom]. rewrite countTypeOn_cons, countErrorOn_cons.
    specialize (Hnear d p).
    destruct (isTypeOn l (line, d, p)), (isErrorOn l (line, d, p)), (near l cur');
      cbn [length] in *; lia.
  - destruct (near l cur'); cbn [length]; lia.
Qed.

(** *** Successive comments are on different lines *)
Lemma dotStar_end (s : jsstring) :
  match nth_error s (length (dotStar s)) with
  | Some t => isLineTerminator t = true
  | None => True
  end.
Proof.
  induction s as [|c s IH]; simpl; [exact I|].
  destruct (isLineTerminator c) eqn:E; simpl; [exact E | exact IH].
Qed.

Lemma slash_not_terminator : isLineTerminator "/"%char = false.
Proof. reflexivity. Qed.

Lemma startsWith_slashes (c : ascii) (rest : jsstring) :
  startsWith (c :: rest) (lit "//") = true ->
  c = "/"%char /\ exists rest', rest = "/"%char :: rest'.
Proof.
  unfold lit. cbn [list_ascii_of_string startsWith].
  intros H. apply andb_true_iff in H. destruct H as [H1 H2].
  apply Ascii.eqb_eq in H1. split; [congruence|].
  destruct rest as [|c' rest']; [discriminate|].
  apply andb_true_iff in H2. destruct H2 as [H2 _]. apply Ascii.eqb_eq in H2.
  exists rest'. congruence.
Qed.

Lemma scanComments_index (s : jsstring) :
  forall idx skip c body,
    In (c, body) (scanComments idx skip s) ->
    idx + skip <= c /\ nth_error s (c - idx) = Some "/"%char.
Proof.
  induction s as [|ch rest IH]; intros idx skip c body Hin; [destruct Hin|].
  assert (Hcont : forall k, In (c, body) (scanComments (S idx) k rest) ->
                            S idx + k <= c /\ nth_error (ch :: rest) (c - idx) = Some "/"%char).
  { intros k Hk. destruct (IH (S idx) k c body Hk) as [Hle Hnth]. split; [exact Hle|].
    replace (c - idx) with (S (c - S idx)) by lia. exact Hnth. }
  cbn [scanComments] in Hin. destruct skip as [|k].
  - destruct (startsWith (ch :: rest) (lit "//")) eqn:E.
    + destruct Hin as [Heq|Hin].
      * injection Heq as <- _. split; [lia|]. rewrite Nat.sub_diag. simpl.
        destruct (startsWith_slashes _ _ E) as [-> _]. reflexivity.
      * destruct (Hcont _ Hin) as [Hle Hnth]. split; [lia | exact Hnth].
    + destruct (Hcont _ Hin) as [Hle Hnth]. split; [lia | exact Hnth].
  - destruct (Hcont _ Hin) as [Hle Hnth]. split; [lia | exact Hnth].
Qed.

Lemma separatedBy_mono (L1 L2 : list nat) (cms : list (nat * jsstring)) :
  (forall x, In x L1 -> In x L2) -> separatedBy L1 cms -> separatedBy L2 cms.
Proof.
  intros Hsub. induction cms as [|[i1 c1] tl IH]; simpl; [auto|].
  destruct tl as [|[i2 c2] tl']; [auto|].
  intros [(x & Hx & Hb) Hrest]. split; [exists x; auto | apply IH; exact Hrest].
Qed.

Lemma Forall_firstn_nth {A : Type} (P : A -> Prop) (l : list A) (n i : nat) (t : A) :
  Forall P (firstn n l) -> i < n -> nth_error l i = Some t -> P t.
Proof.
  intros Hall Hi Hnth. rewrite Forall_forall in Hall. apply Hall.
  apply (nth_error_In _ i). rewrite nth_error_firstn.
  destruct (i <? n) eqn:E; [exact Hnth|]. apply Nat.ltb_ge in E. lia.
Qed.

Lemma lineStart_before (ch : ascii) (rest : jsstring) (idx c : nat) :
  S idx <= c ->
  nth_error rest (c - S idx) = Some "/"%char ->
  (exists x, In x (lineStartsFrom (S idx) rest) /\ x <= c)
  \/ Forall nonTerminator (firstn (c - S idx) rest) ->
  (exists x, In x (lineStartsFrom idx (ch :: rest)) /\ x <= c)
  \/ Forall nonTerminator (firstn (c - idx) (ch :: rest)).
Proof.
  intros Hle Hslash [(x & Hx & Hxc)|Hall].
  - left. exists x. split; [apply lineStartsFrom_tail; exact Hx | exact Hxc].
  - cbn [lineStartsFrom]. destruct (Ascii.eqb ch LF) eqn:ELF.
    { left. exists (S idx). split; [left; reflexivity | exact Hle]. }
    destruct (Ascii.eqb ch CR) eqn:ECR.
    + destruct rest as [|c' rest'].
      { destruct (c - S idx); discriminate. }
      destruct (Ascii.eqb c' LF) eqn:ELF'.
      * left. exists (S (S idx)). split.
        { cbn [lineStartsFrom]. rewrite ELF'. left. reflexivity. }
        destruct (Nat.eq_dec c (S idx)) as [->|Hne]; [|lia].
        rewrite Nat.sub_diag in Hslash. simpl in Hslash. injection Hslash as ->.
        discriminate ELF'.
      * left. exists (S idx). split; [left; reflexivity | exact Hle].
    + right. replace (c - idx) with (S (c - S idx)) by lia. cbn [firstn].
      constructor; [|exact Hall].
      unfold nonTerminator, isLineTerminator. rewrite ELF, ECR. reflexivity.
Qed.

Lemma scan_separated (s : jsstring) :
  forall idx skip,
    separatedBy (lineStartsFrom idx s) (scanComments idx skip s)
    /\ (forall c body tl,
           scanComments idx skip s = (c, body) :: tl ->
           (exists x, In x (lineStartsFrom idx s) /\ x <= c)
           \/ Forall nonTerminator (firstn (c - idx) s)).
Proof.
  induction s as [|ch rest IH]; intros idx skip.
  - simpl. split; [exact I | intros; discriminate].
  - assert (Hcont : forall k,
               separatedBy (lineStartsFrom idx (ch :: rest)) (scanComments (S idx) k rest)
               /\ (forall c body tl,
                      scanComments (S idx) k rest = (c, body) :: tl ->
                      (exists x, In x (lineStartsFrom idx (ch :: rest)) /\ x <= c)
                      \/ Forall nonTerminator (firstn (c - idx) (ch :: rest)))).
    { intros k. destruct (IH (S idx) k) as [HA HB]. split.
      - eapply separatedBy_mono; [|exact HA]. intros x. apply lineStartsFrom_tail.
      - intros c body tl Heq.
        destruct (scanComments_index rest (S idx) k c body) as [Hle Hslash].
        { rewrite Heq. left. reflexivity. }
        apply lineStart_before; [lia | exact Hslash | eapply HB; exact Heq]. }
    cbn [scanComments]. destruct skip as [|k]; [|apply Hcont].
    destruct (startsWith (ch :: rest) (lit "//")) eqn:E; [|apply Hcont].
    destruct (startsWith_slashes _ _ E) as [-> [rest' ->]].
    cbn [skipn].
    destruct (Hcont (S (length (dotStar rest')))) as [HA HB].
    split.
    + cbn [separatedBy].
      destruct (scanComments (S idx) (S (length (dotStar rest'))) ("/"%char :: rest'))
        as [|[c2 b2] tl'] eqn:Escan; [exact I|].
      split; [|exact HA].
      destruct (scanComments_index ("/"%char :: rest') (S idx) (S (length (dotStar rest')))
                                   c2 b2) as [Hle Hslash].
      { rewrite Escan. left. reflexivity. }
      destruct (IH (S idx) (S (length (dotStar rest')))) as [_ HB'].
      destruct (HB' c2 b2 tl' Escan) as [(x & Hx & Hxc)|Hall].
      * exists x. split; [apply lineStartsFrom_tail; exact Hx|].
        destruct (lineStartsFrom_sorted ("/"%char :: rest') (S idx)) as [_ Hgt].
        rewrite Forall_forall in Hgt. specialize (Hgt x Hx). lia.
      * exfalso.
        pose proof (dotStar_end rest') as Hend.
        destruct (nth_error rest' (length (dotStar rest'))) as [t|] eqn:Et.
        -- destruct (Nat.eq_dec (c2 - S idx) (S (length (dotStar rest')))) as [Heq|Hne].
           ++ rewrite Heq in Hslash. simpl in Hslash. rewrite Et in Hslash.
              injection Hslash as ->. discriminate Hend.
           ++ assert (Hnon : nonTerminator t).
              { apply (Forall_firstn_nth nonTerminator ("/"%char :: rest') (c2 - S idx)
                                         (S (length (dotStar rest'))) t Hall); [lia|].
                simpl. exact Et. }
              unfold nonTerminator in Hnon. congruence.
        -- apply nth_error_None in Et.
           assert (Hsome : c2 - S idx < length ("/"%char :: rest')).
           { apply nth_error_Some. congruence. }
           simpl in Hsome. lia.
    + intros c body tl Heq. injection Heq as <- _ _. right.
      rewrite Nat.sub_diag. constructor.
Qed.

Lemma scan_separated_text (text : jsstring) :
  separatedBy (computeLineStarts text) (scanComments 0 0 text).
Proof.
  destruct (scan_separated text 0 0) as [HA _].
  eapply separatedBy_mono; [|exact HA]. intros x Hx. right. exact Hx.
Qed.

(** A line never has more than two directives: one alone on the line
    before, one behind the code of the line itself. *)
Lemma at_most_two_directives (text : jsstring) (l : nat) :
  countTypeOn l (directivesOf text (computeLineStarts text))
  + countErrorOn l (directivesOf text (computeLineStarts text)) <= 2.
Proof.
  unfold directivesOf.
  etransitivity; [apply directives_count_bound|].
  apply sorted_near_count.
  apply (physicalLines_sorted text (computeLineStarts text)
                              (computeLineStarts_sorted text)
                              (scanComments 0 0 text) 0 0).
  - reflexivity.
  - intros; lia.
  - apply scan_separated_text.
Qed.

(** A pair of directives of one family, for any line table. *)
Lemma directive_pair_on_a_line (text : jsstring) (lineStarts : list nat) (l : nat) :
  let ds := directivesOf text lineStarts in
  let r := parseAssertions text lineStarts in
  (countTypeOn l ds = 2 -> countErrorOn l ds <= 1 ->
   map_get l (typeAssertions r) = None
   /\ count_occ Nat.eq_dec (duplicates r) l = 1)
  /\ (countErrorOn l ds = 2 -> countTypeOn l ds <= 1 ->
      In l (errorLines r)
      /\ count_occ Nat.eq_dec (duplicates r) l = 1).
Proof.
  intros ds r.
  destruct (parseAssertions_line text lineStarts l) as (Ht & He & Hd).
  cbv zeta in Ht, He, Hd. fold ds r in Ht, He, Hd.
  split.
  - intros HnT HnE. rewrite HnT in Ht, Hd. simpl in Ht, Hd. split.
    + apply map_has_false. exact Ht.
    + rewrite Hd. lia.
  - intros HnE HnT. rewrite HnE in He, Hd. simpl in He, Hd. split.
    + apply set_has_In. exact He.
    + rewrite Hd.
      destruct (countTypeOn l ds) as [|[|n]]; simpl; lia.
Qed.

(** C2, as the program has it.  Take a source text with its line table and
    a line that has two or more directives of one family (a line never has
    more than two directives).  If they are of the type family, each with
    its payload, the type-assertion map has no entry for the line after
    parsing.  If they are [$ExpectError] directives, the line stays in the
    error-line set.  In both cases the line is in [duplicates] exactly
    once. *)
Theorem duplicate_directives_on_a_line (text : jsstring) (l : nat) :
  let ds := directivesOf text (computeLineStarts text) in
  let r := parseSourceText text in
  (2 <= countTypeOn l ds ->
   map_get l (typeAssertions r) = None
   /\ count_occ Nat.eq_dec (duplicates r) l = 1)
  /\ (2 <= countErrorOn l ds ->
      In l (errorLines r)
      /\ count_occ Nat.eq_dec (duplicates r) l = 1).
Proof.
  intros ds r.
  pose proof (at_most_two_directives text l) as Htwo. fold ds in Htwo.
  destruct (directive_pair_on_a_line text (computeLineStarts text) l) as [Htypes Herrors].
  cbv zeta in Htypes, Herrors. fold ds in Htypes, Herrors.
  split.
  - intros H. apply Htypes; lia.
  - intros H. apply Herrors; lia.
Qed.

Lemma duplicate_directives_on_a_line_witness :
  2 <= countTypeOn 1 (directivesOf twoTypesSource (computeLineStarts twoTypesSource))
  /\ map_get 1 (typeAssertions (parseSourceText twoTypesSource)) = None
  /\ 2 <= countErrorOn 1 (directivesOf twoErrorsSource (computeLineStarts twoErrorsSource))
  /\ In 1 (errorLines (parseSourceText twoErrorsSource)).
Proof.
  destruct (duplicate_directives_on_a_line twoTypesSource 1) as (Htypes & _).
  destruct (duplicate_directives_on_a_line twoErrorsSource 1) as (_ & Herrors).
  assert (H1 : 2 <= countTypeOn 1 (directivesOf twoTypesSource
                                                (computeLineStarts twoTypesSource)))
    by (vm_compute; lia).
  assert (H2 : 2 <= countErrorOn 1 (directivesOf twoErrorsSource
                                                 (computeLineStarts twoErrorsSource)))
    by (vm_compute; lia).
  split; [exact H1|]. split; [exact (proj1 (Htypes H1))|].
  split; [exact H2|]. exact (proj1 (Herrors H2)).
Defined.

(** The specification has a doubled [$ExpectError] line dropped from the
    error-line set.  On [twoErrorsSource] the line with the two comments is
    kept in the set, and [validate] still asks for a diagnostic on it. *)
Lemma duplicated_error_line_stays_expected :
  directivesOf twoErrorsSource (computeLineStarts twoErrorsSource)
  = [(1, Error_, None); (1, Error_, None)]
  /\ duplicates (parseSourceText twoErrorsSource) = [1]
  /\ errorLines (parseSourceText twoErrorsSource) = [1]
  /\ In (lineReport ExpectedErrorNotFound 1)
        (reportsMade
           (validate sampleLineOfPosition sampleTypeToString sampleQuickInfo
                     (option Z) sampleIsDiagnosticWithStart (lit "file.ts")
                     (Some (mkSourceFile twoErrorsSource
                                         (computeLineStarts twoErrorsSource) sampleRoot))
                     [] [])).
Proof.
  split; [vm_compute; reflexivity|]. split; [vm_compute; reflexivity|].
  split; [vm_compute; reflexivity|].
  vm_compute. right. left. reflexivity.
Qed.

(** ** Continuation lines of a caret assertion *)

Section Continuation.

Variable sourceText : jsstring.
Variable lineStarts : list nat.
Variable commentLine : nat.
Variable prefix : jsstring.

(** What a continuation line adds to the expected text: its text behind
    the prefix, line terminator included. *)
Local Abbreviation rest :=
  (fun i => sliceFrom (lineTextAt sourceText lineStarts i) (length prefix)).

(** The loop on the lines behind the first continuation line: [k] lines
    that start with the prefix, then the end of the table or a line that
    does not. *)
Lemma continuation_tail (k : nat) :
  forall n start e r,
    commentLine < start ->
    k <= n ->
    (forall j, j < k ->
               startsWith (lineTextAt sourceText lineStarts (start + j)) prefix = true) ->
    (k < n -> startsWith (lineTextAt sourceText lineStarts (start + k)) prefix = false) ->
    continuation sourceText lineStarts commentLine prefix (seq start n) (e, r)
    = (e ++ concat (map rest (seq start k)),
       match k with
       | 0 => r
       | S k' => lineEnd sourceText lineStarts (start + k')
       end).
Proof.
  induction k as [|k IH]; intros n start e r Hstart Hkn Hyes Hno.
  - simpl. rewrite app_nil_r. destruct n as [|n]; [reflexivity|].
    simpl. rewrite Nat.add_0_r in Hno. rewrite Hno by lia. reflexivity.
  - destruct n as [|n]; [lia|]. cbn [seq continuation].
    assert (Hhead : startsWith (lineTextAt sourceText lineStarts start) prefix = true).
    { rewrite <- (Nat.add_0_r start). apply Hyes. lia. }
    rewrite Hhead. cbn [fst].
    assert (Hne : (start =? commentLine) = false) by (apply Nat.eqb_neq; lia).
    rewrite Hne.
    rewrite (IH n (S start) _ _); try lia.
    + cbn [map concat]. rewrite <- app_assoc. f_equal.
      destruct k as [|k]; [rewrite Nat.add_0_r; reflexivity|].
      f_equal. lia.
    + intros j Hj. replace (S start + j) with (start + S j) by lia. apply Hyes. lia.
    + intros Hlt. replace (S start + k) with (start + S k) by lia. apply Hno. lia.
Qed.

(** The whole loop, from the line [commentLine] on. *)
Lemma continuation_run (k n : nat) (e : jsstring) (r : Z) :
  1 <= k ->
  k <= n ->
  (forall j, j < k ->
             startsWith (lineTextAt sourceText lineStarts (commentLine + j)) prefix = true) ->
  (k < n -> startsWith (lineTextAt sourceText lineStarts (commentLine + k)) prefix = false) ->
  continuation sourceText lineStarts commentLine prefix (seq commentLine n) (e, r)
  = (e ++ [LF] ++ concat (map rest (seq commentLine k)),
     lineEnd sourceText lineStarts (commentLine + k - 1)).
Proof.
  intros Hk Hkn Hyes Hno.
  destruct k as [|k]; [lia|]. destruct n as [|n]; [lia|].
  cbn [seq continuation].
  assert (Hhead : startsWith (lineTextAt sourceText lineStarts commentLine) prefix = true).
  { rewrite <- (Nat.add_0_r commentLine). apply Hyes. lia. }
  rewrite Hhead, Nat.eqb_refl. cbn [fst].
  rewrite (continuation_tail k n (S commentLine)); try lia.
  - cbn [map concat]. rewrite <- !app_assoc. f_equal.
    destruct k as [|k].
    + f_equal. lia.
    + f_equal. lia.
  - intros j Hj. replace (S commentLine + j) with (commentLine + S j) by lia.
    apply Hyes. lia.
  - intros Hlt. replace (S commentLine + k) with (commentLine + S k) by lia.
    apply Hno. lia.
Qed.

End Continuation.

Lemma seq_from (start len : nat) :
  seq start len = map (fun j => start + j) (seq 0 len).
Proof.
  revert start. induction len as [|len IH]; intros start; simpl; [reflexivity|].
  rewrite Nat.add_0_r. f_equal. rewrite (IH (S start)), (IH 1), map_map.
  apply map_ext. intros j. lia.
Qed.

(** The look-ahead on any text and any line table.  A caret comment that
    is not attributed to line 1, followed by [k >= 1] lines that start with
    the continuation prefix and then by the end of the table or by a line
    that does not: the expected text is the first fragment, one line feed,
    and what stands behind the prefix on each of the [k] lines, up to the
    start of the next line of the table. *)
Lemma continuation_lines_taken
        (comment : jsstring) (commentIndex commentLine : nat)
        (sourceText : jsstring) (lineStarts : list nat)
        (whitespace rawPayload : jsstring) (k : nat) :
  matchTwoslash comment = Some (whitespace, rawPayload) ->
  negb (length rawPayload =? 0) && negb (isChar (charAt rawPayload 0) SP) = false ->
  commentLine <> 1 ->
  let prefix :=
    continuationPrefix sourceText lineStarts commentIndex commentLine whitespace in
  let lineText := lineTextAt sourceText lineStarts in
  1 <= k ->
  commentLine + k <= length lineStarts ->
  (forall j, j < k -> startsWith (lineText (commentLine + j)) prefix = true) ->
  (commentLine + k < length lineStarts ->
   startsWith (lineText (commentLine + k)) prefix = false) ->
  exists t,
    parseTwoslashAssertion comment commentIndex commentLine sourceText lineStarts
    = Some (inr t)
    /\ expected t
       = sliceFrom rawPayload 1 ++ [LF]
         ++ concat (map (fun j => sliceFrom (lineText (commentLine + j)) (length prefix))
                        (seq 0 k))
    /\ snd (expectedRange t) = lineEnd sourceText lineStarts (commentLine + k - 1)
    /\ expectedPrefix t = prefix.
Proof.
  intros Hmatch Hvalid Hline prefix lineText Hk Hlen Hyes Hno.
  unfold parseTwoslashAssertion. rewrite Hmatch, Hvalid.
  apply Nat.eqb_neq in Hline. rewrite Hline. cbv zeta. fold prefix.
  rewrite (continuation_run sourceText lineStarts commentLine prefix k
                            (length lineStarts - commentLine)); try lia.
  - rewrite (seq_from commentLine k), map_map.
    destruct (_ <? _)%Z; eexists; (split; [reflexivity|]); cbn [expected expectedRange
      expectedPrefix snd]; repeat split.
  - exact Hyes.
  - intros Hlt. apply Hno. lia.
Qed.


Lemma startsWith_app (p t : jsstring) : startsWith (p ++ t) p = true.
Proof.
  induction p as [|c p IH]; [destruct t; reflexivity|].
  cbn [app startsWith]. rewrite Ascii.eqb_refl. exact IH.
Qed.

(** Fragments that each bring a line feed along, the last one excepted,
    are the fragments joined by line feeds. *)
Lemma concat_joinLF (fragment ended : nat -> jsstring) (k : nat) :
  forall start,
    (forall j, start <= j < start + k -> ended j = [LF]) ->
    concat (map (fun j => fragment j ++ ended j) (seq start (S k)))
    = joinLF (map fragment (seq start (S k))) ++ ended (start + k).
Proof.
  induction k as [|k IH]; intros start Hended.
  - cbn [seq map concat joinLF]. rewrite app_nil_r, Nat.add_0_r. reflexivity.
  - change (seq start (S (S k))) with (start :: seq (S start) (S k)).
    cbn [map concat]. rewrite (IH (S start)) by (intros j Hj; apply Hended; lia).
    rewrite (Hended start) by lia.
    change (seq (S start) (S k)) with (S start :: seq (S (S start)) k).
    cbn [map joinLF]. rewrite <- !app_assoc. cbn [app].
    replace (S start + k) with (start + S k) by lia. reflexivity.
Qed.

(** C3, as the program has it by design.  A caret comment that is not
    attributed to line 1 (on line 1 the look-ahead is not made), followed by
    [k >= 1] lines that start with the continuation prefix (the comment line
    before the caret, and three spaces) and then by the end of the table or
    by a line that does not.  Each of the [k] lines is the prefix, a
    fragment free of line terminators and a single line feed, or the end of
    the text for the last line of the table.  The expected text is the
    [k + 1] fragments joined by single line feeds, followed by the line
    feed of the last of the [k] lines when that line has one.  The end of
    the expected range is the end of that line, and no later line is taken
    in.  Lines ended otherwise are left out of the statement. *)
Theorem caret_continuation_lines
        (comment : jsstring) (commentIndex commentLine : nat)
        (sourceText : jsstring) (lineStarts : list nat)
        (whitespace rawPayload : jsstring) (k : nat) (fragment : nat -> jsstring) :
  matchTwoslash comment = Some (whitespace, rawPayload) ->
  negb (length rawPayload =? 0) && negb (isChar (charAt rawPayload 0) SP) = false ->
  commentLine <> 1 ->
  let prefix :=
    continuationPrefix sourceText lineStarts commentIndex commentLine whitespace in
  let lineText := lineTextAt sourceText lineStarts in
  let ended := fun i => if i + 1 <? length lineStarts then [LF] else [] in
  1 <= k ->
  commentLine + k <= length lineStarts ->
  (forall j, j < k ->
             lineText (commentLine + j)
             = prefix ++ fragment j ++ ended (commentLine + j)
             /\ Forall nonTerminator (fragment j)) ->
  (commentLine + k < length lineStarts ->
   startsWith (lineText (commentLine + k)) prefix = false) ->
  exists t,
    parseTwoslashAssertion comment commentIndex commentLine sourceText lineStarts
    = Some (inr t)
    /\ expected t
       = joinLF (sliceFrom rawPayload 1 :: map fragment (seq 0 k))
         ++ ended (commentLine + k - 1)
    /\ snd (expectedRange t) = lineEnd sourceText lineStarts (commentLine + k - 1)
    /\ expectedPrefix t = prefix.
Proof.
  intros Hmatch Hvalid Hline prefix lineText ended Hk Hlen Hlines Hno.
  assert (Hyes : forall j, j < k ->
                           startsWith (lineText (commentLine + j)) prefix = true).
  { intros j Hj. rewrite (proj1 (Hlines j Hj)). apply startsWith_app. }
  destruct (continuation_lines_taken comment commentIndex commentLine sourceText
                                     lineStarts whitespace rawPayload k
                                     Hmatch Hvalid Hline Hk Hlen Hyes Hno)
    as (t & Hparse & Hexpected & Hend & Hprefix).
  exists t. split; [exact Hparse|]. split; [|split; [exact Hend | exact Hprefix]].
  rewrite Hexpected. fold prefix lineText.
  assert (Hrest : map (fun j => sliceFrom (lineText (commentLine + j)) (length prefix))
                      (seq 0 k)
                  = map (fun j => fragment j ++ ended (commentLine + j)) (seq 0 k)).
  { apply map_ext_in. intros j Hj. apply in_seq in Hj.
    rewrite (proj1 (Hlines j ltac:(lia))). unfold sliceFrom.
    rewrite skipn_app, Nat.sub_diag, skipn_all. reflexivity. }
  rewrite Hrest.
  destruct k as [|k]; [lia|].
  rewrite (concat_joinLF fragment (fun j => ended (commentLine + j)) k 0).
  - change (seq 0 (S k)) with (0 :: seq 1 k). cbn [map joinLF].
    rewrite <- !app_assoc. cbn [app Nat.add].
    replace (commentLine + S k - 1) with (commentLine + k) by lia. reflexivity.
  - intros j Hj. unfold ended.
    replace (commentLine + j + 1 <? length lineStarts) with true; [reflexivity|].
    symmetry. apply Nat.ltb_lt. lia.
Qed.

Lemma caret_continuation_lines_witness :
  matchTwoslash (lit "  ^? number") = Some (lit "  ", lit " number")
  /\ exists t,
      parseTwoslashAssertion (lit "  ^? number") 11 2 continuedCaretSource
                             (computeLineStarts continuedCaretSource)
      = Some (inr t)
      /\ expected t = lit "number" ++ [LF] ++ lit "| string" ++ [LF]
      /\ snd (expectedRange t) = 40%Z.
Proof.
  split; [reflexivity|].
  destruct (caret_continuation_lines
              (lit "  ^? number") 11 2 continuedCaretSource
              (computeLineStarts continuedCaretSource) (lit "  ") (lit " number") 1
              (fun _ => lit "| string"))
    as (t & Hparse & Hexpected & Hend & _).
  - reflexivity.
  - reflexivity.
  - lia.
  - lia.
  - vm_compute. lia.
  - intros j Hj. assert (j = 0) by lia. subst j. split; [vm_compute; reflexivity|].
    repeat (constructor; [reflexivity|]). constructor.
  - intros _. vm_compute. reflexivity.
  - exists t. split; [exact Hparse|]. split.
    + rewrite Hexpected. vm_compute. reflexivity.
    + rewrite Hend. vm_compute. reflexivity.
Defined.

(** The specification has the fragments joined by single line feeds, with
    none at the end, for every caret assertion followed by lines that
    start with the prefix.  On [continuedCaretSource] the two fragments are
    [number] and [| string], and the parsed expected text is not the two
    joined by one line feed: it has the line feed of the continuation line
    at its end.  On [continuedFirstCaretSource] the caret comment opens the
    file and is attributed to line 1; the line below it starts with the
    comment line before the caret and three spaces, and with the empty
    prefix the assertion records, yet the expected text is the first
    fragment alone. *)
Lemma continued_caret_keeps_line_feed :
  (map expected (twoSlashAssertions (parseSourceText continuedCaretSource))
   = [lit "number" ++ [LF] ++ lit "| string" ++ [LF]]
   /\ map expected (twoSlashAssertions (parseSourceText continuedCaretSource))
      <> [lit "number" ++ [LF] ++ lit "| string"])
  /\ (twoSlashAssertions (parseSourceText continuedFirstCaretSource)
      = [mkTwoSlashAssertion (Num (-1)) (lit "number") (-1, -1)%Z [] false]
      /\ startsWith (lineTextAt continuedFirstCaretSource
                                (computeLineStarts continuedFirstCaretSource) 1)
                    (lit "// " ++ lit "   ") = true
      /\ map expected (twoSlashAssertions (parseSourceText continuedFirstCaretSource))
         <> [lit "number" ++ [LF] ++ lit "| string"]).
Proof.
  split; [split|split; [|split]].
  - vm_compute. reflexivity.
  - vm_compute. intros H. discriminate H.
  - vm_compute. reflexivity.
  - vm_compute. reflexivity.
  - vm_compute. intros H. discriminate H.
Qed.

(** * Further properties *)

(** ** Substrings *)

Lemma startsWith_split (s p : jsstring) :
  startsWith s p = true <-> exists t, s = p ++ t.
Proof.
  revert s. induction p as [|x p IH]; intros s; simpl.
  - split; [intros _; exists s; reflexivity | intros _; destruct s; reflexivity].
  - destruct s as [|y s]; simpl.
    + split; [discriminate | intros [t Ht]; discriminate].
    + split.
      * intros H. apply andb_true_iff in H. destruct H as [Hxy Hrest].
        apply Ascii.eqb_eq in Hxy. subst y.
        apply IH in Hrest. destruct Hrest as [t ->]. exists t. reflexivity.
      * intros [t Ht]. injection Ht as -> ->. apply andb_true_iff. split.
        -- apply Ascii.eqb_refl.
        -- apply IH. exists t. reflexivity.
Qed.

Lemma includes_middle (pre p suf : jsstring) : includes (pre ++ p ++ suf) p = true.
Proof.
  unfold includes. apply existsb_exists. exists (length pre). split.
  - apply in_seq. rewrite !length_app. lia.
  - unfold occursAt. rewrite skipn_app, Nat.sub_diag, skipn_all. simpl.
    apply startsWith_split. exists suf. reflexivity.
Qed.

Lemma includes_elim (s p : jsstring) :
  includes s p = true -> exists pre suf, s = pre ++ p ++ suf.
Proof.
  unfold includes. intros H. apply existsb_exists in H. destruct H as (i & _ & Hi).
  unfold occursAt in Hi. apply startsWith_split in Hi. destruct Hi as [t Ht].
  exists (firstn i s), t. rewrite <- Ht. symmetry. apply firstn_skipn.
Qed.

Lemma dotStar_split (s : jsstring) : exists suf, s = dotStar s ++ suf.
Proof.
  induction s as [|c s [suf IH]]; simpl.
  - exists []. reflexivity.
  - destruct (isLineTerminator c).
    + exists (c :: s). reflexivity.
    + exists suf. simpl. f_equal. exact IH.
Qed.

Lemma dotStar_nonTerminator (s : jsstring) : Forall nonTerminator (dotStar s).
Proof.
  induction s as [|c s IH]; simpl; [constructor|].
  destruct (isLineTerminator c) eqn:E; constructor; assumption.
Qed.

(** ** The scanner *)

Lemma scanComments_body (s : jsstring) :
  forall i0 skip idx c,
    In (idx, c) (scanComments i0 skip s) ->
    i0 + skip <= idx
    /\ exists rest, skipn (idx - i0) s = "/"%char :: "/"%char :: rest /\ c = dotStar rest.
Proof.
  induction s as [|ch rest IH]; intros i0 skip idx c Hin; [destruct Hin|].
  assert (Hcont : forall k, In (idx, c) (scanComments (S i0) k rest) ->
                            S i0 + k <= idx
                            /\ exists r, skipn (idx - i0) (ch :: rest)
                                         = "/"%char :: "/"%char :: r /\ c = dotStar r).
  { intros k Hk. destruct (IH (S i0) k idx c Hk) as [Hle Hbody]. split; [exact Hle|].
    replace (idx - i0) with (S (idx - S i0)) by lia. exact Hbody. }
  cbn [scanComments] in Hin. destruct skip as [|k].
  - destruct (startsWith (ch :: rest) (lit "//")) eqn:E.
    + destruct Hin as [Heq|Hin].
      * injection Heq as <- <-. split; [lia|]. rewrite Nat.sub_diag.
        apply startsWith_split in E. destruct E as [t Ht]. simpl in Ht.
        injection Ht as -> ->. exists t. split; reflexivity.
      * destruct (Hcont _ Hin) as [Hle Hbody]. split; [lia | exact Hbody].
    + destruct (Hcont _ Hin) as [Hle Hbody]. split; [lia | exact Hbody].
  - destruct (Hcont _ Hin) as [Hle Hbody]. split; [lia | exact Hbody].
Qed.

Lemma scanComments_split (text : jsstring) (idx : nat) (c : jsstring) :
  In (idx, c) (scanComments 0 0 text) ->
  exists pre suf, text = pre ++ lit "//" ++ c ++ suf /\ length pre = idx.
Proof.
  intros Hin. destruct (scanComments_body text 0 0 idx c Hin) as [_ (rest & Hskip & ->)].
  rewrite Nat.sub_0_r in Hskip.
  destruct (dotStar_split rest) as [suf Hsuf].
  exists (firstn idx text), suf. split.
  - rewrite <- (firstn_skipn idx text) at 1. rewrite Hskip. simpl. rewrite <- Hsuf.
    reflexivity.
  - apply firstn_length_le.
    destruct (Nat.le_gt_cases idx (length text)) as [H|H]; [exact H|].
    rewrite skipn_all2 in Hskip by lia. discriminate.
Qed.

(** X1.  Every comment the scanner yields stands in the text: two slashes at
    its offset, then its body, which runs up to the end of the text or up
    to a line terminator and holds none. *)
Theorem scanned_comment_in_text (text : jsstring) (idx : nat) (c : jsstring) :
  In (idx, c) (scanComments 0 0 text) ->
  c = dotStar (skipn (idx + 2) text)
  /\ Forall nonTerminator c
  /\ match charAt text (idx + 2 + length c) with
     | Some t => isLineTerminator t = true
     | None => True
     end
  /\ exists pre suf, text = pre ++ lit "//" ++ c ++ suf /\ length pre = idx.
Proof.
  intros Hin. destruct (scanComments_body text 0 0 idx c Hin) as [_ (rest & Hskip & ->)].
  rewrite Nat.sub_0_r in Hskip.
  assert (Hskip2 : skipn (idx + 2) text = rest).
  { rewrite Nat.add_comm, <- skipn_skipn, Hskip. reflexivity. }
  split; [|split; [|split]].
  - rewrite Hskip2. reflexivity.
  - apply dotStar_nonTerminator.
  - unfold charAt. rewrite <- nth_error_skipn, Hskip2. apply dotStar_end.
  - apply scanComments_split. exact Hin.
Qed.

Lemma scanned_comment_in_text_witness :
  In (1, lit " $ExpectType number") (scanComments 0 0 tabIndentedSource)
  /\ exists pre suf,
      tabIndentedSource = pre ++ lit "//" ++ lit " $ExpectType number" ++ suf
      /\ length pre = 1.
Proof.
  assert (Hin : In (1, lit " $ExpectType number") (scanComments 0 0 tabIndentedSource))
    by (left; reflexivity).
  split; [exact Hin|].
  destruct (scanned_comment_in_text tabIndentedSource 1 (lit " $ExpectType number") Hin)
    as (_ & _ & _ & H).
  exact H.
Defined.

(** ** Directive comments mention their keyword *)

Lemma matchKeyword_word (ds : list Directive) (rest : jsstring) (d : Directive)
      (p : option jsstring) :
  matchKeyword ds rest = Some (d, p) ->
  In d ds
  /\ startsWith rest (directiveWord d) = true
  /\ matchPayload (skipn (length (directiveWord d)) rest) = Some p.
Proof.
  induction ds as [|d' ds IH]; simpl; [discriminate|].
  destruct (startsWith rest (directiveWord d')) eqn:E.
  - destruct (matchPayload (skipn (length (directiveWord d')) rest)) as [p'|] eqn:Ep.
    + intros H. injection H as <- <-. auto.
    + intros H. destruct (IH H) as (Hin & Hw & Hp). auto.
  - intros H. destruct (IH H) as (Hin & Hw & Hp). auto.
Qed.

Lemma matchPayload_split (rest : jsstring) (p : option jsstring) :
  matchPayload rest = Some p ->
  match p with
  | None => rest = []
  | Some payload => rest = SP :: payload /\ Forall nonTerminator payload
  end.
Proof.
  unfold matchPayload. destruct rest as [|c payload].
  - intros H. injection H as <-. reflexivity.
  - destruct (Ascii.eqb c SP) eqn:Ec; simpl; [|discriminate].
    destruct (forallb _ payload) eqn:Ef; [|discriminate].
    intros H. injection H as <-. apply Ascii.eqb_eq in Ec. subst c. split; [reflexivity|].
    apply Forall_forall. intros x Hx. rewrite forallb_forall in Ef.
    specialize (Ef x Hx). apply negb_true_iff in Ef. exact Ef.
Qed.

(** What a comment that is a directive looks like. *)
Lemma matchExpect_shape (comment : jsstring) (d : Directive) (p : option jsstring) :
  matchExpect comment = Some (d, p) ->
  exists lead,
    (lead = [] \/ lead = [SP])
    /\ comment = lead ++ lit "$Expect" ++ directiveWord d
                 ++ match p with
                    | None => []
                    | Some payload => SP :: payload
                    end
    /\ match p with
       | None => True
       | Some payload => Forall nonTerminator payload
       end.
Proof.
  unfold matchExpect.
  set (body := match comment with
               | c :: r => if Ascii.eqb c SP then r else comment
               | [] => comment
               end).
  assert (Hlead : exists lead, (lead = [] \/ lead = [SP]) /\ comment = lead ++ body).
  { unfold body. destruct comment as [|c r]; [exists []; auto|].
    destruct (Ascii.eqb c SP) eqn:E.
    - apply Ascii.eqb_eq in E. subst c. exists [SP]. auto.
    - exists []. auto. }
  destruct Hlead as (lead & Hlead & Hcomment).
  destruct (startsWith body (lit "$Expect")) eqn:E; [|discriminate].
  apply startsWith_split in E. destruct E as [r Hr].
  intros Hk. rewrite Hr in Hk.
  change (skipn 7 (lit "$Expect" ++ r)) with r in Hk.
  destruct (matchKeyword_word _ _ _ _ Hk) as (_ & Hw & Hp).
  apply startsWith_split in Hw. destruct Hw as [t Ht].
  rewrite Ht, skipn_app, Nat.sub_diag, skipn_all in Hp. simpl in Hp.
  apply matchPayload_split in Hp.
  exists lead. split; [exact Hlead|].
  rewrite Hcomment, Hr, Ht.
  destruct p as [payload|].
  - destruct Hp as [-> Hnon]. split; [reflexivity | exact Hnon].
  - subst t. split; [reflexivity | exact I].
Qed.

Lemma leadingSpaces_split (s : jsstring) :
  s = leadingSpaces s ++ skipn (length (leadingSpaces s)) s
  /\ Forall (fun c => c = SP) (leadingSpaces s).
Proof.
  induction s as [|c s [IH1 IH2]]; simpl; [split; [reflexivity | constructor]|].
  destruct (Ascii.eqb c SP) eqn:E; simpl.
  - apply Ascii.eqb_eq in E. split; [f_equal; exact IH1 | constructor; assumption].
  - split; [reflexivity | constructor].
Qed.

Lemma matchTwoslash_shape (comment whitespace rawPayload : jsstring) :
  matchTwoslash comment = Some (whitespace, rawPayload) ->
  comment = whitespace ++ lit "^?" ++ rawPayload
  /\ Forall (fun c => c = SP) whitespace
  /\ Forall nonTerminator rawPayload.
Proof.
  unfold matchTwoslash.
  destruct (leadingSpaces_split comment) as [Hsplit Hspaces].
  destruct (startsWith (skipn (length (leadingSpaces comment)) comment) (lit "^?")) eqn:E;
    simpl; [|discriminate].
  destruct (forallb _ _) eqn:Ef; [|discriminate].
  intros H. injection H as <- <-.
  apply startsWith_split in E. destruct E as [t Ht].
  split; [|split].
  - rewrite Ht. simpl. rewrite Hsplit at 1. rewrite Ht. reflexivity.
  - exact Hspaces.
  - apply Forall_forall. intros x Hx. rewrite forallb_forall in Ef.
    specialize (Ef x Hx). apply negb_true_iff in Ef. exact Ef.
Qed.

Lemma includes_inside (text pre c suf a p b : jsstring) :
  text = pre ++ c ++ suf -> c = a ++ p ++ b -> includes text p = true.
Proof.
  intros -> ->.
  replace (pre ++ (a ++ p ++ b) ++ suf) with ((pre ++ a) ++ p ++ (b ++ suf))
    by (rewrite <- !app_assoc; reflexivity).
  apply includes_middle.
Qed.

Lemma directive_mentioned (text pre c suf : jsstring) (d : Directive)
      (p : option jsstring) :
  text = pre ++ c ++ suf ->
  matchExpect c = Some (d, p) ->
  mentionsDirective text = true.
Proof.
  intros Htext Hm. destruct (matchExpect_shape c d p Hm) as (lead & _ & Hc & _).
  unfold mentionsDirective.
  destruct d.
  - assert (H : includes text (lit "$ExpectType") = true).
    { apply (includes_inside text pre c suf lead (lit "$ExpectType")
                             (lit "Snapshot" ++ match p with
                                                | None => []
                                                | Some payload => SP :: payload
                                                end) Htext).
      rewrite Hc. reflexivity. }
    rewrite H. reflexivity.
  - assert (H : includes text (lit "$ExpectType") = true).
    { apply (includes_inside text pre c suf lead (lit "$ExpectType")
                             (match p with
                              | None => []
                              | Some payload => SP :: payload
                              end) Htext).
      rewrite Hc. reflexivity. }
    rewrite H. reflexivity.
  - assert (H : includes text (lit "$ExpectError") = true).
    { apply (includes_inside text pre c suf lead (lit "$ExpectError")
                             (match p with
                              | None => []
                              | Some payload => SP :: payload
                              end) Htext).
      rewrite Hc. reflexivity. }
    rewrite H. rewrite orb_true_r. reflexivity.
Qed.

Lemma caret_mentioned (text pre c suf ws raw : jsstring) :
  text = pre ++ c ++ suf ->
  matchTwoslash c = Some (ws, raw) ->
  mentionsDirective text = true.
Proof.
  intros Htext Hm. destruct (matchTwoslash_shape c ws raw Hm) as (Hc & _ & _).
  unfold mentionsDirective.
  rewrite (includes_inside text pre c suf ws (lit "^?") raw Htext Hc).
  rewrite !orb_true_r. reflexivity.
Qed.

(** A comment of a text that mentions no directive changes nothing. *)
Lemma processComment_idle (text : jsstring) (lineStarts : list nat) (st : ParseState)
      (idx : nat) (c : jsstring) :
  mentionsDirective text = false ->
  In (idx, c) (scanComments 0 0 text) ->
  assertions (processComment text lineStarts st (idx, c)) = assertions st.
Proof.
  intros Hno Hin.
  destruct (scanComments_split text idx c Hin) as (pre & suf & Htext & _).
  assert (Htext' : text = (pre ++ lit "//") ++ c ++ suf)
    by (rewrite Htext at 1; rewrite <- app_assoc; reflexivity).
  unfold processComment.
  destruct (getLine text lineStarts (curLine st) idx) as [line cur'].
  destruct (matchExpect c) as [[d p]|] eqn:Em.
  - rewrite (directive_mentioned text _ c suf d p Htext' Em) in Hno. discriminate.
  - unfold parseTwoslashAssertion.
    destruct (matchTwoslash c) as [[ws raw]|] eqn:Et; [|reflexivity].
    rewrite (caret_mentioned text _ c suf ws raw Htext' Et) in Hno. discriminate.
Qed.

(** The early return of [validate] loses nothing: a text that holds none
    of [$ExpectType], [$ExpectError] and the caret marker has no
    assertions, no error lines, no duplicates and no syntax errors,
    whatever the line table. *)
Lemma parse_without_mention (text : jsstring) (lineStarts : list nat) :
  mentionsDirective text = false ->
  parseAssertions text lineStarts = emptyAssertions.
Proof.
  intros Hno. unfold parseAssertions.
  assert (Hgen : forall cms st,
             (forall cm, In cm cms -> In cm (scanComments 0 0 text)) ->
             assertions (fold_left (processComment text lineStarts) cms st)
             = assertions st).
  { induction cms as [|[idx c] cms IH]; intros st Hsub; [reflexivity|].
    simpl. rewrite IH by (intros cm Hcm; apply Hsub; right; exact Hcm).
    apply processComment_idle; [exact Hno | apply Hsub; left; reflexivity]. }
  rewrite Hgen; [reflexivity | auto].
Qed.

(** ** Decoding directive comments *)

Lemma startsWith_app_self (p t : jsstring) : startsWith (p ++ t) p = true.
Proof. apply startsWith_split. exists t. reflexivity. Qed.

Lemma forallb_nonTerminator (payload : jsstring) :
  Forall nonTerminator payload ->
  forallb (fun x => negb (isLineTerminator x)) payload = true.
Proof.
  intros H. apply forallb_forall. intros x Hx. rewrite Forall_forall in H.
  rewrite (H x Hx). reflexivity.
Qed.

Lemma matchPayload_tail (p : option jsstring) :
  match p with
  | None => True
  | Some payload => Forall nonTerminator payload
  end ->
  matchPayload (payloadTail p) = Some p.
Proof.
  destruct p as [payload|]; simpl; [|reflexivity].
  intros H. unfold matchPayload.
  rewrite (forallb_nonTerminator payload H). reflexivity.
Qed.

Lemma matchKeyword_encoded (d : Directive) (p : option jsstring) :
  match p with
  | None => True
  | Some payload => Forall nonTerminator payload
  end ->
  matchKeyword [TypeSnapshot; Type_; Error_] (directiveWord d ++ payloadTail p)
  = Some (d, p).
Proof.
  intros Hp. pose proof (matchPayload_tail p Hp) as Hm.
  destruct d; cbn [matchKeyword].
  - rewrite startsWith_app_self, skipn_app, Nat.sub_diag, skipn_all. simpl app.
    cbn [skipn]. rewrite Hm. reflexivity.
  - replace (startsWith (directiveWord Type_ ++ payloadTail p) (directiveWord TypeSnapshot))
      with false by (destruct p; reflexivity).
    rewrite startsWith_app_self, skipn_app, Nat.sub_diag, skipn_all. simpl app.
    cbn [skipn]. rewrite Hm. reflexivity.
  - replace (startsWith (directiveWord Error_ ++ payloadTail p) (directiveWord TypeSnapshot))
      with false by reflexivity.
    replace (startsWith (directiveWord Error_ ++ payloadTail p) (directiveWord Type_))
      with false by reflexivity.
    rewrite startsWith_app_self, skipn_app, Nat.sub_diag, skipn_all. simpl app.
    cbn [skipn]. rewrite Hm. reflexivity.
Qed.

Lemma matchExpect_body (r : jsstring) :
  matchExpect (lit "$Expect" ++ r) = matchKeyword [TypeSnapshot; Type_; Error_] r
  /\ matchExpect ([SP] ++ lit "$Expect" ++ r) = matchKeyword [TypeSnapshot; Type_; Error_] r.
Proof. destruct r; split; reflexivity. Qed.

(** X2.  The directive expression read backwards: a comment is taken as the
    directive [d] with the payload [p] exactly when it is made of an
    optional space, [$Expect], the keyword of [d] and, for a payload, a
    space and the payload, which holds no line terminator.  So the three
    keywords never stand for one another. *)
Theorem directive_comment_decoded (comment : jsstring) (d : Directive)
        (p : option jsstring) :
  matchExpect comment = Some (d, p)
  <-> (exists lead,
          (lead = [] \/ lead = [SP])
          /\ comment = lead ++ lit "$Expect" ++ directiveWord d ++ payloadTail p)
      /\ match p with
         | None => True
         | Some payload => Forall nonTerminator payload
         end.
Proof.
  split.
  - intros H. destruct (matchExpect_shape comment d p H) as (lead & Hlead & Hc & Hp).
    split; [exists lead; split; [exact Hlead | exact Hc] | exact Hp].
  - intros [(lead & Hlead & ->) Hp].
    assert (Hbody : matchExpect (lead ++ lit "$Expect" ++ directiveWord d ++ payloadTail p)
                    = matchKeyword [TypeSnapshot; Type_; Error_]
                                   (directiveWord d ++ payloadTail p)).
    { destruct Hlead as [-> | ->]; apply (matchExpect_body (directiveWord d ++ payloadTail p)). }
    rewrite Hbody. apply matchKeyword_encoded. exact Hp.
Qed.

Lemma leadingSpaces_app (ws : jsstring) (c : ascii) (t : jsstring) :
  Forall (fun x => x = SP) ws -> c <> SP -> leadingSpaces (ws ++ c :: t) = ws.
Proof.
  intros Hws Hc. induction Hws as [|x ws Hx Hws IH]; simpl.
  - destruct (Ascii.eqb c SP) eqn:E; [apply Ascii.eqb_eq in E; contradiction | reflexivity].
  - subst x. simpl. rewrite IH. reflexivity.
Qed.

(** X3.  The twoslash expression read backwards: a comment is taken as a
    caret comment with the white space [whitespace] and the raw payload
    [rawPayload] exactly when it is made of that white space, all spaces,
    the caret marker and the payload, which holds no line terminator. *)
Theorem caret_comment_decoded (comment whitespace rawPayload : jsstring) :
  matchTwoslash comment = Some (whitespace, rawPayload)
  <-> comment = whitespace ++ lit "^?" ++ rawPayload
      /\ Forall (fun c => c = SP) whitespace
      /\ Forall nonTerminator rawPayload.
Proof.
  split; [apply matchTwoslash_shape|].
  intros (-> & Hws & Hraw). unfold matchTwoslash.
  assert (Hlead : leadingSpaces (whitespace ++ lit "^?" ++ rawPayload) = whitespace).
  { apply leadingSpaces_app; [exact Hws | discriminate]. }
  rewrite Hlead.
  assert (Hrest : skipn (length whitespace) (whitespace ++ lit "^?" ++ rawPayload)
                  = lit "^?" ++ rawPayload).
  { rewrite skipn_app, Nat.sub_diag, skipn_all. reflexivity. }
  rewrite Hrest, startsWith_app_self.
  change (skipn 2 (lit "^?" ++ rawPayload)) with rawPayload.
  rewrite (forallb_nonTerminator rawPayload Hraw). reflexivity.
Qed.

(** ** The early return of [validate] *)

Section EmptyPass.

Variable lineOfPosition : number -> nat.
Variable typeToString : Node -> jsstring.
Variable quickInfo : Z -> option (list jsstring).

Lemma spec_empty (vs : list Node) :
  specPending lineOfPosition [] vs = []
  /\ specUnmet lineOfPosition typeToString [] vs = [].
Proof. induction vs as [|n vs [IH1 IH2]]; simpl; auto. Qed.

Variable Diagnostic : Type.
Variable isDiagnosticWithStart : Diagnostic -> option Z.

Lemma reportAssertions_empty (fileName : jsstring) (sf : SourceFile)
      (diagnostics : list Diagnostic) (store : SnapshotStore) :
  reportAssertions lineOfPosition typeToString quickInfo Diagnostic isDiagnosticWithStart
                   fileName sf diagnostics store emptyAssertions
  = Returned [].
Proof.
  unfold reportAssertions. cbn [emptyAssertions duplicates errorLines syntaxErrors
    typeAssertions twoSlashAssertions loadSnapshots map filter app].
  unfold getExpectTypeFailures.
  destruct (traversal_follows_rule lineOfPosition typeToString (root sf)) as [_ Hrule].
  destruct (Hrule (mkPass [] [] [])) as (vs & _ & Hp & Hu).
  cbn [pending unmetExpectations] in Hp, Hu.
  destruct (spec_empty vs) as [Hp' Hu']. rewrite Hp' in Hp. rewrite Hu' in Hu.
  cbn [checkTwoSlashes]. rewrite Hp, Hu. reflexivity.
Qed.

End EmptyPass.

(** X4.  The test [validate] makes on the text before anything else only
    saves work: for a file the program knows, the outcome (the reports
    made, and whether the run returns or ends with an exception) is the one
    of the reports made from the parsed assertions, whether the test lets
    the file through or not. *)
Theorem validate_reports_parsed_assertions
        (lineOfPosition : number -> nat) (typeToString : Node -> jsstring)
        (quickInfo : Z -> option (list jsstring))
        (Diagnostic : Type) (isDiagnosticWithStart : Diagnostic -> option Z)
        (fileName : jsstring) (sf : SourceFile) (diagnostics : list Diagnostic)
        (store : SnapshotStore) :
  validate lineOfPosition typeToString quickInfo Diagnostic isDiagnosticWithStart
           fileName (Some sf) diagnostics store
  = reportAssertions lineOfPosition typeToString quickInfo Diagnostic
                     isDiagnosticWithStart fileName sf diagnostics store
                     (parseAssertions (text sf) (lineStarts sf)).
Proof.
  unfold validate. destruct (mentionsDirective (text sf)) eqn:E; [reflexivity|].
  simpl. rewrite (parse_without_mention (text sf) (lineStarts sf) E).
  symmetry. apply reportAssertions_empty.
Qed.

(** ** Duplicates *)

(** X5.  For a text with its own line table, no line is listed twice in
    [duplicates]. *)
Theorem duplicates_listed_once (text : jsstring) :
  NoDup (duplicates (parseSourceText text)).
Proof.
  apply (NoDup_count_occ Nat.eq_dec). intros l.
  destruct (parseAssertions_line text (computeLineStarts text) l) as (_ & _ & Hd).
  cbv zeta in Hd. unfold parseSourceText. rewrite Hd.
  pose proof (at_most_two_directives text l) as Htwo.
  destruct (countTypeOn l (directivesOf text (computeLineStarts text))) as [|[|[|n]]];
    destruct (countErrorOn l (directivesOf text (computeLineStarts text))) as [|[|[|m]]];
    simpl in *; lia.
Qed.

(** X6.  Successive comments of a text stand on different physical lines, in
    increasing order. *)
Theorem comments_on_increasing_lines (text : jsstring) :
  StronglySorted lt (physicalLines text (computeLineStarts text) 0 (scanComments 0 0 text)).
Proof.
  apply (physicalLines_sorted text (computeLineStarts text)
                              (computeLineStarts_sorted text)
                              (scanComments 0 0 text) 0 0).
  - reflexivity.
  - intros; lia.
  - apply scan_separated_text.
Qed.

(** ** [getLine] *)

(** X7.  [getLine] leaves [curLine] on the line of [pos]: the line starts at
    or before [pos] and the next line, if there is one, after it; [curLine]
    never goes back; the attributed line is that line or the next. *)
Theorem getLine_finds_line (text : jsstring) (lineStarts : list nat)
        (curLine pos a : nat) :
  nth_error lineStarts curLine = Some a ->
  a <= pos ->
  let line := fst (getLine text lineStarts curLine pos) in
  let cur := snd (getLine text lineStarts curLine pos) in
  curLine <= cur
  /\ (exists b, nth_error lineStarts cur = Some b /\ b <= pos
                /\ line = if isFirstOnLine text b pos then cur + 1 else cur)
  /\ match nth_error lineStarts (cur + 1) with
     | Some c => pos < c
     | None => True
     end.
Proof.
  intros Ha Hle line cur. unfold line, cur, getLine. cbn [fst snd].
  split; [apply advanceLine_ge|]. split.
  - destruct (advanceLine_lower (length lineStarts) lineStarts pos curLine a Ha Hle)
      as (b & Hb & Hb').
    exists b. rewrite Hb. auto.
  - apply advanceLine_stops. lia.
Qed.

Lemma getLine_finds_line_witness :
  nth_error [0; 11; 25; 41] 0 = Some 0
  /\ 0 <= 30
  /\ match nth_error [0; 11; 25; 41]
                     (snd (getLine continuedCaretSource [0; 11; 25; 41] 0 30) + 1) with
     | Some c => 30 < c
     | None => True
     end.
Proof.
  split; [reflexivity|]. split; [apply Nat.le_0_l|].
  destruct (getLine_finds_line continuedCaretSource [0; 11; 25; 41] 0 30 0
                               eq_refl (Nat.le_0_l 30)) as (_ & _ & H).
  exact H.
Defined.

(** ** One outcome for every assertion *)

Lemma map_remove_keys {V : Type} (l : nat) (m : Map V) :
  map_keys (map_remove l m) = filter (fun k => negb (Nat.eqb k l)) (map_keys m).
Proof.
  unfold map_keys, map_remove. induction m as [|[k v] m IH]; simpl; [reflexivity|].
  destruct (Nat.eqb k l); simpl; [exact IH | f_equal; exact IH].
Qed.

Lemma map_remove_NoDup {V : Type} (l : nat) (m : Map V) :
  NoDup (map_keys m) -> NoDup (map_keys (map_remove l m)).
Proof. intros H. rewrite map_remove_keys. apply NoDup_filter. exact H. Qed.

Lemma map_remove_length {V : Type} (l : nat) (m : Map V) (v : V) :
  NoDup (map_keys m) ->
  map_get l m = Some v ->
  S (length (map_remove l m)) = length m.
Proof.
  unfold map_get, map_remove, map_keys.
  induction m as [|[k w] m IH]; simpl; [discriminate|].
  intros Hnodup Hget. inversion Hnodup as [|? ? Hnotin Hnodup']; subst.
  destruct (Nat.eqb k l) eqn:E; simpl.
  - apply Nat.eqb_eq in E. subst k. f_equal.
    assert (Habsent : map_get l m = None).
    { destruct (map_get l m) eqn:Eg; [|reflexivity].
      exfalso. apply Hnotin. apply (map_keys_get l m). congruence. }
    fold (map_remove l m). rewrite (map_remove_absent l m Habsent). reflexivity.
  - f_equal. apply IH; assumption.
Qed.

Section Outcomes.

Variable lineOfPosition : number -> nat.
Variable typeToString : Node -> jsstring.
Variable quickInfo : Z -> option (list jsstring).

Lemma spec_outcomes (vs : list Node) :
  forall m,
    NoDup (map_keys m) ->
    length (comparisons (specTrace lineOfPosition typeToString m vs))
    + length (specPending lineOfPosition m vs) = length m
    /\ length (specUnmet lineOfPosition typeToString m vs)
       <= length (comparisons (specTrace lineOfPosition typeToString m vs)).
Proof.
  induction vs as [|n vs IH]; intros m Hnodup; simpl; [split; lia|].
  destruct (IH (map_remove (lineOfNode lineOfPosition n) m)
               (map_remove_NoDup _ m Hnodup)) as [Hcount Hunmet].
  destruct (map_get (lineOfNode lineOfPosition n) m) as [a|] eqn:E; simpl.
  - pose proof (map_remove_length _ m a Hnodup E) as Hlen.
    rewrite length_app. split; [lia|].
    destruct (typeMismatch _ _); simpl; lia.
  - rewrite (map_remove_absent _ m E) in Hcount, Hunmet.
    rewrite (map_remove_absent _ m E). split; assumption.
Qed.

Lemma checkTwoSlash_outcome (sourceFile : Node)
      (st st' : list nat * list UnmetExpectation * list Event) (t : TwoSlashAssertion) :
  checkTwoSlash lineOfPosition quickInfo sourceFile st t = Some st' ->
  length (fst (fst st')) + length (snd (fst st'))
  <= S (length (fst (fst st)) + length (snd (fst st))).
Proof.
  destruct st as [[lines unmet] tr]. unfold checkTwoSlash. cbn [fst snd]. intros H.
  destruct (number_eqb _ _);
    [injection H as <-; cbn [fst snd]; rewrite length_app; simpl; lia|].
  destruct (getNodeAtPosition _ _).
  - destruct (quickInfo _).
    + destruct (negb _); injection H as <-; cbn [fst snd];
        [rewrite length_app; simpl; lia | lia].
    + destruct (lineAndCharacterOfPosition _ _); [|discriminate].
      injection H as <-. cbn [fst snd]. rewrite length_app. simpl. lia.
  - destruct (lineAndCharacterOfPosition _ _); [|discriminate].
    injection H as <-. cbn [fst snd]. rewrite length_app. simpl. lia.
Qed.

Lemma checkTwoSlashes_outcome (sourceFile : Node) (ts : list TwoSlashAssertion) :
  forall st st',
    checkTwoSlashes lineOfPosition quickInfo sourceFile ts st = Some st' ->
    length (fst (fst st')) + length (snd (fst st'))
    <= length ts + (length (fst (fst st)) + length (snd (fst st))).
Proof.
  induction ts as [|t ts IH]; intros st st' H; cbn [checkTwoSlashes] in H.
  - injection H as <-. simpl. lia.
  - destruct (checkTwoSlash _ _ _ st t) as [st1|] eqn:E; [|discriminate].
    pose proof (IH st1 st' H) as Hrest.
    pose proof (checkTwoSlash_outcome sourceFile st st1 t E) as Hstep.
    cbn [length]. lia.
Qed.

End Outcomes.

(** X9.  In the traversal every pending type assertion has exactly one
    outcome: with [m] the pending map at the start (one entry a line), the
    comparisons made and the entries left pending at the end are as many as
    the entries of [m], and no more expectations are unmet than comparisons
    are made. *)
Theorem traversal_accounts_for_assertions
        (lineOfPosition : number -> nat) (typeToString : Node -> jsstring)
        (sourceFile : Node) (m : Map Assertion) :
  NoDup (map_keys m) ->
  let st := forEachChild lineOfPosition typeToString sourceFile (mkPass m [] []) in
  length (comparisons (trace st)) + length (pending st) = length m
  /\ length (unmetExpectations st) <= length (comparisons (trace st)).
Proof.
  intros Hnodup st.
  destruct (traversal_follows_rule lineOfPosition typeToString sourceFile) as [_ Hrule].
  destruct (Hrule (mkPass m [] [])) as (vs & Ht & Hp & Hu).
  cbn [pending unmetExpectations trace app] in Ht, Hp, Hu. fold st in Ht, Hp, Hu.
  rewrite Ht, Hp, Hu. apply spec_outcomes. exact Hnodup.
Qed.

Lemma traversal_accounts_for_assertions_witness :
  NoDup (map_keys [(0, manual (lit "string")); (5, manual (lit "number"))])
  /\ let st := forEachChild sampleLineOfPosition sampleTypeToString sampleRoot2
                            (mkPass [(0, manual (lit "string")); (5, manual (lit "number"))]
                                    [] []) in
     length (comparisons (trace st)) + length (pending st) = 2.
Proof.
  assert (Hnodup : NoDup (map_keys [(0, manual (lit "string")); (5, manual (lit "number"))])).
  { constructor.
    - intros [H|[]]. discriminate.
    - constructor; [intros [] | constructor]. }
  split; [exact Hnodup|].
  destruct (traversal_accounts_for_assertions
              sampleLineOfPosition sampleTypeToString sampleRoot2 _ Hnodup) as [H _].
  exact H.
Defined.

(** ** One entry a line *)

Lemma map_replace_keys {V : Type} (k : nat) (v : V) (m : Map V) :
  map_keys (map_replace k v m) = map_keys m.
Proof.
  unfold map_keys. induction m as [|[k' v'] m IH]; cbn [map_replace map fst]; [reflexivity|].
  destruct (Nat.eqb k' k) eqn:E; cbn [map fst].
  - apply Nat.eqb_eq in E. subst k'. reflexivity.
  - f_equal. exact IH.
Qed.

Lemma map_has_keys {V : Type} (k : nat) (m : Map V) :
  map_has k m = true <-> In k (map_keys m).
Proof.
  unfold map_has, map_keys. rewrite existsb_exists, in_map_iff. split.
  - intros ([k' v] & Hin & Heq). apply Nat.eqb_eq in Heq. exists (k', v). split; assumption.
  - intros ([k' v] & Heq & Hin). exists (k', v). split; [exact Hin|].
    apply Nat.eqb_eq. exact Heq.
Qed.

Lemma NoDup_snoc {A : Type} (l : list A) (x : A) :
  NoDup l -> ~ In x l -> NoDup (l ++ [x]).
Proof.
  intros Hl Hx. induction Hl as [|y l Hy Hl IH]; simpl.
  - constructor; [intros []|constructor].
  - constructor.
    + rewrite in_app_iff. intros [H|[H|[]]]; [exact (Hy H)|].
      subst y. apply Hx. left. reflexivity.
    + apply IH. intros H. apply Hx. right. exact H.
Qed.

Lemma map_set_NoDup {V : Type} (k : nat) (v : V) (m : Map V) :
  NoDup (map_keys m) -> NoDup (map_keys (map_set k v m)).
Proof.
  intros H. unfold map_set. destruct (map_has k m) eqn:E.
  - rewrite map_replace_keys. exact H.
  - unfold map_keys. rewrite map_app. cbn [map fst]. apply NoDup_snoc; [exact H|].
    intros Hin. apply map_has_keys in Hin. congruence.
Qed.

Lemma set_add_NoDup (k : nat) (s : list nat) : NoDup s -> NoDup (set_add k s).
Proof.
  intros H. unfold set_add. destruct (set_has k s) eqn:E; [exact H|].
  apply NoDup_snoc; [exact H|]. intros Hin. apply set_has_In in Hin. congruence.
Qed.

Lemma applyDirective_NoDup (a : Assertions) (l : nat) (d : Directive)
      (p : option jsstring) :
  NoDup (map_keys (typeAssertions a)) /\ NoDup (errorLines a) ->
  NoDup (map_keys (typeAssertions (applyDirective a l d p)))
  /\ NoDup (errorLines (applyDirective a l d p)).
Proof.
  intros [Ht He]. unfold applyDirective, map_delete.
  destruct d; try destruct (truthy p);
    try destruct (map_has l (typeAssertions a));
    cbn [typeAssertions errorLines]; split;
    auto using map_set_NoDup, map_remove_NoDup, set_add_NoDup.
Qed.

Lemma runDirectives_NoDup (ds : list (nat * Directive * option jsstring)) :
  forall a,
    NoDup (map_keys (typeAssertions a)) /\ NoDup (errorLines a) ->
    NoDup (map_keys (typeAssertions (runDirectives a ds)))
    /\ NoDup (errorLines (runDirectives a ds)).
Proof.
  unfold runDirectives. induction ds as [|d ds IH]; intros a H; simpl; [exact H|].
  apply IH. apply applyDirective_NoDup. exact H.
Qed.

(** X10.  Whatever the text and the line table, parsing leaves at most one
    type assertion for a line, and lists a line with [$ExpectError] once. *)
Theorem parsed_lines_distinct (text : jsstring) (lineStarts : list nat) :
  NoDup (map_keys (typeAssertions (parseAssertions text lineStarts)))
  /\ NoDup (errorLines (parseAssertions text lineStarts)).
Proof.
  destruct (parse_directives text lineStarts) as (He & Ht & _).
  rewrite He, Ht. apply runDirectives_NoDup. split; constructor.
Qed.

Lemma loadSnapshots_keys (fileName : jsstring) (store : SnapshotStore) (m : Map Assertion) :
  map_keys (loadSnapshots fileName store m) = map_keys m.
Proof.
  unfold map_keys, loadSnapshots. rewrite map_map. apply map_ext.
  intros [k a]. destruct a; reflexivity.
Qed.

Lemma loadSnapshots_length (fileName : jsstring) (store : SnapshotStore) (m : Map Assertion) :
  length (loadSnapshots fileName store m) = length m.
Proof. unfold loadSnapshots. apply length_map. Qed.

(** ** The outcomes of [parseTwoslashAssertion] *)

Lemma continuation_extends (sourceText : jsstring) (lineStarts : list nat)
      (commentLine : nat) (prefix : jsstring) (lines : list nat) :
  forall st, exists ext,
      fst (continuation sourceText lineStarts commentLine prefix lines st) = fst st ++ ext.
Proof.
  induction lines as [|n lines IH]; intros st; cbn [continuation].
  - exists []. rewrite app_nil_r. reflexivity.
  - cbv zeta. destruct (startsWith _ prefix).
    + match goal with
      | |- context [continuation _ _ _ _ _ ?s] => destruct (IH s) as [ext Hext]
      end.
      rewrite Hext. cbn [fst]. destruct (n =? commentLine).
      * eexists. rewrite <- !app_assoc. reflexivity.
      * eexists. rewrite <- !app_assoc. reflexivity.
    + exists []. rewrite app_nil_r. reflexivity.
Qed.

(** X11.  The three outcomes of [parseTwoslashAssertion]: nothing for a
    comment that is no caret comment; for a caret comment whose payload
    does not start with a space, the syntax error, on the line before the
    attributed one, also when that is the first line; an assertion
    otherwise, whose expected text starts with the payload after its
    space. *)
Theorem twoslash_outcomes (comment : jsstring) (commentIndex commentLine : nat)
        (sourceText : jsstring) (lineStarts : list nat) :
  match matchTwoslash comment with
  | None =>
    parseTwoslashAssertion comment commentIndex commentLine sourceText lineStarts = None
  | Some (whitespace, rawPayload) =>
    if payloadInOrder rawPayload
    then exists t ext,
        parseTwoslashAssertion comment commentIndex commentLine sourceText lineStarts
        = Some (inr t)
        /\ expected t = sliceFrom rawPayload 1 ++ ext
        /\ (commentLine = 1 -> ext = [])
    else parseTwoslashAssertion comment commentIndex commentLine sourceText lineStarts
         = Some (inl (mkSyntaxError InvalidTwoslash (Z.of_nat commentLine - 1)))
  end.
Proof.
  unfold parseTwoslashAssertion, payloadInOrder.
  destruct (matchTwoslash comment) as [[ws raw]|]; [|reflexivity].
  destruct (negb (length raw =? 0) && negb (isChar (charAt raw 0) SP));
    cbn [negb]; [reflexivity|].
  destruct (commentLine =? 1) eqn:E1.
  - eexists. exists []. rewrite app_nil_r. cbn [expected].
    split; [reflexivity|]. split; reflexivity.
  - apply Nat.eqb_neq in E1. cbv zeta.
    match goal with
    | |- context [continuation ?s ?ls ?cl ?p ?l ?st] =>
      destruct (continuation_extends s ls cl p l st) as [ext Hext];
        destruct (continuation s ls cl p l st) as [e r] eqn:Ec
    end.
    cbn [fst] in Hext. subst e.
    destruct (r <? _)%Z; eexists; exists ext; cbn [expected];
      (split; [reflexivity|]); (split; [reflexivity|]); intros H; contradiction.
Qed.

Section CaretEdges.

Variable lineOfPosition : number -> nat.
Variable typeToString : Node -> jsstring.
Variable quickInfo : Z -> option (list jsstring).

(** X12.  A caret comment attributed to line 0, one that stands behind code
    on the first line, has no line above to point at: the position computed
    from the two missing entries of the line table is [NaN].  In the pass
    it is not the case of the position -1; no node holds the position, and
    the lookup of its line throws: the round of the assertion, and with it
    [getExpectTypeFailures] for any map and any list of caret assertions
    that holds this one, ends with the exception. *)
Theorem caret_behind_first_line (comment : jsstring) (commentIndex : nat)
        (sourceText : jsstring) (lineStarts : list nat)
        (whitespace rawPayload : jsstring) :
  matchTwoslash comment = Some (whitespace, rawPayload) ->
  payloadInOrder rawPayload = true ->
  exists t,
    parseTwoslashAssertion comment commentIndex 0 sourceText lineStarts = Some (inr t)
    /\ position t = NaN
    /\ number_eqb (position t) (-1) = false
    /\ (forall sourceFile, getNodeAtPosition sourceFile (position t) = None)
    /\ lineAndCharacterOfPosition lineOfPosition (position t) = None
    /\ (forall sourceFile st,
           checkTwoSlash lineOfPosition quickInfo sourceFile st t = None)
    /\ (forall sourceFile m ts,
           In t ts ->
           getExpectTypeFailures lineOfPosition typeToString quickInfo sourceFile m ts
           = None).
Proof.
  intros Hm Hp.
  assert (Hparse : exists t,
             parseTwoslashAssertion comment commentIndex 0 sourceText lineStarts
             = Some (inr t)
             /\ position t = NaN).
  { unfold parseTwoslashAssertion. rewrite Hm.
    unfold payloadInOrder in Hp. apply negb_true_iff in Hp. rewrite Hp.
    cbn [Nat.eqb]. cbv zeta.
    assert (Hnone : lineStartAt lineStarts (Z.of_nat 0 - 1) = None) by reflexivity.
    rewrite Hnone.
    destruct (continuation _ _ _ _ _ _) as [e r].
    destruct (r <? _)%Z; eexists; split; reflexivity. }
  destruct Hparse as (t & Hparse & Hpos). exists t.
  split; [exact Hparse|]. split; [exact Hpos|]. rewrite Hpos.
  split; [reflexivity|]. split; [intros sourceFile; apply getNodeAtPosition_NaN|].
  split; [reflexivity|]. split.
  - intros sourceFile st. apply checkTwoSlash_NaN. exact Hpos.
  - intros sourceFile m ts Hin.
    apply (getExpectTypeFailures_NaN lineOfPosition typeToString quickInfo
                                     sourceFile m ts t Hin Hpos).
Qed.

End CaretEdges.

Lemma caret_behind_first_line_witness :
  matchTwoslash (lit " ^? number") = Some ([SP], lit " number")
  /\ exists t,
      parseTwoslashAssertion (lit " ^? number") 5 0 (lit "foo; // ^? number") [0]
      = Some (inr t)
      /\ position t = NaN
      /\ getExpectTypeFailures sampleLineOfPosition sampleTypeToString sampleQuickInfo
                               sampleRoot [] [t]
         = None.
Proof.
  split; [reflexivity|].
  destruct (caret_behind_first_line sampleLineOfPosition sampleTypeToString sampleQuickInfo
                                    (lit " ^? number") 5 (lit "foo; // ^? number") [0]
                                    [SP] (lit " number") eq_refl eq_refl)
    as (t & Hparse & Hpos & _ & _ & _ & _ & Hthrows).
  exists t. split; [exact Hparse|]. split; [exact Hpos|].
  apply Hthrows. left. reflexivity.
Defined.

(** X13.  From the second line on the caret points at its own column one
    line up: with [a] the start of the line before the attributed one, on
    which the comment stands, and [b] the start of the line before that,
    the position is [b] plus the column of the caret.  It is never the
    value kept for a caret on the first line, and the prefix of the
    continuation lines is the comment line up to the caret and three
    spaces. *)
Theorem caret_points_one_line_up (comment : jsstring) (commentIndex commentLine : nat)
        (sourceText : jsstring) (lineStarts : list nat)
        (whitespace rawPayload : jsstring) (a b : nat) :
  2 <= commentLine ->
  nth_error lineStarts (commentLine - 1) = Some a ->
  nth_error lineStarts (commentLine - 2) = Some b ->
  a <= commentIndex ->
  matchTwoslash comment = Some (whitespace, rawPayload) ->
  payloadInOrder rawPayload = true ->
  exists t,
    parseTwoslashAssertion comment commentIndex commentLine sourceText lineStarts
    = Some (inr t)
    /\ position t = Num (Z.of_nat (b + (commentIndex + 2 + length whitespace - a)))
    /\ number_eqb (position t) (-1) = false
    /\ expectedPrefix t
       = slice sourceText a (commentIndex + 2 + length whitespace) ++ lit "   ".
Proof.
  intros Hline Ha Hb Hle Hm Hp. unfold parseTwoslashAssertion. rewrite Hm.
  unfold payloadInOrder in Hp. apply negb_true_iff in Hp. rewrite Hp.
  assert (E1 : (commentLine =? 1) = false) by (apply Nat.eqb_neq; lia).
  rewrite E1. cbv zeta. unfold continuationPrefix.
  assert (Hsa : lineStartAt lineStarts (Z.of_nat commentLine - 1) = Some a).
  { unfold lineStartAt. destruct (Z.of_nat commentLine - 1 <? 0)%Z eqn:E; [lia|].
    replace (Z.to_nat (Z.of_nat commentLine - 1)) with (commentLine - 1) by lia.
    exact Ha. }
  assert (Hsb : lineStartAt lineStarts (Z.of_nat commentLine - 2) = Some b).
  { unfold lineStartAt. destruct (Z.of_nat commentLine - 2 <? 0)%Z eqn:E; [lia|].
    replace (Z.to_nat (Z.of_nat commentLine - 2)) with (commentLine - 2) by lia.
    exact Hb. }
  rewrite Hsa, Hsb.
  destruct (continuation _ _ _ _ _ _) as [e r].
  assert (Hpos : (Z.of_nat (commentIndex + length whitespace + 2)
                  - (Z.of_nat a - Z.of_nat b))%Z
                 = Z.of_nat (b + (commentIndex + 2 + length whitespace - a))) by lia.
  destruct (r <? _)%Z; eexists; (split; [reflexivity|]);
    cbn [position expectedPrefix number_eqb]; rewrite Hpos;
    (split; [reflexivity|]); (split; [|reflexivity]); apply Z.eqb_neq; lia.
Qed.

Lemma caret_points_one_line_up_witness :
  matchTwoslash (lit "  ^? number") = Some ([SP; SP], lit " number")
  /\ exists t,
      parseTwoslashAssertion (lit "  ^? number") 11 2 continuedCaretSource [0; 11; 25; 41]
      = Some (inr t)
      /\ position t = Num 4.
Proof.
  split; [reflexivity|].
  destruct (caret_points_one_line_up (lit "  ^? number") 11 2 continuedCaretSource
                                     [0; 11; 25; 41] [SP; SP] (lit " number") 11 0
                                     (Nat.le_refl 2) eq_refl eq_refl (Nat.le_refl 11)
                                     eq_refl eq_refl)
    as (t & Hparse & Hpos & _).
  exists t. split; [exact Hparse | exact Hpos].
Defined.

(** ** The text of the twoslash fix, line by line *)

Lemma splitLF_cons (s : jsstring) : exists l ls, splitLF s = l :: ls.
Proof.
  induction s as [|c s (l & ls & IH)]; cbn [splitLF]; [eauto|].
  destruct (Ascii.eqb c LF); [eauto|]. rewrite IH. eauto.
Qed.

Lemma joinLF_cons (l : jsstring) (x : jsstring) (ls : list jsstring) :
  joinLF (l :: x :: ls) = l ++ LF :: joinLF (x :: ls).
Proof. reflexivity. Qed.

Lemma joinLF_head (c : ascii) (l : jsstring) (ls : list jsstring) :
  joinLF ((c :: l) :: ls) = c :: joinLF (l :: ls).
Proof. destruct ls; reflexivity. Qed.

Lemma fix_body_by_lines (p : jsstring) (s : jsstring) :
  flat_map (fun c => if Ascii.eqb c LF then c :: p else [c]) s
  = joinLF (prefixRest p (splitLF s))
  /\ forall l ls, splitLF s = l :: ls ->
       joinLF (map (fun line => p ++ line) (l :: ls))
       = p ++ joinLF (prefixRest p (l :: ls)).
Proof.
  induction s as [|c s [IH1 IH2]].
  - split; [reflexivity|]. intros l ls H. injection H as <- <-.
    cbn. reflexivity.
  - destruct (splitLF_cons s) as (l0 & ls0 & Hs).
    cbn [flat_map splitLF]. destruct (Ascii.eqb c LF) eqn:E.
    + apply Ascii.eqb_eq in E. subst c. rewrite Hs. split.
      * cbn [prefixRest]. rewrite IH1, Hs.
        change (map (fun line => p ++ line) (l0 :: ls0))
          with ((p ++ l0) :: map (fun line => p ++ line) ls0).
        rewrite joinLF_cons. cbn [app]. f_equal.
        rewrite <- (IH2 l0 ls0 Hs). reflexivity.
      * intros l ls H. injection H as <- <-.
        cbn [map prefixRest]. rewrite !joinLF_cons. rewrite app_nil_r.
        cbn [app]. reflexivity.
    + rewrite Hs. split.
      * cbn [prefixRest app]. rewrite joinLF_head. f_equal.
        rewrite IH1, Hs. reflexivity.
      * intros l ls H. injection H as <- <-.
        cbn [map prefixRest]. specialize (IH2 l0 ls0 Hs).
        cbn [map prefixRest] in IH2.
        destruct ls0 as [|x ls0].
        -- cbn. reflexivity.
        -- change (map (fun line => p ++ line) (x :: ls0))
             with ((p ++ x) :: map (fun line => p ++ line) ls0) in *.
           rewrite !joinLF_cons in *. rewrite <- !app_assoc. cbn [app].
           reflexivity.
Qed.

Lemma join_split (s : jsstring) : joinLF (splitLF s) = s.
Proof.
  induction s as [|c s IH]; [reflexivity|].
  destruct (splitLF_cons s) as (l0 & ls0 & Hs).
  cbn [splitLF]. destruct (Ascii.eqb c LF) eqn:E.
  - apply Ascii.eqb_eq in E. subst c. rewrite Hs, joinLF_cons, <- Hs, IH. reflexivity.
  - rewrite Hs, joinLF_head, <- Hs, IH. reflexivity.
Qed.

(** X14.  The replacement text of the twoslash fix is the one the source
    spells out: the actual type split at its line feeds, every line after
    the first led by the prefix, joined by line feeds again, behind a space
    where one is to be inserted.  Splitting and joining alone gives the
    text back. *)
Theorem twoslash_fix_text_by_lines (a : TwoSlashAssertion) (actual : jsstring) :
  twoslashFixText a actual = twoslashFixLines a actual
  /\ joinLF (splitLF actual) = actual.
Proof.
  split; [|apply join_split].
  unfold twoslashFixText, twoslashFixLines. f_equal.
  apply (fix_body_by_lines (expectedPrefix a) actual).
Qed.

(** ** The range of a caret assertion of one line *)

Lemma length_lit2 : length (lit "//") = 2.
Proof. reflexivity. Qed.

Lemma firstn_app_exact {A : Type} (l r : list A) n :
  n = length l -> firstn n (l ++ r) = l.
Proof.
  intros ->. rewrite firstn_app, Nat.sub_diag, firstn_all. cbn. apply app_nil_r.
Qed.

Lemma skipn_app_exact {A : Type} (l r : list A) n :
  n = length l -> skipn n (l ++ r) = r.
Proof.
  intros ->. rewrite skipn_app, Nat.sub_diag, skipn_all. reflexivity.
Qed.

(** X15.  A caret comment with no continuation line, away from the first
    line: the text is [pre], the comment with its white space [ws] and raw
    payload [raw], and [suf]; the line ends where the payload ends.  The
    assertion expects the payload after its space, and applying the fix
    replaces exactly that part by the fix text; where the comment ends with
    the caret marker, the fix inserts a space and the text behind the
    marker. *)
Theorem caret_fix_replaces_expected
        (pre ws raw suf : jsstring) (commentLine : nat) (lineStarts : list nat)
        (actual : jsstring) :
  let comment := ws ++ lit "^?" ++ raw in
  let sourceText := pre ++ lit "//" ++ comment ++ suf in
  let lineEnd := length pre + 2 + length ws + 2 + length raw in
  matchTwoslash comment = Some (ws, raw) ->
  payloadInOrder raw = true ->
  commentLine <> 1 ->
  (commentLine < length lineStarts ->
   nth commentLine lineStarts 0 = S lineEnd
   /\ startsWith (lineTextAt sourceText lineStarts commentLine)
                 (continuationPrefix sourceText lineStarts (length pre) commentLine ws)
      = false) ->
  (length lineStarts <= commentLine -> suf = []) ->
  exists t,
    parseTwoslashAssertion comment (length pre) commentLine sourceText lineStarts
    = Some (inr t)
    /\ expected t = sliceFrom raw 1
    /\ insertSpace t = (length raw =? 0)
    /\ slice sourceText (Z.to_nat (fst (expectedRange t))) (Z.to_nat (snd (expectedRange t)))
       = expected t
    /\ applyFix sourceText (expectedRange t) (twoslashFixText t actual)
       = pre ++ lit "//" ++ ws ++ lit "^? "
             ++ flat_map (fun c => if Ascii.eqb c LF then c :: expectedPrefix t else [c])
                         actual
             ++ suf.
Proof.
  intros comment sourceText lineEnd Hm Hp Hline Hnext Hlast.
  unfold parseTwoslashAssertion. rewrite Hm.
  pose proof Hp as Hp'. unfold payloadInOrder in Hp'. apply negb_true_iff in Hp'.
  rewrite Hp'. apply Nat.eqb_neq in Hline. rewrite Hline. cbv zeta.
  fold (continuationPrefix sourceText lineStarts (length pre) commentLine ws).
  set (prefix := continuationPrefix sourceText lineStarts (length pre) commentLine ws) in *.
  set (range1 := if commentLine <? length lineStarts
                 then (Z.of_nat (nth commentLine lineStarts 0%nat) - 1)%Z
                 else Z.of_nat (length sourceText)).
  assert (Hlen : length sourceText = lineEnd + length suf).
  { unfold sourceText, comment, lineEnd. rewrite !length_app.
    change (length (lit "//")) with 2. change (length (lit "^?")) with 2. lia. }
  assert (Hrange1 : range1 = Z.of_nat lineEnd).
  { unfold range1. destruct (commentLine <? length lineStarts) eqn:E.
    - apply Nat.ltb_lt in E. destruct (Hnext E) as [Hn _]. rewrite Hn. lia.
    - apply Nat.ltb_ge in E. rewrite Hlen, (Hlast E). cbn [length]. lia. }
  assert (Hcont : continuation sourceText lineStarts commentLine prefix
                               (seq commentLine (length lineStarts - commentLine))
                               (sliceFrom raw 1, range1)
                  = (sliceFrom raw 1, range1)).
  { destruct (Nat.lt_ge_cases commentLine (length lineStarts)) as [Hlt|Hge].
    - destruct (length lineStarts - commentLine) as [|k] eqn:Ek; [lia|].
      cbn [seq continuation]. cbv zeta.
      destruct (Hnext Hlt) as [_ Hstart]. rewrite Hstart. reflexivity.
    - replace (length lineStarts - commentLine) with 0 by lia. reflexivity. }
  rewrite Hcont, Hrange1.
  assert (Hhead : sourceText = (pre ++ lit "//" ++ ws ++ lit "^?") ++ raw ++ suf).
  { unfold sourceText, comment. rewrite <- !app_assoc. reflexivity. }
  assert (Hheadlen : length (pre ++ lit "//" ++ ws ++ lit "^?")
                     = length pre + 2 + length ws + 2).
  { rewrite !length_app. change (length (lit "//")) with 2.
    change (length (lit "^?")) with 2. lia. }
  destruct raw as [|c e].
  - (* the comment ends with the caret marker *)
    cbn [length] in *. unfold lineEnd in *.
    destruct (Z.of_nat (length pre + 2 + length ws + 2 + 0)
              <? Z.of_nat (length pre + length ws + 5))%Z eqn:E;
      [|apply Z.ltb_ge in E; lia].
    eexists. split; [reflexivity|]. cbn [expected insertSpace expectedRange fst snd].
    split; [reflexivity|]. split; [reflexivity|]. split.
    + unfold slice. rewrite Nat.sub_diag. reflexivity.
    + unfold applyFix, twoslashFixText. cbn [fst snd insertSpace expectedPrefix].
      rewrite Nat2Z.id. rewrite Hhead. cbn [app].
      rewrite (firstn_app_exact _ suf) by (rewrite Hheadlen; lia).
      rewrite (skipn_app_exact _ suf) by (rewrite Hheadlen; lia).
      rewrite <- !app_assoc. reflexivity.
  - (* a payload led by its space *)
    assert (Hc : c = SP).
    { cbn in Hp'. destruct (Ascii.eqb c SP) eqn:E; [|discriminate].
      apply Ascii.eqb_eq. exact E. }
    subst c. cbn [length] in *. unfold lineEnd in *.
    destruct (Z.of_nat (length pre + 2 + length ws + 2 + S (length e))
              <? Z.of_nat (length pre + length ws + 5))%Z eqn:E;
      [apply Z.ltb_lt in E; lia|].
    eexists. split; [reflexivity|]. cbn [expected insertSpace expectedRange fst snd].
    split; [reflexivity|]. split; [reflexivity|].
    assert (Hhead' : sourceText
                     = (pre ++ lit "//" ++ ws ++ lit "^? ") ++ e ++ suf).
    { rewrite Hhead. rewrite <- !app_assoc. reflexivity. }
    assert (Hheadlen' : length (pre ++ lit "//" ++ ws ++ lit "^? ")
                        = length pre + length ws + 5).
    { rewrite !length_app. change (length (lit "//")) with 2.
      change (length (lit "^? ")) with 3. lia. }
    rewrite !Nat2Z.id. split.
    + unfold slice, sliceFrom. cbn [skipn]. rewrite Hhead'.
      rewrite (skipn_app_exact _ (e ++ suf)) by (rewrite Hheadlen'; lia).
      apply firstn_app_exact. lia.
    + unfold applyFix, twoslashFixText. cbn [fst snd insertSpace expectedPrefix app].
      rewrite !Nat2Z.id.
      rewrite Hhead' at 1. rewrite (firstn_app_exact _ (e ++ suf)) by (rewrite Hheadlen'; lia).
      replace sourceText with ((pre ++ lit "//" ++ ws ++ lit "^? " ++ e) ++ suf)
        by (rewrite Hhead'; rewrite <- !app_assoc; reflexivity).
      rewrite (skipn_app_exact _ suf).
      * rewrite <- !app_assoc. reflexivity.
      * rewrite !length_app. change (length (lit "//")) with 2.
        change (length (lit "^? ")) with 3. lia.
Qed.

Lemma caret_fix_replaces_expected_witness :
  matchTwoslash (lit "  ^? number") = Some ([SP; SP], lit " number")
  /\ exists t,
      parseTwoslashAssertion (lit "  ^? number") 11 2
                             (lit "let a = 1;" ++ [LF] ++ lit "//  ^? number"
                                  ++ [LF] ++ lit "foo;")
                             [0; 11; 25]
      = Some (inr t)
      /\ applyFix (lit "let a = 1;" ++ [LF] ++ lit "//  ^? number" ++ [LF] ++ lit "foo;")
                  (expectedRange t) (twoslashFixText t (lit "string"))
         = lit "let a = 1;" ++ [LF] ++ lit "//  ^? string" ++ [LF] ++ lit "foo;".
Proof.
  split; [reflexivity|].
  destruct (caret_fix_replaces_expected
              (lit "let a = 1;" ++ [LF]) [SP; SP] (lit " number") ([LF] ++ lit "foo;")
              2 [0; 11; 25] (lit "string") eq_refl eq_refl)
    as (t & Hparse & _ & _ & _ & Hfix).
  - discriminate.
  - intros _. split; reflexivity.
  - cbn [length]. intros H. exfalso. apply (Nat.lt_irrefl 2).
    apply (Nat.lt_le_trans 2 3 2); [apply Nat.lt_succ_diag_r | exact H].
  - exists t. split; [exact Hparse | exact Hfix].
Defined.

(** ** White space in the comparison of a caret assertion, any layout *)

(** X16.  The comparison of a caret assertion does not see how white space is
    laid out: spaces and line feeds around either text are ignored, and a
    run of spaces and line feeds inside a text can be replaced by any other
    such run. *)
Theorem whitespace_layout_ignored (lead trail a r1 r2 b : jsstring) :
  forallb isRunChar lead = true ->
  forallb isRunChar trail = true ->
  r1 <> [] -> r2 <> [] ->
  forallb isRunChar r1 = true ->
  forallb isRunChar r2 = true ->
  matchModuloWhitespace (lead ++ (a ++ r1 ++ b) ++ trail) (a ++ r2 ++ b) = true
  /\ matchModuloWhitespace (a ++ r2 ++ b) (lead ++ (a ++ r1 ++ b) ++ trail) = true.
Proof.
  intros Hlead Htrail H1 H2 Hr1 Hr2.
  assert (Heq : normalize (lead ++ (a ++ r1 ++ b) ++ trail) = normalize (a ++ r2 ++ b)).
  { rewrite (normalize_lead lead _ Hlead), (normalize_trail _ trail Htrail).
    unfold normalize. rewrite (collapse_runs_alike a r1 r2 b H1 H2 Hr1 Hr2). reflexivity. }
  unfold matchModuloWhitespace. cbv zeta. rewrite Heq. split; apply jseq_refl.
Qed.

Lemma whitespace_layout_ignored_witness :
  forallb isRunChar [LF; SP; SP] = true
  /\ matchModuloWhitespace ([LF] ++ (lit "string |" ++ [LF; SP; SP] ++ lit "number") ++ [SP])
                           (lit "string |" ++ [SP] ++ lit "number") = true.
Proof.
  split; [reflexivity|].
  assert (H1 : [LF; SP; SP] <> []) by discriminate.
  assert (H2 : [SP] <> []) by discriminate.
  destruct (whitespace_layout_ignored [LF] [SP] (lit "string |") [LF; SP; SP] [SP]
                                      (lit "number") eq_refl eq_refl H1 H2 eq_refl eq_refl)
    as [H _].
  exact H.
Defined.

(** ** The read-only array matcher on the two spellings of one type *)

Lemma charAt_app (p l : jsstring) (k : nat) :
  charAt (p ++ l) (length p + k) = charAt l k.
Proof.
  unfold charAt. rewrite nth_error_app2 by lia. f_equal. lia.
Qed.

Lemma charAt_app_left (p l : jsstring) (k : nat) :
  k < length p -> charAt (p ++ l) k = charAt p k.
Proof. intros H. unfold charAt. apply nth_error_app1. exact H. Qed.

Lemma skipn_app_len (p l : jsstring) (k : nat) :
  skipn (length p + k) (p ++ l) = skipn k l.
Proof.
  rewrite skipn_app. rewrite skipn_all2 by lia. cbn [app]. f_equal. lia.
Qed.

Lemma charEq_same (c : ascii) : charEq (Some c) (Some c) = true.
Proof. unfold charEq. apply Ascii.eqb_refl. Qed.

Lemma matchLoop_common (x : jsstring) (actual expected : jsstring) :
  forall fuel expectedPos actualPos depth pe pa re ra,
    expected = pe ++ x ++ re -> expectedPos = length pe ->
    actual = pa ++ x ++ ra -> actualPos = length pa ->
    matchLoop (length x + fuel) actual expected expectedPos actualPos depth
    = matchLoop fuel actual expected (expectedPos + length x) (actualPos + length x) depth.
Proof.
  induction x as [|c x IH]; intros fuel ep ap depth pe pa re ra He Hep Ha Hap.
  - cbn [length]. rewrite !Nat.add_0_r. reflexivity.
  - cbn [length Nat.add matchLoop].
    assert (Hce : charAt expected ep = Some c).
    { rewrite He, Hep. rewrite <- (Nat.add_0_r (length pe)). rewrite charAt_app. reflexivity. }
    assert (Hca : charAt actual ap = Some c).
    { rewrite Ha, Hap. rewrite <- (Nat.add_0_r (length pa)). rewrite charAt_app. reflexivity. }
    assert (Hle : (ep <? length expected) = true).
    { apply Nat.ltb_lt. rewrite He, Hep, !length_app. cbn [length]. lia. }
    assert (Hla : (ap <? length actual) = true).
    { apply Nat.ltb_lt. rewrite Ha, Hap, !length_app. cbn [length]. lia. }
    rewrite Hle, Hla, Hce, Hca, charEq_same. cbn [andb].
    rewrite (IH fuel (ep + 1) (ap + 1) depth (pe ++ [c]) (pa ++ [c]) re ra).
    + f_equal; lia.
    + rewrite He, <- !app_assoc. reflexivity.
    + rewrite length_app, Hep. reflexivity.
    + rewrite Ha, <- !app_assoc. reflexivity.
    + rewrite length_app, Hap. reflexivity.
Qed.

Lemma wordBoundary_after (p l : jsstring) (k : nat) (before here : ascii) :
  charAt l k = Some before -> charAt l (S k) = Some here ->
  wordBoundary (p ++ l) (length p + S k) = xorb (isWordChar before) (isWordChar here).
Proof.
  intros Hb Hh. unfold wordBoundary, isWordAt.
  replace (length p + S k) with (S (length p + k)) by lia.
  rewrite charAt_app. replace (S (length p + k)) with (length p + S k) by lia.
  rewrite charAt_app, Hb, Hh. reflexivity.
Qed.

Lemma wordBoundary_start (p l : jsstring) (here : ascii) :
  isWordAt p (pred (length p)) = false ->
  charAt l 0 = Some here ->
  wordBoundary (p ++ l) (length p) = isWordChar here.
Proof.
  intros Hp Hh. unfold wordBoundary.
  assert (Hhere : isWordAt (p ++ l) (length p) = isWordChar here).
  { unfold isWordAt. rewrite <- (Nat.add_0_r (length p)), charAt_app, Hh. reflexivity. }
  rewrite Hhere. destruct (length p) as [|j] eqn:El; [reflexivity|].
  cbn [pred] in Hp. unfold isWordAt in *.
  rewrite charAt_app_left by lia. rewrite Hp. reflexivity.
Qed.

(** X17.  The two spellings of a read-only array match, whatever the element
    type and the text around: [p] stands before and [s] behind in both
    texts, [p] not ending in a letter, a digit or an underscore. *)
Theorem readonly_array_spellings_match (p x s : jsstring) :
  isWordAt p (pred (length p)) = false ->
  matchReadonlyArray (p ++ lit "readonly " ++ x ++ lit "[]" ++ s)
                     (p ++ lit "ReadonlyArray<" ++ x ++ lit ">" ++ s)
  = true.
Proof.
  intros Hp.
  set (actual := p ++ lit "readonly " ++ x ++ lit "[]" ++ s).
  set (expected := p ++ lit "ReadonlyArray<" ++ x ++ lit ">" ++ s).
  assert (Hla : length actual = length p + 9 + length x + 2 + length s).
  { unfold actual. rewrite !length_app. change (length (lit "readonly ")) with 9.
    change (length (lit "[]")) with 2. lia. }
  assert (Hle : length expected = length p + 14 + length x + 1 + length s).
  { unfold expected. rewrite !length_app. change (length (lit "ReadonlyArray<")) with 14.
    change (length (lit ">")) with 1. lia. }
  assert (Hba : wordBoundary actual (length p) = true).
  { unfold actual. apply (wordBoundary_start p _ "r"%char Hp). reflexivity. }
  assert (Hbe : wordBoundary expected (length p) = true).
  { unfold expected. apply (wordBoundary_start p _ "R"%char Hp). reflexivity. }
  assert (Hoa : occursAt (lit "readonly ") actual (length p) = true).
  { unfold occursAt, actual. rewrite <- (Nat.add_0_r (length p)), skipn_app_len.
    apply startsWith_app_self. }
  assert (Hoe : occursAt (lit "ReadonlyArray<") expected (length p) = true).
  { unfold occursAt, expected. rewrite <- (Nat.add_0_r (length p)), skipn_app_len.
    apply startsWith_app_self. }
  assert (Hta : testWord readonlyWord actual = true).
  { unfold testWord. apply existsb_exists. exists (length p). split.
    - apply in_seq. lia.
    - rewrite Hba. cbn [andb]. apply andb_true_iff. split.
      + unfold occursAt, actual. rewrite <- (Nat.add_0_r (length p)), skipn_app_len.
        apply (startsWith_app_self readonlyWord (lit " " ++ x ++ lit "[]" ++ s)).
      + unfold actual. change (length readonlyWord) with 8.
        rewrite (wordBoundary_after p _ 7 "y"%char " "%char); reflexivity. }
  assert (Hte : testWord ReadonlyArrayWord expected = true).
  { unfold testWord. apply existsb_exists. exists (length p). split.
    - apply in_seq. lia.
    - rewrite Hbe. cbn [andb]. apply andb_true_iff. split.
      + unfold occursAt, expected. rewrite <- (Nat.add_0_r (length p)), skipn_app_len.
        apply (startsWith_app_self ReadonlyArrayWord (lit "<" ++ x ++ lit ">" ++ s)).
      + unfold expected. change (length ReadonlyArrayWord) with 13.
        rewrite (wordBoundary_after p _ 12 "y"%char "<"%char); reflexivity. }
  unfold matchReadonlyArray. fold actual expected. rewrite Hta, Hte. cbn [andb negb].
  (* the text before *)
  assert (Hfuel : exists fuel,
             S (length expected) = length p + S (length x + S (length s + S fuel)))
    by (exists 13; lia).
  destruct Hfuel as [fuel Hfuel]. rewrite Hfuel.
  rewrite (matchLoop_common p actual expected _ 0 0 0 [] []
                            (lit "ReadonlyArray<" ++ x ++ lit ">" ++ s)
                            (lit "readonly " ++ x ++ lit "[]" ++ s)
                            eq_refl eq_refl eq_refl eq_refl).
  cbn [Nat.add].
  (* the start of the read-only array *)
  cbn [matchLoop].
  assert (H1 : (length p <? length expected) = true) by (apply Nat.ltb_lt; lia).
  assert (H2 : (length p <? length actual) = true) by (apply Nat.ltb_lt; lia).
  assert (Hce : charAt expected (length p) = Some "R"%char).
  { unfold expected. rewrite <- (Nat.add_0_r (length p)), charAt_app. reflexivity. }
  assert (Hca : charAt actual (length p) = Some "r"%char).
  { unfold actual. rewrite <- (Nat.add_0_r (length p)), charAt_app. reflexivity. }
  rewrite H1, H2, Hce, Hca. cbn [andb charEq Nat.ltb Nat.leb].
  change (Ascii.eqb "R" "r") with false. cbv iota.
  unfold readonlyArrayRegExp, readonlyModifierRegExp.
  rewrite Hbe, Hba, Hoe, Hoa. cbn [andb].
  (* the element type *)
  rewrite (matchLoop_common x actual expected _ _ _ _
                            (p ++ lit "ReadonlyArray<") (p ++ lit "readonly ")
                            (lit ">" ++ s) (lit "[]" ++ s)).
  2: { unfold expected. rewrite <- !app_assoc. reflexivity. }
  2: { rewrite length_app. reflexivity. }
  2: { unfold actual. rewrite <- !app_assoc. reflexivity. }
  2: { rewrite length_app. reflexivity. }
  (* the end of the read-only array *)
  cbn [matchLoop].
  assert (H3 : (length p + 14 + length x <? length expected) = true)
    by (apply Nat.ltb_lt; lia).
  assert (H4 : (length p + 9 + length x <? length actual) = true)
    by (apply Nat.ltb_lt; lia).
  assert (H5 : (length p + 9 + length x <? length actual - 1) = true)
    by (apply Nat.ltb_lt; lia).
  assert (Hce2 : charAt expected (length p + 14 + length x) = Some ">"%char).
  { unfold expected.
    replace (p ++ lit "ReadonlyArray<" ++ x ++ lit ">" ++ s)
      with ((p ++ lit "ReadonlyArray<" ++ x) ++ lit ">" ++ s)
      by (rewrite <- !app_assoc; reflexivity).
    replace (length p + 14 + length x)
      with (length (p ++ lit "ReadonlyArray<" ++ x) + 0)
      by (rewrite !length_app; change (length (lit "ReadonlyArray<")) with 14; lia).
    rewrite charAt_app. reflexivity. }
  assert (Hca2 : charAt actual (length p + 9 + length x) = Some "["%char
                 /\ charAt actual (length p + 9 + length x + 1) = Some "]"%char).
  { unfold actual.
    replace (p ++ lit "readonly " ++ x ++ lit "[]" ++ s)
      with ((p ++ lit "readonly " ++ x) ++ lit "[]" ++ s)
      by (rewrite <- !app_assoc; reflexivity).
    replace (length p + 9 + length x)
      with (length (p ++ lit "readonly " ++ x) + 0)
      by (rewrite !length_app; change (length (lit "readonly ")) with 9; lia).
    rewrite <- Nat.add_assoc. rewrite !charAt_app. split; reflexivity. }
  destruct Hca2 as [Hca2 Hca3].
  rewrite H3, H4, H5, Hce2, Hca2, Hca3. cbn [andb charEq isChar].
  change (Ascii.eqb ">" "[") with false. cbv iota.
  replace (0 <? 0 + 1) with true by reflexivity.
  change (Ascii.eqb ">" ">") with true. change (Ascii.eqb "[" "[") with true.
  change (Ascii.eqb "]" "]") with true. cbn [andb].
  (* the text behind *)
  rewrite (matchLoop_common s actual expected (S fuel) _ _ _
                            (p ++ lit "ReadonlyArray<" ++ x ++ lit ">")
                            (p ++ lit "readonly " ++ x ++ lit "[]") [] []).
  2: { unfold expected. rewrite <- !app_assoc, app_nil_r. reflexivity. }
  2: { rewrite !length_app. change (length (lit "ReadonlyArray<")) with 14.
       change (length (lit ">")) with 1. lia. }
  2: { unfold actual. rewrite <- !app_assoc, app_nil_r. reflexivity. }
  2: { rewrite !length_app. change (length (lit "readonly ")) with 9.
       change (length (lit "[]")) with 2. lia. }
  cbn [matchLoop].
  replace (length p + 14 + length x + 1 + length s <? length expected) with false
    by (symmetry; apply Nat.ltb_ge; lia).
  reflexivity.
Qed.

Lemma readonly_array_spellings_match_witness :
  isWordAt (lit "Promise<") (pred (length (lit "Promise<"))) = false
  /\ matchReadonlyArray (lit "Promise<readonly number[]>")
                        (lit "Promise<ReadonlyArray<number>>") = true.
Proof.
  split; [reflexivity|].
  exact (readonly_array_spellings_match (lit "Promise<") (lit "number") (lit ">") eq_refl).
Defined.

(** ** Where the results of the pass come from *)

Lemma map_get_In {V : Type} (l : nat) (m : Map V) (v : V) :
  map_get l m = Some v -> In (l, v) m.
Proof.
  unfold map_get. destruct (find _ m) as [[k w]|] eqn:E; [|discriminate].
  intros H. injection H as <-. apply find_some in E. destruct E as [Hin Hk].
  apply Nat.eqb_eq in Hk. cbn [fst] in Hk. subst k. exact Hin.
Qed.

Lemma map_remove_In {V : Type} (l : nat) (m : Map V) (kv : nat * V) :
  In kv (map_remove l m) -> In kv m.
Proof. unfold map_remove. intros H. apply filter_In in H. exact (proj1 H). Qed.

Section Provenance.

Variable lineOfPosition : number -> nat.
Variable typeToString : Node -> jsstring.
Variable quickInfo : Z -> option (list jsstring).

Lemma specUnmet_mismatch (vs : list Node) :
  forall m u,
    In u (specUnmet lineOfPosition typeToString m vs) ->
    exists l, In (l, assertion u) m
              /\ typeMismatch (assertionExpected (assertion u)) (actual u) = true.
Proof.
  induction vs as [|n vs IH]; intros m u Hin; cbn [specUnmet] in Hin; [destruct Hin|].
  destruct (map_get (lineOfNode lineOfPosition n) m) as [a|] eqn:E.
  - apply in_app_or in Hin. destruct Hin as [Hin|Hin].
    + destruct (typeMismatch _ _) eqn:Em; [|destruct Hin].
      destruct Hin as [<-|[]]. exists (lineOfNode lineOfPosition n).
      split; [apply map_get_In; exact E | exact Em].
    + destruct (IH _ u Hin) as (l & Hl & Hm). exists l.
      split; [eapply map_remove_In; exact Hl | exact Hm].
  - exact (IH m u Hin).
Qed.

Lemma specPending_keys (vs : list Node) :
  forall m l,
    In l (map_keys (specPending lineOfPosition m vs)) -> In l (map_keys m).
Proof.
  induction vs as [|n vs IH]; intros m l Hin; cbn [specPending] in Hin; [exact Hin|].
  apply IH in Hin. rewrite map_remove_keys in Hin. apply filter_In in Hin.
  exact (proj1 Hin).
Qed.

Lemma number_eqb_true (p : number) (z : Z) : number_eqb p z = true <-> p = Num z.
Proof.
  destruct p as [x|]; cbn [number_eqb].
  - rewrite Z.eqb_eq. split; congruence.
  - split; discriminate.
Qed.

Lemma lineAndCharacterOfPosition_line (p : number) (l : nat) :
  lineAndCharacterOfPosition lineOfPosition p = Some l -> l = lineOfPosition p.
Proof.
  unfold lineAndCharacterOfPosition. destruct p as [z|]; [|discriminate].
  destruct (z <? 0)%Z; [discriminate|]. intros H. injection H as <-. reflexivity.
Qed.

Lemma checkTwoSlash_provenance (sourceFile : Node) (m : Map Assertion)
      (ts : list TwoSlashAssertion)
      (st st' : list nat * list UnmetExpectation * list Event) (t : TwoSlashAssertion) :
  In t ts ->
  Forall (unusedOf lineOfPosition m ts) (fst (fst st)) ->
  Forall (mismatchOf m ts) (snd (fst st)) ->
  checkTwoSlash lineOfPosition quickInfo sourceFile st t = Some st' ->
  Forall (unusedOf lineOfPosition m ts) (fst (fst st'))
  /\ Forall (mismatchOf m ts) (snd (fst st')).
Proof.
  destruct st as [[lines unmet] tr]. cbn [fst snd]. intros Ht Hl Hu.
  unfold checkTwoSlash.
  assert (Hzero : position t = Num (-1) -> unusedOf lineOfPosition m ts 0).
  { intros Hp. right. exists t. split; [exact Ht|]. left. split; [exact Hp | reflexivity]. }
  assert (Hline : forall l,
             position t <> Num (-1) ->
             lineAndCharacterOfPosition lineOfPosition (position t) = Some l ->
             unusedOf lineOfPosition m ts l).
  { intros l Hp Hlook. apply lineAndCharacterOfPosition_line in Hlook. subst l.
    right. exists t. split; [exact Ht|]. right. split; [exact Hp | reflexivity]. }
  destruct (number_eqb (position t) (-1)) eqn:Ep.
  - intros H. injection H as <-. cbn [fst snd].
    apply number_eqb_true in Ep. split; [|exact Hu].
    apply Forall_app. split; [exact Hl|]. constructor; [auto | constructor].
  - assert (Hp : position t <> Num (-1)).
    { intros H. apply number_eqb_true in H. congruence. }
    destruct (getNodeAtPosition _ _) as [n|].
    + destruct (quickInfo _) as [parts|].
      * destruct (negb _) eqn:En; intros H; injection H as <-; cbn [fst snd];
          split; try assumption.
        apply Forall_app. split; [exact Hu|]. constructor; [|constructor].
        right. exists t. split; [exact Ht|]. split; [reflexivity|].
        apply negb_true_iff in En. exact En.
      * destruct (lineAndCharacterOfPosition _ _) as [l|] eqn:El; [|discriminate].
        intros H. injection H as <-. cbn [fst snd]. split; [|exact Hu].
        apply Forall_app. split; [exact Hl|].
        constructor; [exact (Hline l Hp eq_refl) | constructor].
    + destruct (lineAndCharacterOfPosition _ _) as [l|] eqn:El; [|discriminate].
      intros H. injection H as <-. cbn [fst snd]. split; [|exact Hu].
      apply Forall_app. split; [exact Hl|].
      constructor; [exact (Hline l Hp eq_refl) | constructor].
Qed.

Lemma checkTwoSlashes_provenance (sourceFile : Node) (m : Map Assertion)
      (ts : list TwoSlashAssertion) (done : list TwoSlashAssertion) :
  forall st st',
    (forall t, In t done -> In t ts) ->
    Forall (unusedOf lineOfPosition m ts) (fst (fst st)) ->
    Forall (mismatchOf m ts) (snd (fst st)) ->
    checkTwoSlashes lineOfPosition quickInfo sourceFile done st = Some st' ->
    Forall (unusedOf lineOfPosition m ts) (fst (fst st'))
    /\ Forall (mismatchOf m ts) (snd (fst st')).
Proof.
  induction done as [|t done IH]; intros st st' Hsub Hl Hu H; cbn [checkTwoSlashes] in H.
  - injection H as <-. split; assumption.
  - destruct (checkTwoSlash _ _ _ st t) as [st1|] eqn:E; [|discriminate].
    destruct (checkTwoSlash_provenance sourceFile m ts st st1 t
                                       (Hsub t (or_introl eq_refl)) Hl Hu E) as [Hl' Hu'].
    apply (IH st1 st'); [|exact Hl'|exact Hu'|exact H].
    intros t' Hin. apply Hsub. right. exact Hin.
Qed.

Lemma failures_provenance (sourceFile : Node) (m : Map Assertion)
      (ts : list TwoSlashAssertion) (failures : ExpectTypeFailures) :
  getExpectTypeFailures lineOfPosition typeToString quickInfo sourceFile m ts
  = Some failures ->
  Forall (mismatchOf m ts) (failuresUnmet failures)
  /\ Forall (unusedOf lineOfPosition m ts) (unusedAssertions failures).
Proof.
  intros Hret.
  destruct (getExpectTypeFailures_returns lineOfPosition typeToString quickInfo
                                          sourceFile m ts failures Hret)
    as (lines & unmet & tr & Hloop & ->).
  destruct (traversal_follows_rule lineOfPosition typeToString sourceFile) as [_ Hrule].
  destruct (Hrule (mkPass m [] [])) as (vs & Ht & Hp & Hu).
  cbn [pending unmetExpectations trace app] in Ht, Hp, Hu.
  assert (Hunmet0 : Forall (mismatchOf m ts)
                           (unmetExpectations
                              (forEachChild lineOfPosition typeToString sourceFile
                                            (mkPass m [] [])))).
  { rewrite Hu. apply Forall_forall. intros u Hin. left.
    apply (specUnmet_mismatch vs m u Hin). }
  destruct (checkTwoSlashes_provenance
              sourceFile m ts ts
              ([], unmetExpectations (forEachChild lineOfPosition typeToString sourceFile
                                                   (mkPass m [] [])),
               trace (forEachChild lineOfPosition typeToString sourceFile
                                   (mkPass m [] [])))
              (lines, unmet, tr) (fun t H => H)
              (Forall_nil _) Hunmet0 Hloop) as [Hl Hm].
  cbn [fst snd] in Hl, Hm. cbn [failuresUnmet unusedAssertions].
  split; [exact Hm|]. apply Forall_app. split; [exact Hl|].
  rewrite Hp. apply Forall_forall. intros l Hin. left.
  apply (specPending_keys vs m l Hin).
Qed.

Lemma failures_count (sourceFile : Node) (m : Map Assertion)
      (ts : list TwoSlashAssertion) (failures : ExpectTypeFailures) :
  NoDup (map_keys m) ->
  getExpectTypeFailures lineOfPosition typeToString quickInfo sourceFile m ts
  = Some failures ->
  length (failuresUnmet failures) + length (unusedAssertions failures)
  <= length m + length ts.
Proof.
  intros Hnodup Hret.
  destruct (getExpectTypeFailures_returns lineOfPosition typeToString quickInfo
                                          sourceFile m ts failures Hret)
    as (lines & unmet & tr & Hloop & ->).
  destruct (traversal_follows_rule lineOfPosition typeToString sourceFile) as [_ Hrule].
  destruct (Hrule (mkPass m [] [])) as (vs & Ht & Hp & Hu).
  cbn [pending unmetExpectations trace app] in Ht, Hp, Hu.
  destruct (spec_outcomes lineOfPosition typeToString vs m Hnodup) as [Hcount Hunmet].
  pose proof (checkTwoSlashes_outcome lineOfPosition quickInfo sourceFile ts _ _ Hloop)
    as Hfold.
  cbn [fst snd] in Hfold.
  cbn [failuresUnmet unusedAssertions]. rewrite length_app. unfold map_keys.
  rewrite length_map, Hp. rewrite Hu in Hfold. simpl in Hfold. lia.
Qed.

(** X18.  What [getExpectTypeFailures] gives back, when it ends without an
    exception, comes from what it is given.  An unmet expectation is a
    mismatch: of an assertion of the map with the type of the node, by the
    comparison of types, or of a caret assertion of the list with the quick
    info, by the comparison modulo white space.  An unused line is a key of
    the map, or stands for a caret assertion of the list: line 0 for one on
    the first line, the line of its position otherwise. *)
Theorem failures_come_from_assertions (sourceFile : Node) (m : Map Assertion)
        (ts : list TwoSlashAssertion) (failures : ExpectTypeFailures) :
  getExpectTypeFailures lineOfPosition typeToString quickInfo sourceFile m ts
  = Some failures ->
  (forall u, In u (failuresUnmet failures) -> mismatchOf m ts u)
  /\ (forall l, In l (unusedAssertions failures) -> unusedOf lineOfPosition m ts l).
Proof.
  intros Hret. destruct (failures_provenance sourceFile m ts failures Hret) as [Hu Hl].
  rewrite Forall_forall in Hu, Hl. split; assumption.
Qed.

Section ReportCount.

Variable Diagnostic : Type.
Variable isDiagnosticWithStart : Diagnostic -> option Z.

(** X19.  The reports for a file never outnumber what was parsed from it:
    the duplicates, the lines with an expected error, the syntax errors,
    the type assertions and the caret assertions. *)
Theorem reports_bounded_by_assertions
        (fileName : jsstring) (sf : SourceFile) (diagnostics : list Diagnostic)
        (store : SnapshotStore) :
  let a := parseAssertions (text sf) (lineStarts sf) in
  length (reportsMade
            (validate lineOfPosition typeToString quickInfo Diagnostic
                      isDiagnosticWithStart fileName (Some sf) diagnostics store))
  <= length (duplicates a) + length (errorLines a) + length (syntaxErrors a)
     + length (typeAssertions a) + length (twoSlashAssertions a).
Proof.
  cbv zeta. unfold validate. destruct (negb _); [cbn [reportsMade length]; lia|].
  pose proof (List.filter_length_le
                (fun line => negb (set_has line
                   (map (fun start => lineOfPosition (Num start))
                        (filterMap isDiagnosticWithStart diagnostics))))
                (errorLines (parseAssertions (text sf) (lineStarts sf)))) as Hearly.
  destruct (reportAssertions lineOfPosition typeToString quickInfo Diagnostic
                             isDiagnosticWithStart fileName sf diagnostics store
                             (parseAssertions (text sf) (lineStarts sf)))
    as [reports|reports] eqn:Hret; cbn [reportsMade].
  - destruct (reportAssertions_returns lineOfPosition typeToString quickInfo Diagnostic
                                       isDiagnosticWithStart fileName sf diagnostics store
                                       _ reports Hret) as (failures & Hfail & ->).
    destruct (parse_directives (text sf) (lineStarts sf)) as (He & Ht & _).
    assert (Hnodup : NoDup (map_keys (loadSnapshots fileName store
                                        (typeAssertions
                                           (parseAssertions (text sf) (lineStarts sf)))))).
    { rewrite loadSnapshots_keys, Ht. apply runDirectives_NoDup. split; constructor. }
    pose proof (failures_count (root sf) _ _ failures Hnodup Hfail) as Hcount.
    rewrite loadSnapshots_length in Hcount.
    rewrite !length_app, !length_map.
    pose proof (List.filter_length_le
                  (fun line => negb (set_has line
                     (map (fun start => lineOfPosition (Num start))
                          (filterMap isDiagnosticWithStart diagnostics))))
                  (errorLines (parseAssertions (text sf) (lineStarts sf)))) as Hfilter.
    lia.
  - rewrite (reportAssertions_throws lineOfPosition typeToString quickInfo Diagnostic
                                     isDiagnosticWithStart fileName sf diagnostics store
                                     _ reports Hret).
    rewrite !length_app, !length_map. lia.
Qed.

End ReportCount.

End Provenance.

Lemma failures_come_from_assertions_witness :
  exists failures,
    getExpectTypeFailures sampleLineOfPosition sampleTypeToString sampleQuickInfo
                          sampleRoot [(0, manual (lit "string"))] []
    = Some failures
    /\ In (mkUnmet (manual (lit "string")) sampleIdentifier (lit "number"))
          (failuresUnmet failures)
    /\ mismatchOf [(0, manual (lit "string"))] []
                  (mkUnmet (manual (lit "string")) sampleIdentifier (lit "number")).
Proof.
  eexists. split; [vm_compute; reflexivity|].
  assert (Hin : In (mkUnmet (manual (lit "string")) sampleIdentifier (lit "number"))
                   [mkUnmet (manual (lit "string")) sampleIdentifier (lit "number")])
    by (left; reflexivity).
  split; [exact Hin|].
  destruct (failures_come_from_assertions
              sampleLineOfPosition sampleTypeToString sampleQuickInfo
              sampleRoot [(0, manual (lit "string"))] []
              (mkFailures [mkUnmet (manual (lit "string")) sampleIdentifier (lit "number")]
                          [] [Visit sampleStatement;
                              Compare 0 sampleIdentifier
                                      (mkUnmet (manual (lit "string")) sampleIdentifier
                                               (lit "number"))]))
    as [H _].
  - vm_compute. reflexivity.
  - exact (H _ Hin).
Defined.

(** ** The report of an expected error that is missing *)

Section ErrorReports.

Variable lineOfPosition : number -> nat.
Variable typeToString : Node -> jsstring.
Variable quickInfo : Z -> option (list jsstring).

Lemma reportUnmet_message (u : UnmetExpectation) :
  messageId (reportUnmet u) = TypesDoNotMatch
  \/ messageId (reportUnmet u) = TypeSnapshotNotFound
  \/ messageId (reportUnmet u) = TypeSnapshotDoNotMatch.
Proof.
  unfold reportUnmet. destruct (assertion u) as [t|e|[e|] name]; cbn [messageId]; auto.
Qed.

Lemma lineReport_inj (m m' : MessageId) (l l' : nat) :
  lineReport m (Z.of_nat l) = lineReport m' (Z.of_nat l') -> m = m' /\ l = l'.
Proof.
  unfold lineReport. intros H. injection H as Hm Hl. split; [exact Hm | lia].
Qed.

Variable Diagnostic : Type.
Variable isDiagnosticWithStart : Diagnostic -> option Z.

(** Among the reports of the five kinds, only those of the missing errors
    can be the report of a missing error. *)
Lemma error_report_among (l : nat) (seen dups errors orphans : list nat)
      (syntax : list SyntaxError) (unmet : list UnmetExpectation) :
  In (lineReport ExpectedErrorNotFound (Z.of_nat l))
     (map (fun line => lineReport Multiple_ExpectTypeAssertions (Z.of_nat line)) dups
      ++ map (fun line => lineReport ExpectedErrorNotFound (Z.of_nat line))
             (filter (fun line => negb (set_has line seen)) errors)
      ++ map (fun e => mkReport SyntaxErrorMessage (LineColumn (line e + 1) 0)
                                None None (Some (type e)) None) syntax
      ++ map reportUnmet unmet
      ++ map (fun line => lineReport OrphanAssertion (Z.of_nat line)) orphans)
  <-> In l errors /\ ~ In l seen.
Proof.
  rewrite !in_app_iff. split.
  - intros [H|[H|[H|[H|H]]]]; apply in_map_iff in H.
    + destruct H as (x & Hx & _). apply lineReport_inj in Hx.
      destruct Hx as [Hx _]. discriminate.
    + destruct H as (x & Hx & Hin). apply lineReport_inj in Hx.
      destruct Hx as [_ ->]. apply filter_In in Hin. destruct Hin as [Hin Hseen].
      split; [exact Hin|]. intros Hd. apply set_has_In in Hd.
      rewrite Hd in Hseen. discriminate.
    + destruct H as (x & Hx & _). discriminate.
    + destruct H as (u & Hu & _).
      pose proof (reportUnmet_message u) as Hm. rewrite Hu in Hm.
      cbn [lineReport messageId] in Hm. destruct Hm as [Hm|[Hm|Hm]]; discriminate.
    + destruct H as (x & Hx & _). apply lineReport_inj in Hx.
      destruct Hx as [Hx _]. discriminate.
  - intros [Hin Hseen]. right. left. apply in_map_iff. exists l. split; [reflexivity|].
    apply filter_In. split; [exact Hin|].
    destruct (set_has l _) eqn:E; [|reflexivity].
    apply set_has_In in E. contradiction.
Qed.

Lemma error_report_in (fileName : jsstring) (sf : SourceFile)
      (diagnostics : list Diagnostic) (store : SnapshotStore) (a : Assertions) (l : nat) :
  In (lineReport ExpectedErrorNotFound (Z.of_nat l))
     (reportsMade
        (reportAssertions lineOfPosition typeToString quickInfo Diagnostic
                          isDiagnosticWithStart fileName sf diagnostics store a))
  <-> In l (errorLines a)
      /\ ~ In l (map (fun start => lineOfPosition (Num start))
                     (filterMap isDiagnosticWithStart diagnostics)).
Proof.
  unfold reportAssertions. cbv zeta.
  destruct (getExpectTypeFailures _ _ _ _ _ _) as [failures|]; cbn [reportsMade].
  - apply error_report_among.
  - rewrite <- (error_report_among l _ (duplicates a) (errorLines a) []
                                   (syntaxErrors a) []).
    cbn [map]. rewrite !app_nil_r. reflexivity.
Qed.

(** X20.  For a file the program knows, [validate] reports a missing
    expected error on a line if and only if an [$ExpectError] comment is
    attributed to the line and none of the diagnostics that the guard
    [isDiagnosticWithStart] lets through starts on it; this holds whether
    the run returns or ends with an exception later on. *)
Theorem expected_error_not_found
        (fileName : jsstring) (sf : SourceFile) (diagnostics : list Diagnostic)
        (store : SnapshotStore) (l : nat) :
  In (lineReport ExpectedErrorNotFound (Z.of_nat l))
     (reportsMade
        (validate lineOfPosition typeToString quickInfo Diagnostic isDiagnosticWithStart
                  fileName (Some sf) diagnostics store))
  <-> 0 < countErrorOn l (directivesOf (text sf) (lineStarts sf))
      /\ ~ In l (map (fun start => lineOfPosition (Num start))
                     (filterMap isDiagnosticWithStart diagnostics)).
Proof.
  destruct (parseAssertions_line (text sf) (lineStarts sf) l) as (_ & He & _).
  assert (Hlines : In l (errorLines (parseAssertions (text sf) (lineStarts sf)))
                   <-> 0 < countErrorOn l (directivesOf (text sf) (lineStarts sf))).
  { rewrite <- set_has_In, He. apply Nat.ltb_lt. }
  rewrite <- Hlines. unfold validate.
  destruct (mentionsDirective (text sf)) eqn:E; cbn [negb].
  - apply error_report_in.
  - rewrite (parse_without_mention (text sf) (lineStarts sf) E).
    cbn [reportsMade errorLines emptyAssertions]. split; [intros [] | intros [[] _]].
Qed.

End ErrorReports.

Lemma expected_error_not_found_witness :
  In (lineReport ExpectedErrorNotFound (Z.of_nat 0))
     (reportsMade
        (validate sampleLineOfPosition sampleTypeToString sampleQuickInfo
                  (option Z) sampleIsDiagnosticWithStart (lit "file.ts")
                  (Some (mkSourceFile errorBehindCodeSource
                                      (computeLineStarts errorBehindCodeSource)
                                      sampleRoot))
                  [Some 0%Z] [])).
Proof.
  apply (expected_error_not_found
           sampleLineOfPosition sampleTypeToString sampleQuickInfo
           (option Z) sampleIsDiagnosticWithStart (lit "file.ts")
           (mkSourceFile errorBehindCodeSource (computeLineStarts errorBehindCodeSource)
                         sampleRoot)
           [Some 0%Z] [] 0).
  split; [vm_compute; apply Nat.lt_0_1 | intros []].
Defined.

(** ** The assertions of the map *)

Lemma truthy_nonempty (p : option jsstring) (e : jsstring) :
  truthy p = Some e -> e <> [].
Proof.
  destruct p as [[|c p]|]; cbn [truthy]; try discriminate.
  intros H. injection H as <-. discriminate.
Qed.

Lemma map_replace_values {V : Type} (P : V -> Prop) (k : nat) (v : V) (m : Map V) :
  P v -> Forall (fun kv => P (snd kv)) m ->
  Forall (fun kv => P (snd kv)) (map_replace k v m).
Proof.
  intros Hv Hm. induction Hm as [|[k' v'] m Hkv Hm IH]; cbn [map_replace]; [constructor|].
  destruct (Nat.eqb k' k); constructor; assumption.
Qed.

Lemma map_set_values {V : Type} (P : V -> Prop) (k : nat) (v : V) (m : Map V) :
  P v -> Forall (fun kv => P (snd kv)) m ->
  Forall (fun kv => P (snd kv)) (map_set k v m).
Proof.
  intros Hv Hm. unfold map_set. destruct (map_has k m).
  - apply map_replace_values; assumption.
  - apply Forall_app. split; [exact Hm|]. constructor; [exact Hv | constructor].
Qed.

Lemma map_remove_values {V : Type} (P : V -> Prop) (k : nat) (m : Map V) :
  Forall (fun kv => P (snd kv)) m ->
  Forall (fun kv => P (snd kv)) (map_remove k m).
Proof.
  intros Hm. unfold map_remove. rewrite Forall_forall in *.
  intros kv Hin. apply filter_In in Hin. apply Hm. exact (proj1 Hin).
Qed.

Lemma applyDirective_values (a : Assertions) (l : nat) (d : Directive)
      (p : option jsstring) :
  Forall (fun kv => parsedAssertion (snd kv)) (typeAssertions a) ->
  Forall (fun kv => parsedAssertion (snd kv)) (typeAssertions (applyDirective a l d p)).
Proof.
  intros H. unfold applyDirective, map_delete.
  destruct d; try (exact H); destruct (truthy p) as [e|] eqn:E; try (exact H);
    destruct (map_has l (typeAssertions a)); cbn [typeAssertions];
    try (apply map_remove_values; exact H);
    apply map_set_values; try (apply map_remove_values; exact H);
    cbn [parsedAssertion]; try (split; [reflexivity|]);
    exact (truthy_nonempty p e E).
Qed.

Lemma runDirectives_values (ds : list (nat * Directive * option jsstring)) :
  forall a,
    Forall (fun kv => parsedAssertion (snd kv)) (typeAssertions a) ->
    Forall (fun kv => parsedAssertion (snd kv)) (typeAssertions (runDirectives a ds)).
Proof.
  unfold runDirectives. induction ds as [|d ds IH]; intros a H; simpl; [exact H|].
  apply IH. apply applyDirective_values. exact H.
Qed.

(** X21.  Whatever the text and the line table, the assertions of the map are
    well formed: a manual assertion with an expected text that is not
    empty, or a snapshot assertion with a name that is not empty and no
    expected text yet; a caret assertion is never put in the map. *)
Theorem parsed_assertions_well_formed (text : jsstring) (lineStarts : list nat) :
  Forall (fun kv => parsedAssertion (snd kv))
         (typeAssertions (parseAssertions text lineStarts)).
Proof.
  destruct (parse_directives text lineStarts) as (_ & Ht & _).
  rewrite Ht. apply runDirectives_values. constructor.
Qed.

(** ** The traversal in the order of the tree *)

Lemma each_preorder (l : list Node) :
  (fix each (l : list Node) : list Node :=
     match l with
     | [] => []
     | c :: l' => preorder c ++ each l'
     end) l
  = flat_map preorder l.
Proof. induction l as [|c l IH]; [reflexivity|]. cbn [flat_map]. rewrite <- IH. reflexivity. Qed.

(** The defining equation of [preorder]. *)
Lemma preorder_eq (n : Node) : preorder n = n :: flat_map preorder (childrenOf n).
Proof.
  destruct n; cbn [preorder childrenOf]; rewrite ?each_preorder; f_equal.
  - cbn [flat_map]. rewrite app_nil_r. reflexivity.
  - rewrite flat_map_app. cbn [flat_map]. rewrite app_nil_r. reflexivity.
  - cbn [flat_map]. rewrite flat_map_app. f_equal.
    destruct type_, initializer; cbn [optNode flat_map]; rewrite ?app_nil_r; reflexivity.
Qed.

Lemma comparisons_app (t1 t2 : list Event) :
  comparisons (t1 ++ t2) = comparisons t1 ++ comparisons t2.
Proof. unfold comparisons. apply filter_app. Qed.

Lemma comparisons_bound (n : Node) (l : nat) (nodeToCheck : Node)
      (candidate : UnmetExpectation) (tr : list Event) :
  comparisons (Visit n :: Compare l nodeToCheck candidate :: tr)
  = Compare l nodeToCheck candidate :: comparisons tr.
Proof. reflexivity. Qed.

Lemma comparesFor_comparisons (l : nat) (tr : list Event) :
  comparesFor l (comparisons tr) = comparesFor l tr.
Proof.
  unfold comparesFor, comparisons. induction tr as [|e tr IH]; [reflexivity|].
  destruct e as [v|l' nodeToCheck candidate|p|q]; cbn [filter]; try exact IH.
  destruct (Nat.eqb l' l); [f_equal|]; exact IH.
Qed.

Section TraversalInOrder.

Variable lineOfPosition : number -> nat.
Variable typeToString : Node -> jsstring.

Local Abbreviation iterate' := (iterate lineOfPosition typeToString).
Local Abbreviation forEachChild' := (forEachChild lineOfPosition typeToString).
Local Abbreviation sTrace := (specTrace lineOfPosition typeToString).
Local Abbreviation sPending := (specPending lineOfPosition).
Local Abbreviation sUnmet := (specUnmet lineOfPosition typeToString).
Local Abbreviation inOrder := (followsOrder lineOfPosition typeToString).

Lemma followsOrder_compose (f g : Pass -> Pass) (o1 o2 : list Node) :
  inOrder f o1 -> inOrder g o2 -> inOrder (fun st => g (f st)) (o1 ++ o2).
Proof.
  intros Hf Hg st.
  destruct (Hf st) as (Hp & Hu & Hc). destruct (Hg (f st)) as (Hp' & Hu' & Hc').
  rewrite Hp', Hu', Hc', Hp, Hu, Hc.
  rewrite specTrace_app, specPending_app, specUnmet_app, comparisons_app, <- !app_assoc.
  split; [reflexivity|]. split; reflexivity.
Qed.

Lemma followsOrder_fold (l : list Node) :
  Forall (fun c => inOrder (iterate' c) (preorder c)) l ->
  inOrder (fold_left (fun st c => iterate' c st) l) (flat_map preorder l).
Proof.
  induction 1 as [|c l Hc Hl IH].
  - intros st. cbn. rewrite !app_nil_r. split; [reflexivity|]. split; reflexivity.
  - cbn [fold_left flat_map]. apply (followsOrder_compose (iterate' c) _ _ _ Hc IH).
Qed.

(** A node whose line has no pending entry adds nothing to what the rule
    gives. *)
Lemma spec_skip (n : Node) (order : list Node) (m : Map Assertion) :
  map_get (lineOfNode lineOfPosition n) m = None ->
  sPending m (n :: order) = sPending m order
  /\ sUnmet m (n :: order) = sUnmet m order
  /\ comparisons (sTrace m (n :: order)) = comparisons (sTrace m order).
Proof.
  intros E. cbn [specPending specUnmet specTrace]. rewrite E.
  rewrite (map_remove_absent _ _ E). split; [reflexivity|]. split; reflexivity.
Qed.

Lemma followsOrder_iterate (n : Node) :
  startsWithExpression n ->
  inOrder (forEachChild' n) (flat_map preorder (childrenOf n)) ->
  (forall s e x, n = ExpressionStatement s e x ->
                 inOrder (forEachChild' x) (flat_map preorder (childrenOf x))) ->
  inOrder (iterate' n) (preorder n).
Proof.
  intros Hstart Hn Hexpr st. rewrite iterate_eq, preorder_eq. cbv zeta.
  fold (lineOfNode lineOfPosition n).
  destruct (map_get (lineOfNode lineOfPosition n) (pending st)) as [a|] eqn:E.
  - (* the assertion of the line is bound to the node *)
    set (st2 := bindAssertion typeToString (lineOfNode lineOfPosition n) a n
                              (mkPass (pending st) (unmetExpectations st)
                                      (trace st ++ [Visit n]))).
    assert (Hbound : inOrder (forEachChild' (unwrapExpressionStatement n))
                             (flat_map preorder (childrenOf n))
                     \/ exists s e x,
                         n = ExpressionStatement s e x
                         /\ inOrder (forEachChild' x) (flat_map preorder (childrenOf x))).
    { destruct n; try (left; exact Hn).
      right. eexists _, _, _. split; [reflexivity|]. eapply Hexpr. reflexivity. }
    cbn [specPending specUnmet specTrace]. rewrite E.
    assert (Hst2 : pending st2 = map_remove (lineOfNode lineOfPosition n) (pending st)
                   /\ unmetExpectations st2
                      = unmetExpectations st
                        ++ (if typeMismatch (assertionExpected a)
                                            (actual (candidateFor typeToString a n))
                            then [candidateFor typeToString a n] else [])
                   /\ comparisons (trace st2)
                      = comparisons (trace st)
                        ++ [Compare (lineOfNode lineOfPosition n)
                                    (getNodeForExpectType (unwrapExpressionStatement n))
                                    (candidateFor typeToString a n)]).
    { unfold st2, bindAssertion, candidateFor.
      cbn [pending unmetExpectations trace map_delete snd actual].
      split; [reflexivity|]. split.
      - destruct (typeMismatch _ _); [reflexivity | rewrite app_nil_r; reflexivity].
      - rewrite !comparisons_app. cbn. rewrite app_nil_r. reflexivity. }
    destruct Hst2 as (Hp2 & Hu2 & Hc2).
    destruct Hbound as [Hsame | (s & e & x & -> & Hx)].
    + destruct (Hsame st2) as (Hp & Hu & Hc). rewrite Hp, Hu, Hc, Hp2, Hu2, Hc2.
      rewrite <- !app_assoc. split; [reflexivity|]. split; reflexivity.
    + (* an expression statement: the pass goes on below the expression,
         whose line is the line of the statement *)
      cbn [unwrapExpressionStatement childrenOf flat_map].
      rewrite app_nil_r, preorder_eq.
      destruct (Hx st2) as (Hp & Hu & Hc). rewrite Hp, Hu, Hc, Hp2, Hu2, Hc2.
      assert (Hline : lineOfNode lineOfPosition x
                      = lineOfNode lineOfPosition (ExpressionStatement s e x)).
      { unfold lineOfNode. cbn [getStart]. cbn [startsWithExpression] in Hstart.
        rewrite Hstart. reflexivity. }
      destruct (spec_skip x (flat_map preorder (childrenOf x))
                          (map_remove (lineOfNode lineOfPosition (ExpressionStatement s e x))
                                      (pending st)))
        as (Hsp & Hsu & Hsc).
      { rewrite Hline. apply map_get_remove_same. }
      rewrite !comparisons_bound, Hsp, Hsu, Hsc, <- !app_assoc.
      split; [reflexivity|]. split; reflexivity.
  - (* no pending entry for the line of the node *)
    destruct (Hn (mkPass (pending st) (unmetExpectations st) (trace st ++ [Visit n])))
      as (Hp & Hu & Hc).
    cbn [pending unmetExpectations trace] in Hp, Hu, Hc.
    destruct (spec_skip n (flat_map preorder (childrenOf n)) (pending st) E)
      as (Hsp & Hsu & Hsc).
    rewrite Hp, Hu, Hc, Hsp, Hsu, Hsc, comparisons_app. cbn. rewrite app_nil_r.
    split; [reflexivity|]. split; reflexivity.
Qed.

Lemma traversal_in_order (n : Node) :
  Forall startsWithExpression (preorder n) ->
  inOrder (iterate' n) (preorder n)
  /\ inOrder (forEachChild' n) (flat_map preorder (childrenOf n)).
Proof.
  induction n as [n IH] using Node_children_ind. intros Hwf.
  rewrite preorder_eq in Hwf. inversion Hwf as [|? ? Hn Hbelow]; subst.
  apply Forall_flat_map in Hbelow.
  assert (Hchildren : Forall (fun c => inOrder (iterate' c) (preorder c)
                                       /\ inOrder (forEachChild' c)
                                                  (flat_map preorder (childrenOf c)))
                             (childrenOf n)).
  { rewrite Forall_forall in *. intros c Hc. apply (IH c Hc). apply (Hbelow c Hc). }
  assert (Hfe : inOrder (forEachChild' n) (flat_map preorder (childrenOf n))).
  { unfold forEachChild. apply followsOrder_fold.
    eapply Forall_impl; [|exact Hchildren]. intros c [Hc _]. exact Hc. }
  split; [|exact Hfe].
  apply followsOrder_iterate; [exact Hn | exact Hfe|].
  intros s e x ->. cbn [childrenOf] in Hchildren.
  inversion Hchildren as [|? ? [_ Hx] _]. exact Hx.
Qed.

(** The whole traversal gives what the binding rule gives for the nodes of
    the tree in depth-first order. *)
Lemma forEachChild_in_order (sourceFile : Node) (m : Map Assertion) :
  Forall startsWithExpression (nodesInOrder sourceFile) ->
  let st := forEachChild' sourceFile (mkPass m [] []) in
  pending st = sPending m (nodesInOrder sourceFile)
  /\ unmetExpectations st = sUnmet m (nodesInOrder sourceFile)
  /\ comparisons (trace st) = comparisons (sTrace m (nodesInOrder sourceFile)).
Proof.
  intros Hwf. cbv zeta. unfold nodesInOrder in *.
  apply Forall_flat_map in Hwf.
  assert (Hfe : inOrder (forEachChild' sourceFile)
                        (flat_map preorder (childrenOf sourceFile))).
  { unfold forEachChild. apply followsOrder_fold.
    rewrite Forall_forall in *. intros c Hc.
    apply (proj1 (traversal_in_order c (Hwf c Hc))). }
  destruct (Hfe (mkPass m [] [])) as (Hp & Hu & Hc).
  cbn [pending unmetExpectations trace app comparisons filter] in Hp, Hu, Hc.
  split; [exact Hp|]. split; [exact Hu | exact Hc].
Qed.

End TraversalInOrder.

Section FirstNode.

Variable lineOfPosition : number -> nat.
Variable typeToString : Node -> jsstring.
Variable quickInfo : Z -> option (list jsstring).

Lemma pending_is_unused (sourceFile : Node) (m : Map Assertion)
      (ts : list TwoSlashAssertion) (failures : ExpectTypeFailures) (l : nat) :
  getExpectTypeFailures lineOfPosition typeToString quickInfo sourceFile m ts
  = Some failures ->
  In l (map_keys (pending (forEachChild lineOfPosition typeToString sourceFile
                                        (mkPass m [] [])))) ->
  In l (unusedAssertions failures).
Proof.
  intros Hret Hin.
  destruct (getExpectTypeFailures_returns lineOfPosition typeToString quickInfo
                                          sourceFile m ts failures Hret)
    as (lines & unmet & tr & _ & ->).
  cbn [unusedAssertions]. apply in_or_app. right. exact Hin.
Qed.

Lemma unused_is_reported (Diagnostic : Type)
      (isDiagnosticWithStart : Diagnostic -> option Z)
      (fileName : jsstring) (sf : SourceFile) (diagnostics : list Diagnostic)
      (store : SnapshotStore) (a : Assertions) (reports : list Report)
      (failures : ExpectTypeFailures) (l : nat) :
  reportAssertions lineOfPosition typeToString quickInfo Diagnostic isDiagnosticWithStart
                   fileName sf diagnostics store a = Returned reports ->
  getExpectTypeFailures lineOfPosition typeToString quickInfo (root sf)
                        (loadSnapshots fileName store (typeAssertions a))
                        (twoSlashAssertions a) = Some failures ->
  In l (unusedAssertions failures) ->
  In (lineReport OrphanAssertion (Z.of_nat l)) reports.
Proof.
  intros Hret Hfail Hin.
  destruct (reportAssertions_returns lineOfPosition typeToString quickInfo Diagnostic
                                     isDiagnosticWithStart fileName sf diagnostics store
                                     a reports Hret) as (failures' & Hfail' & ->).
  rewrite Hfail in Hfail'. injection Hfail' as <-.
  do 4 (apply in_or_app; right).
  apply (in_map (fun line => lineReport OrphanAssertion (Z.of_nat line))). exact Hin.
Qed.

(** The first node of a line with a pending entry that fails the
    comparison is among the unmet expectations the rule gives. *)
Lemma spec_first_unmet (l : nat) (a : Assertion) (v1 v2 : list Node) (n : Node)
      (m : Map Assertion) :
  map_get l m = Some a ->
  lineOfNode lineOfPosition n = l ->
  (forall x, In x v1 -> lineOfNode lineOfPosition x <> l) ->
  typeMismatch (assertionExpected a) (actual (candidateFor typeToString a n)) = true ->
  In (candidateFor typeToString a n)
     (specUnmet lineOfPosition typeToString m (v1 ++ n :: v2)).
Proof.
  intros Hget Hline Hbefore Hmismatch.
  destruct (spec_line_not_visited lineOfPosition typeToString l v1 m Hbefore) as [_ Hp1].
  rewrite specUnmet_app. apply in_or_app. right.
  cbn [specUnmet]. rewrite Hline, Hp1, Hget, Hmismatch. left. reflexivity.
Qed.

(** X22.  The binding rule in the order of the tree.  Take a tree in which
    every expression statement starts where its expression starts, a
    pending map [m] with the assertion [a] for the line [l], and the nodes
    below the source file in depth-first order.  If [n] is the first of
    them that starts on line [l], exactly one comparison is made for [l]:
    for [a], with the type of [getNodeForExpectType] of the node bound,
    which is [n] or, for an expression statement, its expression; the
    record of the comparison is among the unmet expectations when the
    comparison fails, and the entry of [l] is gone at the end.  If no node
    of the tree starts on [l], nothing is compared for it and its entry is
    still pending.  When the pass ends without an exception, every line
    that is still pending is among the unused assertions, and is reported
    as an orphan.  For a variable statement with exactly one declarator
    that has an initializer, [getNodeForExpectType] is the initializer. *)
Theorem binding_follows_tree_order
        (sourceFile : Node) (m : Map Assertion) (l : nat) (a : Assertion) :
  Forall startsWithExpression (nodesInOrder sourceFile) ->
  map_get l m = Some a ->
  let st := forEachChild lineOfPosition typeToString sourceFile (mkPass m [] []) in
  (forall v1 n v2,
      nodesInOrder sourceFile = v1 ++ n :: v2 ->
      lineOfNode lineOfPosition n = l ->
      (forall x, In x v1 -> lineOfNode lineOfPosition x <> l) ->
      let bound := unwrapExpressionStatement n in
      let nodeToCheck := getNodeForExpectType bound in
      let candidate := mkUnmet a bound (typeToString nodeToCheck) in
      comparesFor l (trace st) = [Compare l nodeToCheck candidate]
      /\ (typeMismatch (assertionExpected a) (typeToString nodeToCheck) = true ->
          In candidate (unmetExpectations st))
      /\ map_get l (pending st) = None
      /\ ~ In l (map_keys (pending st)))
  /\ ((forall x, In x (nodesInOrder sourceFile) -> lineOfNode lineOfPosition x <> l) ->
      comparesFor l (trace st) = []
      /\ map_get l (pending st) = Some a
      /\ In l (map_keys (pending st)))
  /\ (forall ts failures l',
         getExpectTypeFailures lineOfPosition typeToString quickInfo sourceFile m ts
         = Some failures ->
         In l' (map_keys (pending st)) ->
         In l' (unusedAssertions failures))
  /\ (forall (Diagnostic : Type) (isDiagnosticWithStart : Diagnostic -> option Z)
             fileName sf diagnostics store parsed reports l',
         reportAssertions lineOfPosition typeToString quickInfo Diagnostic
                          isDiagnosticWithStart fileName sf diagnostics store parsed
         = Returned reports ->
         In l' (map_keys
                  (pending (forEachChild lineOfPosition typeToString (root sf)
                                         (mkPass (loadSnapshots fileName store
                                                                (typeAssertions parsed))
                                                 [] [])))) ->
         In (lineReport OrphanAssertion (Z.of_nat l')) reports)
  /\ (forall s e mods s1 e1 s2 e2 nm ty init,
         getNodeForExpectType
           (VariableStatement s e mods
              (VariableDeclarationList s1 e1 [VariableDeclaration s2 e2 nm ty (Some init)]))
         = init).
Proof.
  intros Hwf Hget st.
  destruct (forEachChild_in_order lineOfPosition typeToString sourceFile m Hwf)
    as (Hp & Hu & Hc).
  fold st in Hp, Hu, Hc.
  assert (Hcompares : comparesFor l (trace st)
                      = comparesFor l (specTrace lineOfPosition typeToString m
                                                 (nodesInOrder sourceFile))).
  { rewrite <- (comparesFor_comparisons l (trace st)), Hc.
    apply comparesFor_comparisons. }
  split; [|split; [|split; [|split]]].
  - intros v1 n v2 Hsplit Hline Hbefore bound nodeToCheck candidate.
    rewrite Hcompares, Hp, Hu, Hsplit.
    destruct (spec_first_visited lineOfPosition typeToString l a v1 v2 n m
                                 Hget Hline Hbefore) as [Hcmp Hnone].
    split; [exact Hcmp|]. split; [|split; [exact Hnone|]].
    + intros Hmismatch.
      apply (spec_first_unmet l a v1 v2 n m Hget Hline Hbefore Hmismatch).
    + rewrite map_keys_get. intros H. apply H. exact Hnone.
  - intros Hnone.
    destruct (spec_line_not_visited lineOfPosition typeToString l
                                    (nodesInOrder sourceFile) m Hnone) as [Hcmp Hk].
    rewrite Hcompares, Hp. split; [exact Hcmp|]. split; [rewrite Hk; exact Hget|].
    rewrite map_keys_get, Hk, Hget. discriminate.
  - intros ts failures l' Hret Hin.
    apply (pending_is_unused sourceFile m ts failures l' Hret Hin).
  - intros Diagnostic isDiagnosticWithStart fileName sf diagnostics store parsed reports
           l' Hret Hin.
    destruct (reportAssertions_returns lineOfPosition typeToString quickInfo Diagnostic
                                       isDiagnosticWithStart fileName sf diagnostics store
                                       parsed reports Hret) as (failures & Hfail & _).
    apply (unused_is_reported Diagnostic isDiagnosticWithStart fileName sf diagnostics
                              store parsed reports failures l' Hret Hfail).
    apply (pending_is_unused (root sf) _ _ failures l' Hfail Hin).
  - reflexivity.
Qed.

(** X23.  A caret comment that the scanner attributes to line 1 (the value
    of [commentLine] for a comment that opens the first physical line) and
    whose payload is empty or starts with a space is built as the assertion
    with position -1, range (-1, -1), empty prefix and no inserted space.
    The round of such an assertion adds the failure line 0 and nothing
    else: no unmet expectation, no node lookup and no quick-info query,
    whatever the tree.  When the pass ends without an exception, line 0 is
    among the unused assertions, and the orphan report for it, located at
    line 1, is among the reports. *)
Theorem sentinel_caret_is_orphan
        (comment : jsstring) (commentIndex : nat) (sourceText : jsstring)
        (lineStarts : list nat) (whitespace rawPayload : jsstring) :
  matchTwoslash comment = Some (whitespace, rawPayload) ->
  payloadInOrder rawPayload = true ->
  let t := mkTwoSlashAssertion (Num (-1)) (sliceFrom rawPayload 1) (-1, -1)%Z [] false in
  parseTwoslashAssertion comment commentIndex 1 sourceText lineStarts = Some (inr t)
  /\ (forall sourceFile lines unmet tr,
         checkTwoSlash lineOfPosition quickInfo sourceFile (lines, unmet, tr) t
         = Some (lines ++ [0], unmet, tr))
  /\ (forall sourceFile m ts failures,
         In t ts ->
         getExpectTypeFailures lineOfPosition typeToString quickInfo sourceFile m ts
         = Some failures ->
         In 0 (unusedAssertions failures))
  /\ (forall (Diagnostic : Type) (isDiagnosticWithStart : Diagnostic -> option Z)
             fileName sf diagnostics store parsed reports,
         In t (twoSlashAssertions parsed) ->
         reportAssertions lineOfPosition typeToString quickInfo Diagnostic
                          isDiagnosticWithStart fileName sf diagnostics store parsed
         = Returned reports ->
         In (mkReport OrphanAssertion (LineColumn 1 0) None None None None) reports).
Proof.
  intros Hmatch Hvalid t.
  assert (Hunused : forall sourceFile m ts failures,
             In t ts ->
             getExpectTypeFailures lineOfPosition typeToString quickInfo sourceFile m ts
             = Some failures ->
             In 0 (unusedAssertions failures)).
  { intros sourceFile m ts failures Hin Hret.
    destruct (getExpectTypeFailures_returns lineOfPosition typeToString quickInfo
                                            sourceFile m ts failures Hret)
      as (lines & unmet & tr & Hloop & ->).
    cbn [unusedAssertions]. apply in_or_app. left.
    apply (checkTwoSlashes_sentinel lineOfPosition quickInfo sourceFile ts t Hin eq_refl
                                    _ _ Hloop). }
  split; [|split; [|split; [exact Hunused|]]].
  - unfold parseTwoslashAssertion. rewrite Hmatch.
    unfold payloadInOrder in Hvalid. apply negb_true_iff in Hvalid. rewrite Hvalid.
    reflexivity.
  - intros sourceFile lines unmet tr. apply checkTwoSlash_sentinel. reflexivity.
  - intros Diagnostic isDiagnosticWithStart fileName sf diagnostics store parsed reports
           Hin Hret.
    destruct (reportAssertions_returns lineOfPosition typeToString quickInfo Diagnostic
                                       isDiagnosticWithStart fileName sf diagnostics store
                                       parsed reports Hret) as (failures & Hfail & _).
    apply (unused_is_reported Diagnostic isDiagnosticWithStart fileName sf diagnostics
                              store parsed reports failures 0 Hret Hfail).
    apply (Hunused (root sf) _ _ failures Hin Hfail).
Qed.

End FirstNode.

Lemma binding_follows_tree_order_witness :
  Forall startsWithExpression (nodesInOrder sampleRoot2)
  /\ map_get 1 [(1, manual (lit "string"))] = Some (manual (lit "string"))
  /\ comparesFor 1 (trace (forEachChild sampleLineOfPosition sampleTypeToString sampleRoot2
                                        (mkPass [(1, manual (lit "string"))] [] [])))
     = [Compare 1 sampleInitializer
                (mkUnmet (manual (lit "string")) sampleVariableStatement (lit "number"))].
Proof.
  assert (Hwf : Forall startsWithExpression (nodesInOrder sampleRoot2)).
  { unfold nodesInOrder. cbn.
    repeat (constructor; [first [reflexivity | exact I]|]). constructor. }
  split; [exact Hwf|]. split; [reflexivity|].
  destruct (binding_follows_tree_order
              sampleLineOfPosition sampleTypeToString sampleQuickInfo
              sampleRoot2 [(1, manual (lit "string"))] 1 (manual (lit "string"))
              Hwf eq_refl) as (Hfirst & _).
  destruct (Hfirst [sampleStatement; sampleIdentifier] sampleVariableStatement
                   [sampleDeclarationList; sampleDeclaration; OtherNode 80 26 27 [];
                    sampleInitializer; OtherNode 80 30 31 []; OtherNode 9 32 33 []])
    as (Hcompare & _).
  - vm_compute. reflexivity.
  - vm_compute. reflexivity.
  - intros x [<-|[<-|[]]]; vm_compute; discriminate.
  - exact Hcompare.
Defined.

Lemma sentinel_caret_is_orphan_witness :
  matchTwoslash (lit " ^? number") = Some (lit " ", lit " number")
  /\ payloadInOrder (lit " number") = true
  /\ parseTwoslashAssertion (lit " ^? number") 0 1 caretFirstSource
                            (computeLineStarts caretFirstSource)
     = Some (inr (mkTwoSlashAssertion (Num (-1)) (lit "number") (-1, -1)%Z [] false)).
Proof.
  split; [reflexivity|]. split; [reflexivity|].
  destruct (sentinel_caret_is_orphan
              sampleLineOfPosition sampleTypeToString sampleQuickInfo
              (lit " ^? number") 0 caretFirstSource (computeLineStarts caretFirstSource)
              (lit " ") (lit " number") eq_refl eq_refl) as (Hparse & _).
  exact Hparse.
Defined.
